(** * PromptVault: encrypted local-first sync engine

    A shallow embedding of [src/lib/crypto.ts], [src/lib/gist.ts] and the
    orchestration code of the [MainApp] component (initial load,
    [saveToCloud], [debouncedSave], [modifyPrompts], [importData]), together
    with the properties of the specification that can be settled on it.

    Conventions.
    - A JavaScript string is the list of its UTF-16 code units ([jsstring]).
    - A [Uint8Array] is a list of [byte].
    - A computation that can throw, or a promise that can reject, returns an
      [outcome]; [await] is the bind of that monad and [try]/[catch] is
      [try_catch].
    - Platform services the source calls but does not define (WebCrypto,
      [fetch], [JSON]) are interfaces; the text codecs ([TextEncoder],
      [TextDecoder], [btoa], [atob]) are written out after their standards. *)

From Stdlib Require Import NArith ZArith List String Ascii Bool Lia.
From Stdlib.Strings Require Import Byte.
From stdpp Require Import base option list gmap strings pretty.

Import ListNotations.
Open Scope N_scope.

(** ** Exceptions and promises *)

Module JS.

Inductive exn : Type :=
| TypeError
| SyntaxError
| InvalidCharacterError
| OperationError
| NetworkError
| QuotaExceededError.

Inductive outcome (A : Type) : Type :=
| Ret (a : A)
| Throw (e : exn).

Arguments Ret {A} a.
Arguments Throw {A} e.

Definition bind {A B} (m : outcome A) (k : A -> outcome B) : outcome B :=
  match m with
  | Ret a => k a
  | Throw e => Throw e
  end.

(** [try { m } catch { h }] *)
Definition try_catch {A} (m : outcome A) (h : exn -> outcome A) : outcome A :=
  match m with
  | Ret a => Ret a
  | Throw e => h e
  end.

(** A JavaScript string: its UTF-16 code units. *)
Definition jsstring : Type := list N.

Definition is_code_unit (u : N) : bool := u <? 65536.

(** An ASCII literal of the source. *)
Definition js (s : string) : jsstring :=
  map N_of_ascii (list_ascii_of_string s).

(** Truthiness of a string: only the empty string is falsy. *)
Definition truthy_str (s : jsstring) : bool :=
  match s with [] => false | _ :: _ => true end.

(** Truthiness of [string | null]. *)
Definition truthy_opt (o : option jsstring) : bool :=
  match o with Some s => truthy_str s | None => false end.

Definition jsstring_eqb (a b : jsstring) : bool :=
  bool_decide (a = b).

End JS.

Export JS.

(** [x ← m; k] reads [const x = await m; k]. *)
#[export] Instance outcome_ret : MRet outcome := @Ret.
#[export] Instance outcome_bind : MBind outcome := fun A B k m => bind m k.

(** ** Text codecs of the platform *)

Module Encoding.

(** Assignment into a [Uint8Array] keeps the value modulo 256. *)
Definition byte_of_N (n : N) : byte :=
  match Byte.of_N (n mod 256) with
  | Some b => b
  | None => x00
  end.

Definition is_high_surrogate (u : N) : bool := (0xD800 <=? u) && (u <=? 0xDBFF).
Definition is_low_surrogate (u : N) : bool := (0xDC00 <=? u) && (u <=? 0xDFFF).
Definition is_surrogate (u : N) : bool := (0xD800 <=? u) && (u <=? 0xDFFF).

(** Conversion of a string to scalar values: a surrogate pair is one
    supplementary code point, an unpaired surrogate becomes U+FFFD. *)
Fixpoint to_scalar_values (s : jsstring) : list N :=
  match s with
  | [] => []
  | u :: rest =>
      if is_high_surrogate u then
        match rest with
        | v :: rest' =>
            if is_low_surrogate v
            then (0x10000 + (u - 0xD800) * 0x400 + (v - 0xDC00)) :: to_scalar_values rest'
            else 0xFFFD :: to_scalar_values rest
        | [] => [0xFFFD]
        end
      else if is_low_surrogate u then 0xFFFD :: to_scalar_values rest
      else u :: to_scalar_values rest
  end.

(** UTF-8 encoding of one scalar value. *)
Definition utf8_encode_scalar (c : N) : list byte :=
  if c <? 0x80 then [byte_of_N c]
  else if c <? 0x800 then
    [byte_of_N (0xC0 + c / 0x40); byte_of_N (0x80 + c mod 0x40)]
  else if c <? 0x10000 then
    [byte_of_N (0xE0 + c / 0x1000);
     byte_of_N (0x80 + (c / 0x40) mod 0x40);
     byte_of_N (0x80 + c mod 0x40)]
  else
    [byte_of_N (0xF0 + c / 0x40000);
     byte_of_N (0x80 + (c / 0x1000) mod 0x40);
     byte_of_N (0x80 + (c / 0x40) mod 0x40);
     byte_of_N (0x80 + c mod 0x40)].

(** [new TextEncoder().encode(s)] *)
Definition TextEncoder_encode (s : jsstring) : list byte :=
  concat (map utf8_encode_scalar (to_scalar_values s)).

(** State of the UTF-8 decoder: the code point under construction, the
    continuation bytes still needed, and the bounds allowed for the next
    byte. *)
Record utf8_state : Type := mk_utf8_state {
  u8_code_point : N;
  u8_needed : nat;
  u8_lower : N;
  u8_upper : N
}.

Definition utf8_start : utf8_state := mk_utf8_state 0 0 0x80 0xBF.

(** A byte read when no sequence is open. *)
Definition utf8_lead (b : N) : list N * utf8_state :=
  if b <=? 0x7F then ([b], utf8_start)
  else if (0xC2 <=? b) && (b <=? 0xDF) then
    ([], mk_utf8_state (b mod 0x20) 1 0x80 0xBF)
  else if (0xE0 <=? b) && (b <=? 0xEF) then
    ([], mk_utf8_state (b mod 0x10) 2
           (if b =? 0xE0 then 0xA0 else 0x80)
           (if b =? 0xED then 0x9F else 0xBF))
  else if (0xF0 <=? b) && (b <=? 0xF4) then
    ([], mk_utf8_state (b mod 0x08) 3
           (if b =? 0xF0 then 0x90 else 0x80)
           (if b =? 0xF4 then 0x8F else 0xBF))
  else ([0xFFFD], utf8_start).

(** One byte through the decoder. A byte outside the bounds closes the open
    sequence with U+FFFD and is then read again as a lead byte. *)
Definition utf8_step (st : utf8_state) (b : N) : list N * utf8_state :=
  match u8_needed st with
  | O => utf8_lead b
  | S n =>
      if (u8_lower st <=? b) && (b <=? u8_upper st) then
        let cp := u8_code_point st * 0x40 + b mod 0x40 in
        match n with
        | O => ([cp], utf8_start)
        | S _ => ([], mk_utf8_state cp n 0x80 0xBF)
        end
      else
        let '(out, st') := utf8_lead b in (0xFFFD :: out, st')
  end.

Fixpoint utf8_decode_from (st : utf8_state) (bs : list byte) : list N :=
  match bs with
  | [] => match u8_needed st with O => [] | S _ => [0xFFFD] end
  | b :: rest =>
      let '(out, st') := utf8_step st (Byte.to_N b) in
      out ++ utf8_decode_from st' rest
  end.

(** A scalar value as UTF-16 code units. *)
Definition utf16_units (c : N) : list N :=
  if c <? 0x10000 then [c]
  else [0xD800 + (c - 0x10000) / 0x400; 0xDC00 + (c - 0x10000) mod 0x400].

(** The decoder drops one leading U+FEFF (the [ignoreBOM] option is off). *)
Definition strip_bom (cs : list N) : list N :=
  match cs with
  | c :: rest => if c =? 0xFEFF then rest else cs
  | [] => []
  end.

(** [new TextDecoder().decode(bytes)] *)
Definition TextDecoder_decode (bs : list byte) : jsstring :=
  concat (map utf16_units (strip_bom (utf8_decode_from utf8_start bs))).

(** A string literal of the source file, which is UTF-8 text. *)
Definition utf8 (s : string) : jsstring :=
  concat (map utf16_units (utf8_decode_from utf8_start (list_byte_of_string s))).


(** *** Base64 ([btoa], [atob]) *)

Definition b64_char (n : N) : N :=
  if n <? 26 then 65 + n
  else if n <? 52 then 97 + (n - 26)
  else if n <? 62 then 48 + (n - 52)
  else if n =? 62 then 43
  else 47.

Definition b64_index (c : N) : option N :=
  if (65 <=? c) && (c <=? 90) then Some (c - 65)
  else if (97 <=? c) && (c <=? 122) then Some (c - 97 + 26)
  else if (48 <=? c) && (c <=? 57) then Some (c - 48 + 52)
  else if c =? 43 then Some 62
  else if c =? 47 then Some 63
  else None.

Definition b64_pad : N := 61.

Fixpoint b64_encode (bs : list N) : jsstring :=
  match bs with
  | [] => []
  | [a] => [b64_char (a / 4); b64_char ((a mod 4) * 16); b64_pad; b64_pad]
  | [a; b] =>
      [b64_char (a / 4); b64_char ((a mod 4) * 16 + b / 16);
       b64_char ((b mod 16) * 4); b64_pad]
  | a :: b :: c :: rest =>
      b64_char (a / 4) :: b64_char ((a mod 4) * 16 + b / 16)
      :: b64_char ((b mod 16) * 4 + c / 64) :: b64_char (c mod 64)
      :: b64_encode rest
  end.

(** [btoa(s)]: rejects a string with a code unit above 0xFF. *)
Definition btoa (s : jsstring) : outcome jsstring :=
  if forallb (fun u => u <=? 0xFF) s then Ret (b64_encode s)
  else Throw InvalidCharacterError.

Definition is_ascii_whitespace (c : N) : bool :=
  (c =? 0x09) || (c =? 0x0A) || (c =? 0x0C) || (c =? 0x0D) || (c =? 0x20).

(** Drops one or two [=] at the end. *)
Definition strip_padding (s : jsstring) : jsstring :=
  match rev s with
  | c1 :: r1 =>
      if c1 =? b64_pad then
        match r1 with
        | c2 :: r2 => if c2 =? b64_pad then rev r2 else rev r1
        | [] => rev r1
        end
      else s
  | [] => s
  end.

Fixpoint b64_indices (s : jsstring) : option (list N) :=
  match s with
  | [] => Some []
  | c :: rest =>
      match b64_index c, b64_indices rest with
      | Some i, Some xs => Some (i :: xs)
      | _, _ => None
      end
  end.

(** Sextets to bytes; two or three sextets left over give one or two bytes,
    their unused low bits dropped. *)
Fixpoint b64_decode (xs : list N) : list N :=
  match xs with
  | p :: q :: r :: s :: rest =>
      (p * 4 + q / 16) :: ((q mod 16) * 16 + r / 4) :: ((r mod 4) * 64 + s)
      :: b64_decode rest
  | [p; q; r] => [p * 4 + q / 16; (q mod 16) * 16 + r / 4]
  | [p; q] => [p * 4 + q / 16]
  | _ => []
  end.

(** [atob(s)]: the forgiving base64 decoder. *)
Definition atob (s : jsstring) : outcome jsstring :=
  let s1 := List.filter (fun c => negb (is_ascii_whitespace c)) s in
  let s2 := if (N.of_nat (length s1) mod 4 =? 0) then strip_padding s1 else s1 in
  if N.of_nat (length s2) mod 4 =? 1 then Throw InvalidCharacterError
  else match b64_indices s2 with
       | Some xs => Ret (b64_decode xs)
       | None => Throw InvalidCharacterError
       end.

(** *** Predicates and views used to state the codec properties *)

Definition is_scalar_value (c : N) : bool :=
  (c <? 0x110000) && negb (is_surrogate c).

(** No unpaired surrogate, every element a 16-bit code unit. *)
Fixpoint well_formed (s : jsstring) : bool :=
  match s with
  | [] => true
  | u :: rest =>
      if is_high_surrogate u then
        match rest with
        | v :: rest' => is_low_surrogate v && well_formed rest'
        | [] => false
        end
      else negb (is_low_surrogate u) && is_code_unit u && well_formed rest
  end.

Definition starts_with_bom (s : jsstring) : bool :=
  match s with
  | u :: _ => u =? 0xFEFF
  | [] => false
  end.

(** The sextets and the padding [b64_encode] writes. *)
Fixpoint sextets (bs : list N) : list N :=
  match bs with
  | [] => []
  | [a] => [a / 4; (a mod 4) * 16]
  | [a; b] => [a / 4; (a mod 4) * 16 + b / 16; (b mod 16) * 4]
  | a :: b :: c :: rest =>
      a / 4 :: (a mod 4) * 16 + b / 16 :: (b mod 16) * 4 + c / 64 :: c mod 64
      :: sextets rest
  end.

Fixpoint padding (bs : list N) : jsstring :=
  match bs with
  | [] => []
  | [_] => [b64_pad; b64_pad]
  | [_; _] => [b64_pad]
  | _ :: _ :: _ :: rest => padding rest
  end.

Definition all_below (k : N) (xs : list N) : Prop := Forall (fun x => x < k) xs.

End Encoding.

Export Encoding.

(** ** [src/lib/crypto.ts] *)

Module Crypto.

(** The part of [crypto.subtle] the module uses. [pbkdf2_aes_key] is
    [importKey('raw', material, 'PBKDF2')] followed by [deriveKey] with the
    given salt and iteration count, hash SHA-256, target AES-GCM 256.
    [aes_gcm_decrypt] rejects when the authentication tag does not verify. *)
Class WebCrypto : Type := {
  CryptoKey : Type;
  pbkdf2_aes_key : list byte -> list byte -> N -> CryptoKey;
  aes_gcm_encrypt : CryptoKey -> list byte -> list byte -> list byte;
  aes_gcm_decrypt : CryptoKey -> list byte -> list byte -> outcome (list byte);
  aes_gcm_decrypt_encrypt :
    forall k iv pt, aes_gcm_decrypt k iv (aes_gcm_encrypt k iv pt) = Ret pt
}.

Definition ITERATIONS : N := 100000.
Definition VERIFY_PHRASE : jsstring := js "PROMPTVAULT_V1_OK".

(** [dst.set(src, off)] on a [Uint8Array], for a source that fits. *)
Definition array_set (dst src : list byte) (off : nat) : list byte :=
  take off dst ++ src ++ drop (off + length src) dst.

(** [a.slice(from, to)] and [a.slice(from)] *)
Definition slice (a : list byte) (from to : nat) : list byte :=
  take (to - from) (drop from a).
Definition slice_from (a : list byte) (from : nat) : list byte :=
  drop from a.

Definition arrayBufferToBase64 (buf : list byte) : outcome jsstring :=
  let binary := map Byte.to_N buf in
  btoa binary.

Definition base64ToUint8Array (base64 : jsstring) : outcome (list byte) :=
  binary ← atob base64;
  mret (map byte_of_N binary).

(** The two draws of [crypto.getRandomValues] made by one [encrypt] call. *)
Record entropy : Type := mk_entropy {
  rnd_salt : list byte;
  rnd_iv : list byte
}.

Definition entropy_ok (r : entropy) : Prop :=
  length (rnd_salt r) = 16%nat /\ length (rnd_iv r) = 12%nat.

Section WithWebCrypto.
Context `{WebCrypto}.

Definition deriveKey (pin : jsstring) (salt : list byte) : CryptoKey :=
  pbkdf2_aes_key (TextEncoder_encode pin) salt ITERATIONS.

Definition encrypt (r : entropy) (plaintext pin : jsstring) : outcome jsstring :=
  let salt := rnd_salt r in
  let iv := rnd_iv r in
  let key := deriveKey pin salt in
  let encrypted := aes_gcm_encrypt key iv (TextEncoder_encode plaintext) in
  let encBytes := encrypted in
  let combined :=
    replicate (length salt + length iv + length encBytes) x00 in
  let combined := array_set combined salt 0 in
  let combined := array_set combined iv (length salt) in
  let combined := array_set combined encBytes (length salt + length iv) in
  arrayBufferToBase64 combined.

Definition decrypt (encryptedBase64 pin : jsstring) : outcome jsstring :=
  combined ← base64ToUint8Array encryptedBase64;
  let salt := slice combined 0 16 in
  let iv := slice combined 16 28 in
  let data := slice_from combined 28 in
  let key := deriveKey pin salt in
  decrypted ← aes_gcm_decrypt key iv data;
  mret (TextDecoder_decode decrypted).

Definition createPinVerifier (r : entropy) (pin : jsstring) : outcome jsstring :=
  encrypt r VERIFY_PHRASE pin.

Definition verifyPin (pin verifier : jsstring) : outcome bool :=
  try_catch
    (result ← decrypt verifier pin;
     mret (jsstring_eqb result VERIFY_PHRASE))
    (fun _ => mret false).

(** The envelope [encrypt] builds: base64 of salt, nonce and ciphertext. *)
Definition envelope_of (r : entropy) (plaintext pin : jsstring) : jsstring :=
  b64_encode
    (map Byte.to_N
       (rnd_salt r ++ rnd_iv r
        ++ aes_gcm_encrypt (deriveKey pin (rnd_salt r)) (rnd_iv r)
             (TextEncoder_encode plaintext))).

(** The authentication of AES-GCM, idealised: what one key sealed, no other
    key opens. *)
Definition rejects_wrong_key : Prop :=
  forall k k' iv pt, k' <> k ->
    aes_gcm_decrypt k' iv (aes_gcm_encrypt k iv pt) = Throw OperationError.

End WithWebCrypto.

(** A small cipher that satisfies the interface, to run the module on
    concrete inputs: the key is a one-byte checksum of the passphrase bytes
    and the salt, and the ciphertext is the plaintext behind the key byte. *)
Module Toy.

Definition checksum (bs : list byte) : N :=
  fold_right (fun b acc => Byte.to_N b + acc) 0 bs.

Definition toy_key (material salt : list byte) (iterations : N) : byte :=
  byte_of_N (checksum material + 3 * checksum salt + iterations).

Definition toy_encrypt (k : byte) (iv pt : list byte) : list byte := k :: pt.

Definition toy_decrypt (k : byte) (iv ct : list byte) : outcome (list byte) :=
  match ct with
  | t :: pt => if Byte.eqb t k then Ret pt else Throw OperationError
  | [] => Throw OperationError
  end.

Lemma toy_decrypt_encrypt k iv pt :
  toy_decrypt k iv (toy_encrypt k iv pt) = Ret pt.
Proof. unfold toy_decrypt, toy_encrypt. now rewrite (Byte.byte_dec_lb (x:=k) eq_refl). Qed.

#[export] Instance toy_crypto : WebCrypto := {|
  CryptoKey := byte;
  pbkdf2_aes_key := toy_key;
  aes_gcm_encrypt := toy_encrypt;
  aes_gcm_decrypt := toy_decrypt;
  aes_gcm_decrypt_encrypt := toy_decrypt_encrypt
|}.

Definition toy_entropy : entropy :=
  mk_entropy (replicate 16 x01) (replicate 12 x02).

End Toy.

End Crypto.

Export Crypto.

(** ** [src/types.ts] and run-time values *)

Module Types.

(** A value as [JSON.parse] builds it, with [undefined] for a missing
    property. Numbers are the integers the program handles (epoch
    milliseconds, counters, versions). *)
#[warnings="-register-all"]
Inductive value : Type :=
| VUndefined
| VNull
| VBool (b : bool)
| VNum (n : Z)
| VStr (s : jsstring)
| VArr (items : list value)
| VObj (fields : list (jsstring * value)).

Definition truthy (v : value) : bool :=
  match v with
  | VUndefined | VNull => false
  | VBool b => b
  | VNum n => negb (n =? 0)%Z
  | VStr s => truthy_str s
  | VArr _ | VObj _ => true
  end.

Fixpoint assoc (k : jsstring) (fields : list (jsstring * value)) : option value :=
  match fields with
  | [] => None
  | (k', v) :: rest => if jsstring_eqb k k' then Some v else assoc k rest
  end.

(** [v.k] and [v[k]] for a property name [k]: reading a property of
    [undefined] or [null] throws; a missing property reads [undefined]. *)
Definition get_prop (v : value) (k : jsstring) : outcome value :=
  match v with
  | VUndefined | VNull => Throw TypeError
  | VObj fields => Ret (default VUndefined (assoc k fields))
  | VArr items =>
      Ret (if jsstring_eqb k (js "length")
           then VNum (Z.of_nat (length items)) else VUndefined)
  | VStr s =>
      Ret (if jsstring_eqb k (js "length")
           then VNum (Z.of_nat (length s)) else VUndefined)
  | VBool _ | VNum _ => Ret VUndefined
  end.

(** [k in v]: throws unless [v] is an object (arrays are objects). *)
Definition js_in (k : jsstring) (v : value) : outcome bool :=
  match v with
  | VObj fields => Ret (bool_decide (is_Some (assoc k fields)))
  | VArr items => Ret (jsstring_eqb k (js "length"))
  | _ => Throw TypeError
  end.

(** [xs.find(p)] on the elements of an array, for a predicate that may
    throw. *)
Fixpoint array_find (p : value -> outcome bool) (xs : list value) : outcome value :=
  match xs with
  | [] => Ret VUndefined
  | x :: rest =>
      match p x with
      | Throw e => Throw e
      | Ret true => Ret x
      | Ret false => array_find p rest
      end
  end.

(** [v.find(p)]: only arrays have the method among parsed JSON values. *)
Definition js_find (v : value) (p : value -> outcome bool) : outcome value :=
  match v with
  | VArr items => array_find p items
  | _ => Throw TypeError
  end.

Module Prompt.
Record t : Type := mk {
  id : jsstring;
  title : jsstring;
  content : jsstring;
  category : jsstring;
  tags : list jsstring;
  isFavorite : bool;
  createdAt : Z;
  updatedAt : Z;
  usageCount : Z
}.
End Prompt.

Definition Prompt_to_value (p : Prompt.t) : value :=
  VObj [ (js "id", VStr (Prompt.id p)); (js "title", VStr (Prompt.title p));
         (js "content", VStr (Prompt.content p));
         (js "category", VStr (Prompt.category p));
         (js "tags", VArr (map VStr (Prompt.tags p)));
         (js "isFavorite", VBool (Prompt.isFavorite p));
         (js "createdAt", VNum (Prompt.createdAt p));
         (js "updatedAt", VNum (Prompt.updatedAt p));
         (js "usageCount", VNum (Prompt.usageCount p)) ].

Definition is_VStr (v : value) : bool := match v with VStr _ => true | _ => false end.
Definition is_VNum (v : value) : bool := match v with VNum _ => true | _ => false end.
Definition is_VBool (v : value) : bool := match v with VBool _ => true | _ => false end.

Definition has_field (check : value -> bool) (k : string) (v : value) : bool :=
  match v with
  | VObj fields =>
      match assoc (js k) fields with Some x => check x | None => false end
  | _ => false
  end.

(** The shape of a full [Prompt]: every field present with its type. *)
Definition is_Prompt (v : value) : bool :=
  has_field is_VStr "id" v && has_field is_VStr "title" v
  && has_field is_VStr "content" v && has_field is_VStr "category" v
  && has_field (fun t => match t with VArr ts => forallb is_VStr ts | _ => false end) "tags" v
  && has_field is_VBool "isFavorite" v
  && has_field is_VNum "createdAt" v && has_field is_VNum "updatedAt" v
  && has_field is_VNum "usageCount" v.

(** Types are erased at run time and [importData] stores parsed entries
    unchecked, so the elements of a [Prompt[]] are values. *)
Record VaultData : Type := mk_VaultData {
  prompts : list value;
  version : Z;
  lastSync : Z
}.

Definition VaultData_to_value (d : VaultData) : value :=
  VObj [ (js "prompts", VArr (prompts d)); (js "version", VNum (version d));
         (js "lastSync", VNum (lastSync d)) ].

Inductive SyncStatus : Type := idle | syncing | synced | error | offline.

(** The [JSON] object. [JSON_parse] takes the argument as passed (it is
    converted to a string first) and throws [SyntaxError] on malformed text;
    [JSON_stringify] takes the indentation. *)
Class JSONApi : Type := {
  JSON_parse : value -> outcome value;
  JSON_stringify : value -> nat -> jsstring
}.

End Types.

Export Types.

(** ** [src/lib/gist.ts] *)

Module Gist.

Definition GIST_FILENAME : jsstring := js "promptvault_data.json".
Definition API_BASE : jsstring := js "https://api.github.com".

Record request : Type := mk_request {
  req_url : jsstring;
  req_method : string;
  req_headers : list (string * jsstring);
  req_body : option jsstring
}.

(** What the program reads of a [Response]: [ok], [status], and the promise
    of [json()], which rejects on a body that is not JSON. *)
Record response : Type := mk_response {
  res_ok : bool;
  res_status : N;
  res_json : outcome value
}.

Definition headers (token : jsstring) : list (string * jsstring) :=
  [ ("Authorization"%string, js "Bearer " ++ token);
    ("Content-Type"%string, js "application/json");
    ("Accept"%string, js "application/vnd.github.v3+json") ].

(** Decimal digits of a page number. *)
Definition page_to_string (page : N) : jsstring :=
  match page with
  | 1 => js "1" | 2 => js "2" | 3 => js "3"
  | _ => js "0"
  end.

Section WithTransport.
(** [fetch] rejects on a transport failure. *)
Variable fetch : request -> outcome response.
Context `{JSONApi}.

Definition validateToken (token : jsstring) : outcome value :=
  try_catch
    (res ← fetch (mk_request (API_BASE ++ js "/user") "GET" (headers token) None);
     if negb (res_ok res) then mret (VObj [(js "valid", VBool false)])
     else
       data ← res_json res;
       login ← get_prop data (js "login");
       mret (VObj [(js "valid", VBool true); (js "username", login)]))
    (fun _ => mret (VObj [(js "valid", VBool false)])).

(** The body of the page loop, for the pages still to visit. *)
Fixpoint findVaultGist_pages (token : jsstring) (pages : list N) : outcome value :=
  match pages with
  | [] => mret VNull
  | page :: later =>
      res ← fetch (mk_request
                     (API_BASE ++ js "/gists?per_page=100&page=" ++ page_to_string page)
                     "GET" (headers token) None);
      if negb (res_ok res) then mret VNull
      else
        gists ← res_json res;
        len ← get_prop gists (js "length");
        match len with
        | VNum 0 => mret VNull
        | _ =>
            found ← js_find gists
                      (fun g => files ← get_prop g (js "files");
                                js_in GIST_FILENAME files);
            if truthy found then get_prop found (js "id")
            else findVaultGist_pages token later
        end
  end.

Definition findVaultGist (token : jsstring) : outcome value :=
  try_catch (findVaultGist_pages token [1; 2; 3]) (fun _ => mret VNull).

Definition loadFromGist (token gistId : jsstring) : outcome value :=
  try_catch
    (res ← fetch (mk_request (API_BASE ++ js "/gists/" ++ gistId) "GET"
                    (headers token) None);
     if negb (res_ok res) then mret VNull
     else
       gist ← res_json res;
       files ← get_prop gist (js "files");
       file ← get_prop files GIST_FILENAME;
       if negb (truthy file) then mret VNull
       else
         content ← get_prop file (js "content");
         JSON_parse content)
    (fun _ => mret VNull).

Definition saveToGist (token : jsstring) (gistId : option jsstring)
    (data : VaultData) : outcome value :=
  let body :=
    VObj [ (js "description",
            VStr (utf8 "PromptVault — encrypted prompt storage (do not edit manually)"));
           (js "public", VBool false);
           (js "files",
            VObj [ (GIST_FILENAME,
                    VObj [ (js "content",
                            VStr (JSON_stringify (VaultData_to_value data) 2)) ]) ]) ] in
  let update (gid : jsstring) : outcome value :=
    res ← fetch (mk_request (API_BASE ++ js "/gists/" ++ gid) "PATCH"
                   (headers token) (Some (JSON_stringify body 0)));
    if negb (res_ok res) then mret VNull
    else mret (VStr gid) in
  let create : outcome value :=
    res ← fetch (mk_request (API_BASE ++ js "/gists") "POST"
                   (headers token) (Some (JSON_stringify body 0)));
    if negb (res_ok res) then mret VNull
    else
      gist ← res_json res;
      get_prop gist (js "id") in
  try_catch
    (if truthy_opt gistId then
       match gistId with Some gid => update gid | None => create end
     else create)
    (fun _ => mret VNull).

Definition deleteGist (token gistId : jsstring) : outcome value :=
  try_catch
    (res ← fetch (mk_request (API_BASE ++ js "/gists/" ++ gistId) "DELETE"
                    (headers token) None);
     mret (VBool (res_ok res || (res_status res =? 204))))
    (fun _ => mret (VBool false)).

End WithTransport.

(** A response with an error status (not even 204). *)
Definition res_not_ok (res : response) : Prop :=
  res_ok res = false /\ (res_status res =? 204) = false.

End Gist.


(** ** The [MainApp] component: initial load and propagation *)

Module App.

Definition LS_PIN_VERIFIER : string := "pv_pin_verifier".
Definition LS_ENCRYPTED_TOKEN : string := "pv_encrypted_token".
Definition LS_ENCRYPTED_CACHE : string := "pv_encrypted_cache".
Definition LS_GIST_ID : string := "pv_gist_id".
Definition LS_USERNAME : string := "pv_username".

(** The delay passed to [setTimeout] by [debouncedSave], in milliseconds. *)
Definition SAVE_DELAY : Z := 1500.

(** What [MainApp] imports and calls, at the types the source declares:
    the three functions of [gist.ts] it uses, [JSON.parse] at type
    [VaultData], the successive draws of [crypto.getRandomValues] made by
    [encrypt], and the successive results of [crypto.randomUUID]. The
    browser decides whether [localStorage.setItem] stores a value or throws
    (the quota is exceeded, the storage is disabled): [setItem_accepts]
    answers for the storage as it is, the key and the value. *)
Record Env : Type := mk_Env {
  loadFromGist : jsstring -> jsstring -> outcome (option VaultData);
  findVaultGist : jsstring -> outcome (option jsstring);
  saveToGist : jsstring -> option jsstring -> VaultData -> outcome (option jsstring);
  parse_VaultData : jsstring -> outcome VaultData;
  getRandomValues : nat -> entropy;
  randomUUID : nat -> jsstring;
  setItem_accepts : gmap string jsstring -> string -> jsstring -> bool
}.

(** The state cells of one mounted component ([useState], [useRef]), the
    browser state it touches ([localStorage], pending timeouts, the clock),
    and counters: awaits completed by the running async function, calls of
    [encrypt] and of [genId], the log of the calls of [saveToGist], and the
    log of the writes made (to a state cell, a ref or [localStorage]), each
    with the number of awaits completed when it was made. A pending timeout
    is its handle, its due time and the argument its callback passes to
    [saveToCloud]. *)
Record state : Type := mk_state {
  s_prompts : list value;
  s_syncStatus : SyncStatus;
  s_syncMessage : jsstring;
  s_dataLoaded : bool;
  tokenRef : option jsstring;
  saveTimeoutRef : option nat;
  localStorage : gmap string jsstring;
  timers : list (nat * (Z * list value));
  next_timer : nat;
  clock : Z;
  awaits : nat;
  encrypt_calls : nat;
  uuid_calls : nat;
  upserts : list (jsstring * option jsstring * VaultData);
  commits : list (nat * string)
}.

Definition set_s_prompts (v : list value) (s : state) : state :=
  {| s_prompts := v;
     s_syncStatus := s_syncStatus s;
     s_syncMessage := s_syncMessage s;
     s_dataLoaded := s_dataLoaded s;
     tokenRef := tokenRef s;
     saveTimeoutRef := saveTimeoutRef s;
     localStorage := localStorage s;
     timers := timers s;
     next_timer := next_timer s;
     clock := clock s;
     awaits := awaits s;
     encrypt_calls := encrypt_calls s;
     uuid_calls := uuid_calls s;
     upserts := upserts s;
     commits := commits s |}.
Definition set_s_syncStatus (v : SyncStatus) (s : state) : state :=
  {| s_prompts := s_prompts s;
     s_syncStatus := v;
     s_syncMessage := s_syncMessage s;
     s_dataLoaded := s_dataLoaded s;
     tokenRef := tokenRef s;
     saveTimeoutRef := saveTimeoutRef s;
     localStorage := localStorage s;
     timers := timers s;
     next_timer := next_timer s;
     clock := clock s;
     awaits := awaits s;
     encrypt_calls := encrypt_calls s;
     uuid_calls := uuid_calls s;
     upserts := upserts s;
     commits := commits s |}.
Definition set_s_syncMessage (v : jsstring) (s : state) : state :=
  {| s_prompts := s_prompts s;
     s_syncStatus := s_syncStatus s;
     s_syncMessage := v;
     s_dataLoaded := s_dataLoaded s;
     tokenRef := tokenRef s;
     saveTimeoutRef := saveTimeoutRef s;
     localStorage := localStorage s;
     timers := timers s;
     next_timer := next_timer s;
     clock := clock s;
     awaits := awaits s;
     encrypt_calls := encrypt_calls s;
     uuid_calls := uuid_calls s;
     upserts := upserts s;
     commits := commits s |}.
Definition set_s_dataLoaded (v : bool) (s : state) : state :=
  {| s_prompts := s_prompts s;
     s_syncStatus := s_syncStatus s;
     s_syncMessage := s_syncMessage s;
     s_dataLoaded := v;
     tokenRef := tokenRef s;
     saveTimeoutRef := saveTimeoutRef s;
     localStorage := localStorage s;
     timers := timers s;
     next_timer := next_timer s;
     clock := clock s;
     awaits := awaits s;
     encrypt_calls := encrypt_calls s;
     uuid_calls := uuid_calls s;
     upserts := upserts s;
     commits := commits s |}.
Definition set_tokenRef (v : option jsstring) (s : state) : state :=
  {| s_prompts := s_prompts s;
     s_syncStatus := s_syncStatus s;
     s_syncMessage := s_syncMessage s;
     s_dataLoaded := s_dataLoaded s;
     tokenRef := v;
     saveTimeoutRef := saveTimeoutRef s;
     localStorage := localStorage s;
     timers := timers s;
     next_timer := next_timer s;
     clock := clock s;
     awaits := awaits s;
     encrypt_calls := encrypt_calls s;
     uuid_calls := uuid_calls s;
     upserts := upserts s;
     commits := commits s |}.
Definition set_saveTimeoutRef (v : option nat) (s : state) : state :=
  {| s_prompts := s_prompts s;
     s_syncStatus := s_syncStatus s;
     s_syncMessage := s_syncMessage s;
     s_dataLoaded := s_dataLoaded s;
     tokenRef := tokenRef s;
     saveTimeoutRef := v;
     localStorage := localStorage s;
     timers := timers s;
     next_timer := next_timer s;
     clock := clock s;
     awaits := awaits s;
     encrypt_calls := encrypt_calls s;
     uuid_calls := uuid_calls s;
     upserts := upserts s;
     commits := commits s |}.
Definition set_localStorage (v : gmap string jsstring) (s : state) : state :=
  {| s_prompts := s_prompts s;
     s_syncStatus := s_syncStatus s;
     s_syncMessage := s_syncMessage s;
     s_dataLoaded := s_dataLoaded s;
     tokenRef := tokenRef s;
     saveTimeoutRef := saveTimeoutRef s;
     localStorage := v;
     timers := timers s;
     next_timer := next_timer s;
     clock := clock s;
     awaits := awaits s;
     encrypt_calls := encrypt_calls s;
     uuid_calls := uuid_calls s;
     upserts := upserts s;
     commits := commits s |}.
Definition set_timers (v : list (nat * (Z * list value))) (s : state) : state :=
  {| s_prompts := s_prompts s;
     s_syncStatus := s_syncStatus s;
     s_syncMessage := s_syncMessage s;
     s_dataLoaded := s_dataLoaded s;
     tokenRef := tokenRef s;
     saveTimeoutRef := saveTimeoutRef s;
     localStorage := localStorage s;
     timers := v;
     next_timer := next_timer s;
     clock := clock s;
     awaits := awaits s;
     encrypt_calls := encrypt_calls s;
     uuid_calls := uuid_calls s;
     upserts := upserts s;
     commits := commits s |}.
Definition set_next_timer (v : nat) (s : state) : state :=
  {| s_prompts := s_prompts s;
     s_syncStatus := s_syncStatus s;
     s_syncMessage := s_syncMessage s;
     s_dataLoaded := s_dataLoaded s;
     tokenRef := tokenRef s;
     saveTimeoutRef := saveTimeoutRef s;
     localStorage := localStorage s;
     timers := timers s;
     next_timer := v;
     clock := clock s;
     awaits := awaits s;
     encrypt_calls := encrypt_calls s;
     uuid_calls := uuid_calls s;
     upserts := upserts s;
     commits := commits s |}.
Definition set_clock (v : Z) (s : state) : state :=
  {| s_prompts := s_prompts s;
     s_syncStatus := s_syncStatus s;
     s_syncMessage := s_syncMessage s;
     s_dataLoaded := s_dataLoaded s;
     tokenRef := tokenRef s;
     saveTimeoutRef := saveTimeoutRef s;
     localStorage := localStorage s;
     timers := timers s;
     next_timer := next_timer s;
     clock := v;
     awaits := awaits s;
     encrypt_calls := encrypt_calls s;
     uuid_calls := uuid_calls s;
     upserts := upserts s;
     commits := commits s |}.
Definition set_awaits (v : nat) (s : state) : state :=
  {| s_prompts := s_prompts s;
     s_syncStatus := s_syncStatus s;
     s_syncMessage := s_syncMessage s;
     s_dataLoaded := s_dataLoaded s;
     tokenRef := tokenRef s;
     saveTimeoutRef := saveTimeoutRef s;
     localStorage := localStorage s;
     timers := timers s;
     next_timer := next_timer s;
     clock := clock s;
     awaits := v;
     encrypt_calls := encrypt_calls s;
     uuid_calls := uuid_calls s;
     upserts := upserts s;
     commits := commits s |}.
Definition set_encrypt_calls (v : nat) (s : state) : state :=
  {| s_prompts := s_prompts s;
     s_syncStatus := s_syncStatus s;
     s_syncMessage := s_syncMessage s;
     s_dataLoaded := s_dataLoaded s;
     tokenRef := tokenRef s;
     saveTimeoutRef := saveTimeoutRef s;
     localStorage := localStorage s;
     timers := timers s;
     next_timer := next_timer s;
     clock := clock s;
     awaits := awaits s;
     encrypt_calls := v;
     uuid_calls := uuid_calls s;
     upserts := upserts s;
     commits := commits s |}.
Definition set_uuid_calls (v : nat) (s : state) : state :=
  {| s_prompts := s_prompts s;
     s_syncStatus := s_syncStatus s;
     s_syncMessage := s_syncMessage s;
     s_dataLoaded := s_dataLoaded s;
     tokenRef := tokenRef s;
     saveTimeoutRef := saveTimeoutRef s;
     localStorage := localStorage s;
     timers := timers s;
     next_timer := next_timer s;
     clock := clock s;
     awaits := awaits s;
     encrypt_calls := encrypt_calls s;
     uuid_calls := v;
     upserts := upserts s;
     commits := commits s |}.
Definition set_upserts (v : list (jsstring * option jsstring * VaultData)) (s : state) : state :=
  {| s_prompts := s_prompts s;
     s_syncStatus := s_syncStatus s;
     s_syncMessage := s_syncMessage s;
     s_dataLoaded := s_dataLoaded s;
     tokenRef := tokenRef s;
     saveTimeoutRef := saveTimeoutRef s;
     localStorage := localStorage s;
     timers := timers s;
     next_timer := next_timer s;
     clock := clock s;
     awaits := awaits s;
     encrypt_calls := encrypt_calls s;
     uuid_calls := uuid_calls s;
     upserts := v;
     commits := commits s |}.
Definition set_commits (v : list (nat * string)) (s : state) : state :=
  {| s_prompts := s_prompts s;
     s_syncStatus := s_syncStatus s;
     s_syncMessage := s_syncMessage s;
     s_dataLoaded := s_dataLoaded s;
     tokenRef := tokenRef s;
     saveTimeoutRef := saveTimeoutRef s;
     localStorage := localStorage s;
     timers := timers s;
     next_timer := next_timer s;
     clock := clock s;
     awaits := awaits s;
     encrypt_calls := encrypt_calls s;
     uuid_calls := uuid_calls s;
     upserts := upserts s;
     commits := v |}.

Definition initial_state (ls : gmap string jsstring) (now : Z) : state :=
  {| s_prompts := []; s_syncStatus := idle; s_syncMessage := [];
     s_dataLoaded := false; tokenRef := None; saveTimeoutRef := None;
     localStorage := ls; timers := []; next_timer := 1; clock := now;
     awaits := 0; encrypt_calls := 0; uuid_calls := 0; upserts := [];
     commits := [] |}.

(** An async function body: it threads the state and may throw. *)
Definition M (A : Type) : Type := state -> state * outcome A.

Definition ret {A} (a : A) : M A := fun s => (s, Ret a).

Definition bindM {A B} (m : M A) (k : A -> M B) : M B :=
  fun s =>
    match m s with
    | (s', Ret a) => k a s'
    | (s', Throw e) => (s', Throw e)
    end.

Definition try_M {A} (m : M A) (h : exn -> M A) : M A :=
  fun s =>
    match m s with
    | (s', Ret a) => (s', Ret a)
    | (s', Throw e) => h e s'
    end.

Definition gets {A} (f : state -> A) : M A := fun s => (s, Ret (f s)).
Definition modify (f : state -> state) : M unit := fun s => (f s, Ret tt).

(** [await p]: the promise settles with the given outcome. *)
Definition await {A} (p : outcome A) : M A :=
  fun s => (set_awaits (S (awaits s)) s, p).

Definition exec {A} (m : M A) (s : state) : state := fst (m s).

Declare Scope app_scope.
Delimit Scope app_scope with app.
Notation "x <- m ;; k" := (bindM m (fun x => k))
  (at level 100, m at next level, k at level 200, right associativity) : app_scope.
Notation "m ;; k" := (bindM m (fun _ => k))
  (at level 100, k at level 200, right associativity) : app_scope.
Open Scope app_scope.

Definition when (b : bool) (m : M unit) : M unit := if b then m else ret tt.

Definition lift {A} (p : outcome A) : M A := fun s => (s, p).

(** [if (x) { k x } else { els }] for [x : string | null]. *)
Definition if_truthy {A} (x : option jsstring) (k : jsstring -> M A) (els : M A) : M A :=
  match x with
  | Some v => if truthy_str v then k v else els
  | None => els
  end.

Definition localStorage_getItem (k : string) : M (option jsstring) :=
  gets (fun s => localStorage s !! k).

(** A write is logged with the awaits completed so far. *)
Definition commit (what : string) (s : state) : state :=
  set_commits (commits s ++ [(awaits s, what)]) s.

(** [localStorage.setItem(k, v)] stores the value, or throws and stores
    nothing when the browser refuses the write. *)
Definition localStorage_setItem (env : Env) (k : string) (v : jsstring) : M unit :=
  fun s =>
    if setItem_accepts env (localStorage s) k v
    then (commit k (set_localStorage (<[k := v]> (localStorage s)) s), Ret tt)
    else (s, Throw QuotaExceededError).

Definition setPrompts (v : list value) : M unit :=
  modify (fun s => commit "prompts" (set_s_prompts v s)).
Definition setSyncStatus (v : SyncStatus) : M unit :=
  modify (fun s => commit "syncStatus" (set_s_syncStatus v s)).
Definition setSyncMessage (v : jsstring) : M unit :=
  modify (fun s => commit "syncMessage" (set_s_syncMessage v s)).
Definition setDataLoaded (v : bool) : M unit :=
  modify (fun s => commit "dataLoaded" (set_s_dataLoaded v s)).
Definition set_tokenRef_current (v : option jsstring) : M unit :=
  modify (fun s => commit "tokenRef" (set_tokenRef v s)).

Definition Date_now : M Z := gets clock.

(** [setTimeout(() => saveToCloud(arg), delay)] and [clearTimeout(h)] *)
Definition setTimeout (arg : list value) (delay : Z) : M nat :=
  fun s =>
    let h := next_timer s in
    (set_next_timer (S h) (set_timers (timers s ++ [(h, (clock s + delay, arg)%Z)]) s),
     Ret h).
Definition drop_timer (h : nat) (ts : list (nat * (Z * list value))) :=
  List.filter (fun t => negb (fst t =? h)%nat) ts.
Definition clearTimeout (h : nat) : M unit :=
  modify (fun s => set_timers (drop_timer h (timers s)) s).

Section WithEnv.
Context `{WebCrypto} `{JSONApi}.
Variable env : Env.
Variable pin : jsstring.

Definition genId : M jsstring :=
  fun s => (set_uuid_calls (S (uuid_calls s)) s, Ret (randomUUID env (uuid_calls s))).

Definition DAY : Z := 86400000.

(** The document [getDefaultData] builds from the ids and clock readings it
    takes. *)
Definition default_data (id1 : jsstring) (now1 : Z) (id2 : jsstring) (now2 : Z)
    (id3 : jsstring) (now3 : Z) : VaultData :=
  mk_VaultData
    [ Prompt_to_value (Prompt.mk id1
        (utf8 "Универсальный системный промпт")
        (utf8 "Ты — эксперт в области {{область}}. Отвечай структурированно, используя маркированные списки и подзаголовки. Давай практичные, действенные советы. Избегай воды и общих фраз. Если нужно — приводи примеры.")
        (utf8 "Системные") [utf8 "система"; utf8 "базовый"] true
        (now1 - DAY * 5) (now1 - DAY * 5) 23);
      Prompt_to_value (Prompt.mk id2
        (utf8 "Рефакторинг кода")
        (utf8 "Проанализируй этот код и предложи улучшения:" ++ [0x0A] ++ [0x0A] ++ utf8 "```{{язык}}" ++ [0x0A] ++ utf8 "{{код}}" ++ [0x0A] ++ utf8 "```" ++ [0x0A] ++ [0x0A] ++ utf8 "Улучши:" ++ [0x0A] ++ utf8 "1. Читаемость" ++ [0x0A] ++ utf8 "2. Производительность" ++ [0x0A] ++ utf8 "3. Обработку ошибок" ++ [0x0A] ++ utf8 "4. Следование best practices" ++ [0x0A] ++ [0x0A] ++ utf8 "Объясни каждое изменение.")
        (utf8 "Код") [utf8 "рефакторинг"; utf8 "код"; utf8 "review"] true
        (now2 - DAY * 3) (now2 - DAY * 2) 15);
      Prompt_to_value (Prompt.mk id3
        (utf8 "Написание статьи")
        (utf8 "Напиши статью на тему " ++ [0x22] ++ utf8 "{{тема}}" ++ [0x22] ++ utf8 " для {{аудитория}}." ++ [0x0A] ++ [0x0A] ++ utf8 "Требования:" ++ [0x0A] ++ utf8 "- Длина: {{длина}} слов" ++ [0x0A] ++ utf8 "- Тон: {{тон}}" ++ [0x0A] ++ utf8 "- Включи введение, основную часть и заключение" ++ [0x0A] ++ utf8 "- Добавь 3-5 подзаголовков" ++ [0x0A] ++ utf8 "- Используй примеры и аналогии")
        (utf8 "Контент") [utf8 "статья"; utf8 "копирайтинг"] false
        (now3 - DAY * 2) (now3 - DAY) 8) ]
    1 0.

Definition getDefaultData : M VaultData :=
  id1 <- genId ;; now1 <- Date_now ;;
  id2 <- genId ;; now2 <- Date_now ;;
  id3 <- genId ;; now3 <- Date_now ;;
  ret (default_data id1 now1 id2 now2 id3 now3).

(** The defaults a state would get: three fresh ids, one clock. *)
Definition defaults_at (s : state) : VaultData :=
  default_data (randomUUID env (uuid_calls s)) (clock s)
               (randomUUID env (S (uuid_calls s))) (clock s)
               (randomUUID env (S (S (uuid_calls s)))) (clock s).

(** [await encrypt(plaintext, pin)]: the call takes the next draws of the
    random source. *)
Definition encrypt_call (plaintext : jsstring) : M jsstring :=
  fun s =>
    await (encrypt (getRandomValues env (encrypt_calls s)) plaintext pin)
          (set_encrypt_calls (S (encrypt_calls s)) s).

(** [await saveToGist(token, gistId, data)], the call recorded. *)
Definition saveToGist_call (token : jsstring) (gistId : option jsstring)
    (data : VaultData) : M (option jsstring) :=
  fun s =>
    await (saveToGist env token gistId data)
          (set_upserts (upserts s ++ [(token, gistId, data)]) s).

(** [JSON.stringify(data)] for a [VaultData]. *)
Definition stringify (data : VaultData) : jsstring :=
  JSON_stringify (VaultData_to_value data) 0.

(** The flag [cancelled] of the effect, set by its cleanup when the
    component unmounts. [teardown = Some k] says that the cleanup ran while
    the running function was suspended in its await number [k] (counted
    from 0), so the flag reads true once more than [k] awaits have
    completed. *)
Definition cancelled (teardown : option nat) : M bool :=
  gets (fun s =>
          match teardown with
          | Some k => bool_decide (k < awaits s)%nat
          | None => false
          end).

(** The steps shared by the two places that adopt a fetched dataset. *)
Definition adopt_remote (gistData : VaultData) (message : option jsstring) : M unit :=
  setPrompts (prompts gistData) ;;
  encrypted <- encrypt_call (stringify gistData) ;;
  localStorage_setItem env LS_ENCRYPTED_CACHE encrypted ;;
  setSyncStatus synced ;;
  match message with Some m => setSyncMessage m | None => ret tt end ;;
  setDataLoaded true.

(** The function [init] of the mount effect, block by block as the source
    comments divide it. [dataLoaded] is the constant of the render whose
    closure the effect holds, not the state cell. A block that can end
    [init] with [return] answers whether it did. *)

(** Decrypt token *)
Definition init_token : M unit :=
  encToken <- localStorage_getItem LS_ENCRYPTED_TOKEN ;;
  if_truthy encToken
    (fun encToken =>
       tok <- await (decrypt encToken pin) ;;
       set_tokenRef_current (Some tok))
    (ret tt).

(** Try to load from encrypted cache first *)
Definition init_cache (teardown : option nat) : M unit :=
  encCache <- localStorage_getItem LS_ENCRYPTED_CACHE ;;
  if_truthy encCache
    (fun encCache =>
       try_M
         (cacheJson <- await (decrypt encCache pin) ;;
          cacheData <- lift (parse_VaultData env cacheJson) ;;
          c <- cancelled teardown ;;
          when (negb c)
            (setPrompts (prompts cacheData) ;; setDataLoaded true))
         (fun _ => ret tt))
    (ret tt).

(** [if (gistId) { ... }]: the handle is known. [known_gist_fetched] is what
    runs once the promise of [loadFromGist] has settled. *)
Definition known_gist_fetched (teardown : option nat)
    (gistData : option VaultData) : M bool :=
  c <- cancelled teardown ;;
  match gistData with
  | Some gistData =>
      if negb c then
        adopt_remote gistData (Some (utf8 "Синхронизировано")) ;;
        ret true
      else ret false
  | None => ret false
  end.

Definition sync_known_gist (teardown : option nat) (token : jsstring)
    (gistId : option jsstring) : M bool :=
  if_truthy gistId
    (fun gistId =>
       gistData <- await (loadFromGist env token gistId) ;;
       known_gist_fetched teardown gistData)
    (ret false).

(** No gist found or no data: try to find one ([if (!gistId) { ... }]). *)
Definition sync_find_gist (teardown : option nat) (token : jsstring)
    (gistId : option jsstring) : M bool :=
  if_truthy gistId
    (fun _ => ret false)
    (foundId <- await (findVaultGist env token) ;;
     c <- cancelled teardown ;;
     if negb c then
       if_truthy foundId
         (fun foundId =>
            localStorage_setItem env LS_GIST_ID foundId ;;
            gistData <- await (loadFromGist env token foundId) ;;
            match gistData with
            | Some gistData => adopt_remote gistData None ;; ret true
            | None => ret false
            end)
         (ret false)
     else ret false).

(** No gist at all: use defaults and create gist *)
Definition sync_create_gist (dataLoaded : bool) (teardown : option nat)
    (token : jsstring) : M unit :=
  c <- cancelled teardown ;;
  when (negb c && negb dataLoaded)
    (defaults <- getDefaultData ;;
     setPrompts (prompts defaults) ;;
     setDataLoaded true ;;
     newGistId <- saveToGist_call token None defaults ;;
     if_truthy newGistId
       (fun newGistId =>
          localStorage_setItem env LS_GIST_ID newGistId ;;
          encrypted <- encrypt_call (stringify defaults) ;;
          localStorage_setItem env LS_ENCRYPTED_CACHE encrypted)
       (ret tt) ;;
     setSyncStatus synced).

(** No token: just use defaults *)
Definition init_offline (dataLoaded : bool) (teardown : option nat) : M unit :=
  c <- cancelled teardown ;;
  when (negb c && negb dataLoaded)
    (defaults <- getDefaultData ;;
     setPrompts (prompts defaults) ;;
     setDataLoaded true) ;;
  setSyncStatus offline.

(** The [catch] block *)
Definition init_catch (dataLoaded : bool) (teardown : option nat) : M unit :=
  c <- cancelled teardown ;;
  when (negb c)
    (setSyncStatus error ;;
     setSyncMessage (utf8 "Ошибка загрузки") ;;
     when (negb dataLoaded)
       (defaults <- getDefaultData ;;
        setPrompts (prompts defaults) ;;
        setDataLoaded true)).

(** Then sync from Gist. [sync_rest] is what follows the block of the
    known handle, which answered whether it returned. *)
Definition sync_rest (dataLoaded : bool) (teardown : option nat)
    (token : jsstring) (gistId : option jsstring) (returned : bool) : M unit :=
  if returned then ret tt else
  returned <- sync_find_gist teardown token gistId ;;
  if returned : bool then ret tt else
  sync_create_gist dataLoaded teardown token.

Definition init_sync (dataLoaded : bool) (teardown : option nat)
    (token : jsstring) : M unit :=
  c <- cancelled teardown ;;
  when (negb c) (setSyncStatus syncing) ;;
  gistId <- localStorage_getItem LS_GIST_ID ;;
  returned <- sync_known_gist teardown token gistId ;;
  sync_rest dataLoaded teardown token gistId returned.

Definition init (dataLoaded : bool) (teardown : option nat) : M unit :=
  try_M
    (init_token ;;
     init_cache teardown ;;
     current <- gets tokenRef ;;
     if_truthy current
       (fun token => init_sync dataLoaded teardown token)
       (init_offline dataLoaded teardown))
    (fun _ => init_catch dataLoaded teardown).

(** The component mounts with [useState(false)] for [dataLoaded]; the effect
    has [pin] as its only dependency, so the closure that runs is the one of
    the first render. *)
Definition mount (teardown : option nat) : M unit := init false teardown.

Definition saveToCloud (promptsToSave : list value) : M unit :=
  current <- gets tokenRef ;;
  if_truthy current
    (fun token =>
       setSyncStatus syncing ;;
       try_M
         (now <- Date_now ;;
          let data := mk_VaultData promptsToSave 1 now in
          gistId <- localStorage_getItem LS_GIST_ID ;;
          resultId <- saveToGist_call token gistId data ;;
          if_truthy resultId
            (fun resultId =>
               localStorage_setItem env LS_GIST_ID resultId ;;
               encrypted <- encrypt_call (stringify data) ;;
               localStorage_setItem env LS_ENCRYPTED_CACHE encrypted ;;
               setSyncStatus synced ;;
               setSyncMessage (utf8 "Сохранено в облако"))
            (setSyncStatus error ;;
             setSyncMessage (utf8 "Ошибка сохранения")))
         (fun _ =>
            setSyncStatus error ;;
            setSyncMessage (utf8 "Ошибка сохранения")))
    (ret tt).

(** A timeout handle is a positive integer, so a stored handle is truthy. *)
Definition debouncedSave (newPrompts : list value) : M unit :=
  current <- gets saveTimeoutRef ;;
  match current with
  | Some h => when (negb (h =? 0)%nat) (clearTimeout h)
  | None => ret tt
  end ;;
  h <- setTimeout newPrompts SAVE_DELAY ;;
  modify (set_saveTimeoutRef (Some h)).

(** [setPrompts(prev => { next = fn(prev); debouncedSave(next); return next })].
    The updater may throw; nothing around it catches. *)
Definition modifyPrompts (fn : list value -> outcome (list value)) : M unit :=
  prev <- gets s_prompts ;;
  next <- lift (fn prev) ;;
  debouncedSave next ;;
  setPrompts next.

Definition forceSync : M unit :=
  current <- gets tokenRef ;;
  if_truthy current
    (fun token =>
       setSyncStatus syncing ;;
       try_M
         (gistId <- localStorage_getItem LS_GIST_ID ;;
          returned <-
            if_truthy gistId
              (fun gistId =>
                 data <- await (loadFromGist env token gistId) ;;
                 match data with
                 | Some data =>
                     setPrompts (prompts data) ;;
                     encrypted <- encrypt_call (stringify data) ;;
                     localStorage_setItem env LS_ENCRYPTED_CACHE encrypted ;;
                     setSyncStatus synced ;;
                     setSyncMessage (utf8 "Обновлено из облака") ;;
                     ret true
                 | None => ret false
                 end)
              (ret false) ;;
          if returned : bool then ret tt else
          setSyncStatus error ;;
          setSyncMessage (utf8 "Не удалось загрузить"))
         (fun _ =>
            setSyncStatus error ;;
            setSyncMessage (utf8 "Ошибка синхронизации")))
    (ret tt).

(** *** [init] suspended at its fetch *)

(** While [init] waits for [loadFromGist] the component is live: the cache
    is on display and the user can edit. [init_to_fetch] is [init] up to
    that await, [init_from_fetch] is [init] from the moment the promise
    settles with [gistData], for the credential and the handle [init] read
    before. *)
Definition init_to_fetch (teardown : option nat) : M unit :=
  init_token ;;
  init_cache teardown ;;
  c <- cancelled teardown ;;
  when (negb c) (setSyncStatus syncing).

Definition init_from_fetch (dataLoaded : bool) (teardown : option nat)
    (token : jsstring) (gistId : option jsstring)
    (gistData : outcome (option VaultData)) : M unit :=
  try_M
    (gistData <- await gistData ;;
     returned <- known_gist_fetched teardown gistData ;;
     sync_rest dataLoaded teardown token gistId returned)
    (fun _ => init_catch dataLoaded teardown).

(** *** The event loop around the component *)

(** A pending timeout fires: it leaves the table and its callback runs. *)
Definition fire (t : nat * (Z * list value)) : M unit :=
  modify (fun s => set_clock (Z.max (clock s) (fst (snd t)))
                     (set_timers (drop_timer (fst t) (timers s)) s)) ;;
  saveToCloud (snd (snd t)).

Definition is_pending (h : nat) (s : state) : bool :=
  existsb (fun t => (fst t =? h)%nat) (timers s).

(** Time passes until [t]: the timeouts due by then fire, oldest first. *)
Definition advance (t : Z) (s : state) : state :=
  let s' :=
    fold_left
      (fun s tm =>
         if (fst (snd tm) <=? t)%Z && is_pending (fst tm) s
         then exec (fire tm) s else s)
      (timers s) s in
  set_clock (Z.max (clock s') t) s'.

(** A mutation issued at a given time. *)
Definition mutation : Type := Z * (list value -> list value).

Definition mutate (s : state) (m : mutation) : state :=
  exec (modifyPrompts (fun prev => Ret (snd m prev))) (advance (fst m) s).

Definition run_mutations (ms : list mutation) (s : state) : state :=
  fold_left mutate ms s.

(** No more events: every pending timeout fires. *)
Definition settle (s : state) : state :=
  fold_left
    (fun s tm => if is_pending (fst tm) s then exec (fire tm) s else s)
    (timers s) s.

(** *** [importData] *)

(** [Set.prototype.has] compares with SameValueZero; two objects built by
    different calls of [JSON.parse] are never the same object. *)
Definition same_value_zero (a b : value) : bool :=
  match a, b with
  | VUndefined, VUndefined => true
  | VNull, VNull => true
  | VBool x, VBool y => Bool.eqb x y
  | VNum x, VNum y => (x =? y)%Z
  | VStr x, VStr y => jsstring_eqb x y
  | _, _ => false
  end.

Fixpoint map_outcome {A B} (f : A -> outcome B) (xs : list A) : outcome (list B) :=
  match xs with
  | [] => Ret []
  | x :: rest =>
      y ← f x;
      ys ← map_outcome f rest;
      mret (y :: ys)
  end.

Fixpoint filter_outcome {A} (f : A -> outcome bool) (xs : list A) : outcome (list A) :=
  match xs with
  | [] => Ret []
  | x :: rest =>
      keep ← f x;
      ys ← filter_outcome f rest;
      mret (if keep : bool then x :: ys else ys)
  end.

(** The updater [importData] passes to [modifyPrompts]. *)
Definition import_updater (data prev : list value) : outcome (list value) :=
  existingIds ← map_outcome (fun p => get_prop p (js "id")) prev;
  newPrompts ← filter_outcome
                  (fun p => i ← get_prop p (js "id");
                            mret (negb (existsb (same_value_zero i) existingIds)))
                  data;
  mret (prev ++ newPrompts).

(** The [onload] handler of the file reader, for the text of the file. The
    [try] block ends before the updater runs: React invokes it from its
    update queue. *)
Definition importData_onload (text : jsstring) : M unit :=
  match JSON_parse (VStr text) with
  | Ret (VArr data) => modifyPrompts (import_updater data)
  | Ret _ => ret tt
  | Throw _ => ret tt
  end.

(** *** The states of a session *)

(** The component is created over the storage of the browser; then the
    mount effect runs, in one piece or up to its fetch and, other events
    later, from the settled fetch on; mutations and imports arrive, the
    user forces a sync, and timeouts fire. *)
Inductive reachable (ls : gmap string jsstring) (now : Z) : state -> Prop :=
  | reach_initial :
      reachable ls now (initial_state ls now)
  | reach_mount teardown s :
      reachable ls now s -> reachable ls now (exec (mount teardown) s)
  | reach_suspended teardown s :
      reachable ls now s -> reachable ls now (exec (init_to_fetch teardown) s)
  | reach_resumed dataLoaded teardown token gistId gistData s :
      reachable ls now s ->
      reachable ls now
        (exec (init_from_fetch dataLoaded teardown token gistId gistData) s)
  | reach_mutate m s :
      reachable ls now s -> reachable ls now (mutate s m)
  | reach_import text s :
      reachable ls now s -> reachable ls now (exec (importData_onload text) s)
  | reach_forceSync s :
      reachable ls now s -> reachable ls now (exec forceSync s)
  | reach_settle s :
      reachable ls now s -> reachable ls now (settle s).

End WithEnv.

(** *** Notions used to state the properties *)

(** The failure answers of [saveToGist]: [null], the empty handle (falsy as
    well), or a rejection. *)
Definition upsert_failed (r : outcome (option jsstring)) : bool :=
  match r with
  | Ret o => negb (truthy_opt o)
  | Throw _ => true
  end.

(** The document [saveToCloud] sends from a state. *)
Definition outgoing (promptsToSave : list value) (s : state) : VaultData :=
  mk_VaultData promptsToSave 1 (clock s).

(** The storage accepts the writes, made in this order. *)
Fixpoint accepts_writes (env : Env) (ls : gmap string jsstring)
    (writes : list (string * jsstring)) : bool :=
  match writes with
  | [] => true
  | (k, v) :: rest =>
      setItem_accepts env ls k v && accepts_writes env (<[k := v]> ls) rest
  end.

(** The writes made under [if (x) { ... }]. *)
Definition writes_if (x : option jsstring)
    (writes : jsstring -> list (string * jsstring)) : list (string * jsstring) :=
  match x with
  | Some v => if truthy_str v then writes v else []
  | None => []
  end.





(** Each mutation after the first is issued before the timeout the one
    before it set has elapsed. *)
Fixpoint within_window (ms : list mutation) : bool :=
  match ms with
  | m1 :: rest =>
      match rest with
      | m2 :: _ => (fst m2 <? fst m1 + SAVE_DELAY)%Z && within_window rest
      | [] => true
      end
  | [] => true
  end.

(** The dataset after the mutations, applied in order. *)
Definition apply_all (ms : list mutation) (p : list value) : list value :=
  fold_left (fun p m => snd m p) ms p.

(** At most one timeout is pending, and the ref holds its handle. *)
Definition one_pending (s : state) : Prop :=
  (1 <= next_timer s)%nat
  /\ (timers s = []
      \/ exists h due arg,
           timers s = [(h, (due, arg))] /\ saveTimeoutRef s = Some h
           /\ h <> 0%nat).

(** What a computation must leave alone to keep the timeouts as they are. *)
Definition timer_view (s : state) : list (nat * (Z * list value)) * nat * option nat :=
  (timers s, next_timer s, saveTimeoutRef s).

Definition keeps_timers {A} (m : M A) : Prop :=
  forall s, timer_view (fst (m s)) = timer_view s.

(** No pending timeout is due by time [t]. *)
Definition not_due (t : Z) (s : state) : Prop :=
  forall h due arg, In (h, (due, arg)) (timers s) -> (t < due)%Z.

(** [null] and [undefined]: the values whose properties cannot be read. *)
Definition nullish (v : value) : bool :=
  match v with
  | VUndefined | VNull => true
  | _ => false
  end.

(** [p.id] for an entry that is not nullish. *)
Definition id_of (p : value) : value :=
  match get_prop p (js "id") with
  | Ret v => v
  | Throw _ => VUndefined
  end.

(** The entry's id is not among the ids of the current prompts. *)
Definition fresh_id (prev : list value) (p : value) : bool :=
  negb (existsb (same_value_zero (id_of p)) (map id_of prev)).

End App.

(** ** A concrete platform for running the component *)

Module Scenario.
Import App.

(** A printer standing in for [JSON.stringify] (no escapes, no
    indentation) and a table standing in for [JSON.parse]. *)
Fixpoint print (v : value) : jsstring :=
  match v with
  | VUndefined => js "undefined"
  | VNull => js "null"
  | VBool b => if b then js "true" else js "false"
  | VNum n => js (pretty n)
  | VStr str => [0x22] ++ str ++ [0x22]
  | VArr items =>
      js "[" ++ concat (map (fun x => print x ++ js ",") items) ++ js "]"
  | VObj fields =>
      js "{" ++ concat (map (fun kv => [0x22] ++ fst kv ++ [0x22] ++ js ":"
                                       ++ print (snd kv) ++ js ",") fields)
      ++ js "}"
  end.

Definition lookup_text {A} (text : jsstring) (table : list (jsstring * A)) : outcome A :=
  match List.find (fun kv => jsstring_eqb text (fst kv)) table with
  | Some kv => Ret (snd kv)
  | None => Throw SyntaxError
  end.

Definition record (n : Z) : value :=
  Prompt_to_value
    (Prompt.mk (js "id-" ++ js (pretty n)) (js "title") (js "content")
               (js "category") [js "tag"] false n n 0).

Definition remote5 : VaultData :=
  mk_VaultData [record 1; record 2; record 3; record 4; record 5] 1 1700000000000.
Definition cached4 : VaultData :=
  mk_VaultData [record 6; record 7; record 8; record 9] 1 1600000000000.

(** An export file holding a record already in [remote5] and a new one. *)
Definition backup : list value := [record 5; record 10].

Definition toy_json : JSONApi := {|
  JSON_parse := fun v =>
    match v with
    | VStr text =>
        lookup_text text
          [ (js "[1]", VArr [VNum 1]);
            (js "{}", VObj []);
            (js "[null]", VArr [VNull]);
            (print (VArr backup), VArr backup) ]
    | _ => Throw SyntaxError
    end;
  JSON_stringify := fun v _ => print v
|}.

Definition the_pin : jsstring := js "1234".
Definition the_token : jsstring := js "ghp_token".
Definition the_gist : jsstring := js "gist-1".

Definition draws (n : nat) : entropy :=
  mk_entropy (replicate 16 (byte_of_N (N.of_nat n))) (replicate 12 x02).

(** The remote account holds [remote] under the handle [the_gist]; an
    upsert answers with the handle (a new one for a creation) when the
    store accepts writes and with [null] when it does not. *)
Definition toy_env (remote : option VaultData) (writable : bool) : Env := {|
  loadFromGist := fun token gistId =>
    Ret (if jsstring_eqb gistId the_gist then remote else None);
  findVaultGist := fun token =>
    Ret (match remote with Some _ => Some the_gist | None => None end);
  saveToGist := fun token gistId data =>
    Ret (if writable
         then match gistId with Some g => Some g | None => Some (js "gist-2") end
         else None);
  parse_VaultData := fun text =>
    lookup_text text
      [ (print (VaultData_to_value cached4), cached4);
        (print (VaultData_to_value remote5), remote5) ];
  getRandomValues := draws;
  randomUUID := fun n => js "uuid-" ++ js (pretty n);
  setItem_accepts := fun _ _ _ => true
|}.

(** A platform whose storage refuses every write. *)
Definition storage_full (env : Env) : Env := {|
  loadFromGist := loadFromGist env;
  findVaultGist := findVaultGist env;
  saveToGist := saveToGist env;
  parse_VaultData := parse_VaultData env;
  getRandomValues := getRandomValues env;
  randomUUID := randomUUID env;
  setItem_accepts := fun _ _ _ => false
|}.

Definition envelope (n : nat) (plaintext : jsstring) : jsstring :=
  match encrypt (H := Toy.toy_crypto) (draws n) plaintext the_pin with
  | Ret e => e
  | Throw _ => []
  end.

(** Storage of a device that was set up, synced once and holds a cache. *)
Definition storage (cache : VaultData) : gmap string jsstring :=
  <[LS_ENCRYPTED_TOKEN := envelope 100 the_token]>
  (<[LS_ENCRYPTED_CACHE := envelope 101 (print (VaultData_to_value cache))]>
   (<[LS_GIST_ID := the_gist]> ∅)).


(** The same with no credential entry. *)
Definition offline_storage : gmap string jsstring :=
  delete LS_ENCRYPTED_TOKEN (storage cached4).

Definition boot_time : Z := 1800000000000.

Definition locked (ls : gmap string jsstring) : state :=
  initial_state ls boot_time.

Definition run_mount (env : Env) (ls : gmap string jsstring) (teardown : option nat) : state :=
  exec (mount (H := Toy.toy_crypto) (H0 := toy_json) env the_pin teardown)
       (locked ls).

(** A session unlocked against a reachable account, and one with no
    credential. *)
Definition unlocked : state :=
  run_mount (toy_env (Some remote5) true) (storage cached4) None.
Definition offline_session : state :=
  run_mount (toy_env None true) offline_storage None.

(** The fetch answers [null] although the handle is stored, and the same
    with a credential entry that does not decrypt. *)
Definition fetch_failed : state :=
  run_mount (toy_env None true) (storage cached4) None.

(** The state once the token and cache blocks of [init] have run. *)
Definition cache_shown : state :=
  exec (init_token (H := Toy.toy_crypto) the_pin;;
        init_cache (H := Toy.toy_crypto) (toy_env None true) the_pin None)
       (locked (storage cached4)).

(** The bootstrap suspended at its fetch, the cache on display. *)
Definition fetching : state :=
  exec (init_to_fetch (H := Toy.toy_crypto) (toy_env (Some remote5) true)
          the_pin None)
       (locked (storage cached4)).

(** The fetch settles with the remote dataset. *)
Definition fetch_settles (s : state) : state :=
  exec (init_from_fetch (H := Toy.toy_crypto) (H0 := toy_json)
          (toy_env (Some remote5) true) the_pin false None the_token
          (Some the_gist) (Ret (Some remote5))) s.

(** Two edits, 600 ms apart. *)
Definition edit1 : mutation := ((boot_time + 100)%Z, fun p => record 10 :: p).
Definition edit2 : mutation := ((boot_time + 700)%Z, fun p => record 11 :: p).

End Scenario.
(** ** Helpers of the component file ([extractVariables], [timeAgo]) *)

Module Text.

(** The code units [String.prototype.trim] removes: the WhiteSpace and
    LineTerminator productions of the language. *)
Definition is_js_whitespace (c : N) : bool :=
  ((0x09 <=? c) && (c <=? 0x0D)) || (c =? 0x20) || (c =? 0xA0) || (c =? 0x1680)
  || ((0x2000 <=? c) && (c <=? 0x200A)) || (c =? 0x2028) || (c =? 0x2029)
  || (c =? 0x202F) || (c =? 0x205F) || (c =? 0x3000) || (c =? 0xFEFF).

Fixpoint trimStart (s : jsstring) : jsstring :=
  match s with
  | c :: rest => if is_js_whitespace c then trimStart rest else s
  | [] => []
  end.

Definition trimEnd (s : jsstring) : jsstring := rev (trimStart (rev s)).

Definition trim (s : jsstring) : jsstring := trimEnd (trimStart s).

Definition open_brace : N := 123.
Definition close_brace : N := 125.

(** The longest prefix matched by [[^}]*], and what follows it. *)
Fixpoint span_body (s : jsstring) : jsstring * jsstring :=
  match s with
  | c :: rest =>
      if c =? close_brace then ([], s)
      else let (body, after) := span_body rest in (c :: body, after)
  | [] => ([], [])
  end.

(** A match of [/\{\{([^}]+)\}\}/] that starts at the head of [s]: the text
    captured by the group. The class excludes the closing brace, so the
    greedy run either is followed by two closing braces or no shorter run
    is. *)
Definition match_here (s : jsstring) : option jsstring :=
  match s with
  | c1 :: c2 :: rest =>
      if (c1 =? open_brace) && (c2 =? open_brace) then
        match span_body rest with
        | (b :: body, d1 :: d2 :: _) =>
            if (d1 =? close_brace) && (d2 =? close_brace) then Some (b :: body)
            else None
        | _ => None
        end
      else None
  | _ => None
  end.

(** [text.match(re)] with the global flag: the matches from left to right,
    the search going on after each. [skip] code units of the last match are
    still to pass. An empty list stands for the [null] of no match. *)
Fixpoint match_all (s : jsstring) (skip : nat) : list jsstring :=
  match s with
  | [] => []
  | _ :: rest =>
      match skip with
      | S k => match_all rest k
      | O =>
          match match_here s with
          | Some body =>
              ([open_brace; open_brace] ++ body ++ [close_brace; close_brace])
              :: match_all rest (length body + 3)
          | None => match_all rest 0
          end
      end
  end.

(** [m.slice(2, -2)] *)
Definition slice_2_m2 (m : jsstring) : jsstring :=
  take (length m - 2 - 2) (drop 2 m).

(** [[...new Set(xs)]]: the first occurrence of each string, in order. *)
Fixpoint set_of (seen xs : list jsstring) : list jsstring :=
  match xs with
  | [] => []
  | x :: rest =>
      if existsb (jsstring_eqb x) seen then set_of seen rest
      else x :: set_of (x :: seen) rest
  end.

Definition extractVariables (text : jsstring) : list jsstring :=
  let matches := match_all text 0 in
  match matches with
  | [] => []
  | _ => set_of [] (map (fun m => trim (slice_2_m2 m)) matches)
  end.

(** [`${n}`] for an integer below 10^21 in magnitude. *)
Definition Number_toString (n : Z) : jsstring := js (pretty n).

(** [Number.isSafeInteger(n)]: on these integers the arithmetic of doubles
    is exact. *)
Definition safe_integer (n : Z) : bool := (Z.abs n <=? 2 ^ 53 - 1)%Z.

(** [timeAgo(ts)] read at clock [now]. The source computes in doubles. When
    the clock, the timestamp and their difference are safe integers, the
    subtraction is exact and each division followed by [Math.floor] is the
    integer division rounding down: a quotient that is not whole lies at
    least 1/60000 below the next integer, more than half the gap between
    doubles of that size. Outside that range the embedding gives no
    answer. *)
Definition timeAgo (now ts : Z) : option jsstring :=
  if safe_integer now && safe_integer ts && safe_integer (now - ts) then
    let diff := (now - ts)%Z in
    let mins := (diff / 60000)%Z in
    if (mins <? 1)%Z then Some (utf8 "только что")
    else if (mins <? 60)%Z then Some (Number_toString mins ++ utf8 " мин назад")
    else
      let hrs := (mins / 60)%Z in
      if (hrs <? 24)%Z then Some (Number_toString hrs ++ utf8 " ч назад")
      else
        let days := (hrs / 24)%Z in
        if (days <? 30)%Z then Some (Number_toString days ++ utf8 " дн назад")
        else
          let months := (days / 30)%Z in
          Some (Number_toString months ++ utf8 " мес назад")
  else None.

(** *** Notions used to state the properties *)

Definition placeholder (body : jsstring) : jsstring :=
  [open_brace; open_brace] ++ body ++ [close_brace; close_brace].

(** [text] holds a placeholder: two opening braces, a non-empty run free of
    closing braces, two closing braces. *)
Definition has_placeholder (text : jsstring) : Prop :=
  exists pre body post,
    text = pre ++ placeholder body ++ post
    /\ body <> [] /\ ~ In close_brace body.

(** Neither end of [s] is white space. *)
Definition trimmed (s : jsstring) : Prop :=
  (forall c rest, s = c :: rest -> is_js_whitespace c = false)
  /\ (forall front c, s = front ++ [c] -> is_js_whitespace c = false).

End Text.


(** ** The actions of [MainApp] on the dataset *)

Module Actions.
Import App Text.

(** [v === s] for a string [s]. *)
Definition strict_eq_str (v : value) (s : jsstring) : bool :=
  match v with
  | VStr x => jsstring_eqb x s
  | _ => false
  end.

Definition index_key (i : nat) : jsstring := js (pretty (N.of_nat i)).

(** The own enumerable properties an object spread [{ ...v }] copies. *)
Definition own_props (v : value) : list (jsstring * value) :=
  match v with
  | VObj fields => fields
  | VArr items => imap (fun i x => (index_key i, x)) items
  | VStr s => imap (fun i c => (index_key i, VStr [c])) s
  | VUndefined | VNull | VBool _ | VNum _ => []
  end.

(** A property [k: v] written after a spread in an object literal, for a
    name that is not an array index (no field of a prompt is): a property
    already there keeps its place and takes the value, a new one comes
    last. *)
Fixpoint set_prop (fields : list (jsstring * value)) (k : jsstring) (v : value)
    : list (jsstring * value) :=
  match fields with
  | [] => [(k, v)]
  | (k', v') :: rest =>
      if jsstring_eqb k k' then (k, v) :: rest
      else (k', v') :: set_prop rest k v
  end.

(** [{ ...fields, ...updates }] *)
Definition spread_over (fields updates : list (jsstring * value))
    : list (jsstring * value) :=
  fold_left (fun fs kv => set_prop fs (fst kv) (snd kv)) updates fields.

(** [{ ...p, id: genId(), createdAt: now, updatedAt: now, usageCount: 0 }] *)
Definition new_record (p : value) (id : jsstring) (now : Z) : value :=
  VObj (set_prop (set_prop (set_prop (set_prop (own_props p)
          (js "id") (VStr id))
          (js "createdAt") (VNum now))
          (js "updatedAt") (VNum now))
          (js "usageCount") (VNum 0)).

(** [p => p.id === id ? { ...p, ...updates, updatedAt: Date.now() } : p] *)
Definition update_one (id : jsstring) (updates : list (jsstring * value))
    (now : Z) (p : value) : outcome value :=
  pid ← get_prop p (js "id");
  if strict_eq_str pid id
  then mret (VObj (set_prop (spread_over (own_props p) updates)
                            (js "updatedAt") (VNum now)))
  else mret p.

(** [p => p.id === id ? { ...p, isFavorite: !p.isFavorite } : p] *)
Definition toggle_one (id : jsstring) (p : value) : outcome value :=
  pid ← get_prop p (js "id");
  if strict_eq_str pid id
  then fav ← get_prop p (js "isFavorite");
       mret (VObj (set_prop (own_props p) (js "isFavorite")
                            (VBool (negb (truthy fav)))))
  else mret p.

(** [prev => prev.filter(p => p.id !== id)] *)
Definition delete_updater (id : jsstring) (prev : list value) : outcome (list value) :=
  filter_outcome (fun p => pid ← get_prop p (js "id");
                           mret (negb (strict_eq_str pid id))) prev.

Section WithEnv.
Context `{WebCrypto} `{JSONApi}.
Variable env : Env.
Variable pin : jsstring.

(** The updater calls [genId] when React runs it; the call only advances the
    source of ids, so it is made here before the updater reads [prev]. The
    updater is run once here; React runs it again when the render that
    follows throws, which the object the editor passes ([handleSave]), the
    only argument of the call in the source, does not cause on a dataset of
    full prompts. *)
Definition addPrompt (p : value) : M unit :=
  now <- Date_now ;;
  id <- genId env ;;
  modifyPrompts (fun prev => Ret (prev ++ [new_record p id now])).

Definition updatePrompt (id : jsstring) (updates : list (jsstring * value)) : M unit :=
  now <- Date_now ;;
  modifyPrompts (map_outcome (update_one id updates now)).

(** The cell [deleteConfirm], reset after the call, belongs to the view. *)
Definition deletePrompt (id : jsstring) : M unit :=
  modifyPrompts (delete_updater id).

Definition toggleFavorite (id : jsstring) : M unit :=
  modifyPrompts (map_outcome (toggle_one id)).

(** The text [exportData] puts in the downloaded file. *)
Definition exportData : M jsstring :=
  current <- gets s_prompts ;;
  ret (JSON_stringify (VArr current) 2).

End WithEnv.

(** *** [PromptEditorModal] *)

Definition comma : N := 44.

(** [s.split(',')] *)
Fixpoint split_comma (s : jsstring) : list jsstring :=
  match s with
  | [] => [[]]
  | c :: rest =>
      if c =? comma then [] :: split_comma rest
      else match split_comma rest with
           | piece :: pieces => (c :: piece) :: pieces
           | [] => [[c]]
           end
  end.

(** [tags.join(', ')] *)
Fixpoint join_comma_space (tags : list jsstring) : jsstring :=
  match tags with
  | [] => []
  | [t] => t
  | t :: rest => t ++ [comma; 32] ++ join_comma_space rest
  end.

(** The cells of the editor. *)
Record editor : Type := mk_editor {
  e_title : jsstring;
  e_content : jsstring;
  e_category : jsstring;
  e_newCategory : jsstring;
  e_showNewCategory : bool;
  e_tagsInput : jsstring;
  e_isFavorite : bool
}.

(** The cells as [useState] sets them for a prompt under edit. *)
Definition editor_of (p : Prompt.t) : editor :=
  mk_editor (Prompt.title p) (Prompt.content p) (Prompt.category p) []
            false (join_comma_space (Prompt.tags p)) (Prompt.isFavorite p).

Definition parse_tags (tagsInput : jsstring) : list jsstring :=
  List.filter truthy_str (map trim (split_comma tagsInput)).

(** [handleSave]: the object passed to [onSave], if the call is made. *)
Definition handleSave (e : editor) : option (list (jsstring * value)) :=
  if negb (truthy_str (trim (e_title e))) || negb (truthy_str (trim (e_content e)))
  then None
  else
    let finalCategory :=
      if e_showNewCategory e && truthy_str (trim (e_newCategory e))
      then trim (e_newCategory e)
      else if truthy_str (e_category e) then e_category e
           else utf8 "Без категории" in
    let tags := parse_tags (e_tagsInput e) in
    Some [ (js "title", VStr (trim (e_title e)));
           (js "content", VStr (trim (e_content e)));
           (js "category", VStr finalCategory);
           (js "tags", VArr (map VStr tags));
           (js "isFavorite", VBool (e_isFavorite e)) ].

(** *** Notions used to state the properties *)

(** The entry's [id] is the string [id]. *)
Definition has_id (id : jsstring) (p : value) : bool :=
  strict_eq_str (id_of p) id.

(** The entry [toggleFavorite(id)] puts in the place of [p]. *)
Definition toggled (id : jsstring) (p : value) : value :=
  if has_id id p
  then VObj (set_prop (own_props p) (js "isFavorite")
               (VBool (negb (truthy (default VUndefined
                                       (assoc (js "isFavorite") (own_props p)))))))
  else p.

(** The entry [updatePrompt(id, updates)] puts in the place of [p] at clock
    [now]. *)
Definition updated (id : jsstring) (updates : list (jsstring * value)) (now : Z)
    (p : value) : value :=
  if has_id id p
  then VObj (set_prop (spread_over (own_props p) updates) (js "updatedAt") (VNum now))
  else p.

(** The value [updates] gives to the property [k]: its last, if it names
    [k] more than once. *)
Definition last_update (updates : list (jsstring * value)) (k : jsstring) : option value :=
  assoc k (rev updates).

(** A tag as the editor can give it back: not empty, no comma, no white
    space at its ends. *)
Definition clean_tag (t : jsstring) : Prop :=
  t <> [] /\ ~ In comma t /\ trimmed t.

End Actions.


(** ** The screens around [MainApp] *)

Module Screens.
Import App Text.

Inductive AppScreen : Type := lock | setup | main.

(** The initial screen of [App]: [!!localStorage.getItem(LS_PIN_VERIFIER)]. *)
Definition initial_screen (ls : gmap string jsstring) : AppScreen :=
  if truthy_opt (ls !! LS_PIN_VERIFIER) then lock else setup.

Definition localStorage_removeItem (k : string) : M unit :=
  modify (fun s => commit k (set_localStorage (delete k (localStorage s)) s)).

(** [handleReset] of the lock screen and [handleFullReset] of the settings,
    for the answer given to [confirm]; the page reloads afterwards. *)
Definition handleReset (confirmed : bool) : M unit :=
  when confirmed
    (localStorage_removeItem LS_PIN_VERIFIER ;;
     localStorage_removeItem LS_ENCRYPTED_TOKEN ;;
     localStorage_removeItem LS_ENCRYPTED_CACHE ;;
     localStorage_removeItem LS_GIST_ID ;;
     localStorage_removeItem LS_USERNAME).

(** What [validateToken] resolves to, at the type the source declares. *)
Record validation : Type := mk_validation {
  valid : bool;
  username : option jsstring
}.

(** *** [LockScreen] *)

(** The cells of the lock screen, and the argument of [onUnlock] once it has
    been called. *)
Record lock_view : Type := mk_lock_view {
  lk_pin : jsstring;
  lk_error : jsstring;
  lk_loading : bool;
  lk_unlocked : option jsstring
}.

Section WithCrypto.
Context `{WebCrypto}.

(** [handleSubmit]; [pin] is the cell as the render that built the handler
    read it. *)
Definition handleSubmit (v : lock_view) : M lock_view :=
  let pin := lk_pin v in
  if (length pin <? 4)%nat then
    ret (mk_lock_view (lk_pin v) (utf8 "PIN минимум 4 символа") (lk_loading v)
                      (lk_unlocked v))
  else
    let v := mk_lock_view (lk_pin v) [] true (lk_unlocked v) in
    verifier <- localStorage_getItem LS_PIN_VERIFIER ;;
    if_truthy verifier
      (fun verifier =>
         ok <- await (verifyPin pin verifier) ;;
         if ok : bool
         then ret (mk_lock_view (lk_pin v) (lk_error v) false (Some pin))
         else ret (mk_lock_view [] (utf8 "Неверный PIN-код") false (lk_unlocked v)))
      (ret (mk_lock_view (lk_pin v)
              (utf8 "Данные повреждены. Сбросьте хранилище.") false (lk_unlocked v))).

End WithCrypto.

(** *** [SetupScreen] *)

Record setup_view : Type := mk_setup_view {
  su_step : nat;
  su_pin : jsstring;
  su_pinConfirm : jsstring;
  su_token : jsstring;
  su_error : jsstring;
  su_loading : bool;
  su_username : jsstring
}.

Definition set_su_error (e : jsstring) (v : setup_view) : setup_view :=
  mk_setup_view (su_step v) (su_pin v) (su_pinConfirm v) (su_token v) e
                (su_loading v) (su_username v).
Definition set_su_loading (b : bool) (v : setup_view) : setup_view :=
  mk_setup_view (su_step v) (su_pin v) (su_pinConfirm v) (su_token v) (su_error v)
                b (su_username v).
Definition set_su_step (n : nat) (v : setup_view) : setup_view :=
  mk_setup_view n (su_pin v) (su_pinConfirm v) (su_token v) (su_error v)
                (su_loading v) (su_username v).
Definition set_su_username (u : jsstring) (v : setup_view) : setup_view :=
  mk_setup_view (su_step v) (su_pin v) (su_pinConfirm v) (su_token v) (su_error v)
                (su_loading v) u.

Definition handlePinStep (v : setup_view) : setup_view :=
  if (length (su_pin v) <? 4)%nat then set_su_error (utf8 "PIN минимум 4 символа") v
  else if negb (jsstring_eqb (su_pin v) (su_pinConfirm v))
       then set_su_error (utf8 "PIN-коды не совпадают") v
       else set_su_step 2 (set_su_error [] v).

(** [validation.username || ''] *)
Definition username_or_empty (u : option jsstring) : jsstring := default [] u.

Section WithEnv.
Context `{WebCrypto} `{JSONApi}.
Variable env : Env.
Variable validateToken : jsstring -> outcome validation.

(** [handleTokenStep]. The pin under which it encrypts is the cell
    [su_pin]. *)
Definition handleTokenStep (v : setup_view) : M setup_view :=
  let token := trim (su_token v) in
  let pin := su_pin v in
  if negb (truthy_str token) then ret (set_su_error (utf8 "Введите GitHub Token") v)
  else
    let v := set_su_error [] (set_su_loading true v) in
    validation <- await (validateToken token) ;;
    if negb (valid validation) then
      ret (set_su_loading false
             (set_su_error
                (utf8 "Невалидный токен. Убедитесь что у него есть scope " ++ [0x22]
                 ++ utf8 "gist" ++ [0x22]) v))
    else
      let v := set_su_username (username_or_empty (username validation)) v in
      v <- try_M
             (verifier <- encrypt_call env pin VERIFY_PHRASE ;;
              localStorage_setItem env LS_PIN_VERIFIER verifier ;;
              encryptedToken <- encrypt_call env pin token ;;
              localStorage_setItem env LS_ENCRYPTED_TOKEN encryptedToken ;;
              if_truthy (username validation)
                (fun u => localStorage_setItem env LS_USERNAME u) (ret tt) ;;
              existingGistId <- await (findVaultGist env token) ;;
              if_truthy existingGistId
                (fun g => localStorage_setItem env LS_GIST_ID g) (ret tt) ;;
              ret (set_su_step 3 v))
             (fun _ => ret (set_su_error (utf8 "Ошибка при настройке шифрования") v)) ;;
      ret (set_su_loading false v).

(** *** [SettingsModal] *)

Inductive token_status : Type := ts_idle | ts_checking | ts_success | ts_error.

Record settings_view : Type := mk_settings_view {
  se_newToken : jsstring;
  se_tokenStatus : token_status;
  se_tokenMessage : jsstring;
  se_githubUser : jsstring
}.

(** [`${u}`] for [u : string | undefined] *)
Definition template_of (u : option jsstring) : jsstring :=
  match u with Some u => u | None => js "undefined" end.

Variable pin : jsstring.

Definition handleUpdateToken (v : settings_view) : M settings_view :=
  let token := trim (se_newToken v) in
  if negb (truthy_str token) then ret v
  else
    let v := mk_settings_view (se_newToken v) ts_checking (se_tokenMessage v)
               (se_githubUser v) in
    validation <- await (validateToken token) ;;
    if negb (valid validation) then
      ret (mk_settings_view (se_newToken v) ts_error (utf8 "Невалидный токен")
             (se_githubUser v))
    else
      try_M
        (encryptedToken <- encrypt_call env pin token ;;
         localStorage_setItem env LS_ENCRYPTED_TOKEN encryptedToken ;;
         user <- if_truthy (username validation)
                   (fun u => localStorage_setItem env LS_USERNAME u ;; ret u)
                   (ret (se_githubUser v)) ;;
         ret (mk_settings_view [] ts_success
                (utf8 "Подключён как @" ++ template_of (username validation)) user))
        (fun _ =>
           ret (mk_settings_view (se_newToken v) ts_error (utf8 "Ошибка шифрования")
                  (se_githubUser v))).

End WithEnv.

(** *** Notions used to state the properties *)

(** The lock screen lets [pin] in: it is long enough and [verifyPin] accepts
    it against the stored verifier. *)
Definition pin_accepted `{WebCrypto} (ls : gmap string jsstring) (pin : jsstring) : Prop :=
  (4 <= length pin)%nat
  /\ exists verifier,
       ls !! LS_PIN_VERIFIER = Some verifier
       /\ truthy_str verifier = true
       /\ verifyPin pin verifier = Ret true.

(** The keys the application stores under. *)
Definition app_keys : list string :=
  [LS_PIN_VERIFIER; LS_ENCRYPTED_TOKEN; LS_ENCRYPTED_CACHE; LS_GIST_ID; LS_USERNAME].

End Screens.


(** ** Notions used to state the properties of the remote store *)

Module Remote.
Import Gist.

(** The requests the functions of [gist.ts] send. *)
Definition user_request (token : jsstring) : request :=
  mk_request (API_BASE ++ js "/user") "GET" (headers token) None.

Definition page_request (token : jsstring) (page : N) : request :=
  mk_request (API_BASE ++ js "/gists?per_page=100&page=" ++ page_to_string page)
             "GET" (headers token) None.

Definition get_request (token gistId : jsstring) : request :=
  mk_request (API_BASE ++ js "/gists/" ++ gistId) "GET" (headers token) None.

Section WithJSON.
Context `{JSONApi}.

(** The [files] of the document [saveToGist] sends, and the document. *)
Definition uploaded_files (data : VaultData) : value :=
  VObj [ (GIST_FILENAME,
          VObj [ (js "content",
                  VStr (JSON_stringify (VaultData_to_value data) 2)) ]) ].

Definition gist_body (data : VaultData) : value :=
  VObj [ (js "description",
          VStr (utf8 "PromptVault — encrypted prompt storage (do not edit manually)"));
         (js "public", VBool false);
         (js "files", uploaded_files data) ].

Definition update_request (token gistId : jsstring) (data : VaultData) : request :=
  mk_request (API_BASE ++ js "/gists/" ++ gistId) "PATCH" (headers token)
             (Some (JSON_stringify (gist_body data) 0)).

Definition create_request (token : jsstring) (data : VaultData) : request :=
  mk_request (API_BASE ++ js "/gists") "POST" (headers token)
             (Some (JSON_stringify (gist_body data) 0)).

End WithJSON.

(** The transport answers [req] with an ok response whose body is [body]. *)
Definition answers (fetch : request -> outcome response) (req : request)
    (body : value) : Prop :=
  exists res, fetch req = Ret res /\ res_ok res = true /\ res_json res = Ret body.

(** An entry of a listing as the API gives it: an object whose [files] is an
    object. *)
Definition well_listed (g : value) : bool :=
  match g with
  | VObj fields =>
      match assoc (js "files") fields with
      | Some (VObj _) => true
      | _ => false
      end
  | _ => false
  end.

(** The gist has a file named [GIST_FILENAME]. *)
Definition carries_vault (g : value) : bool :=
  match g with
  | VObj fields =>
      match assoc (js "files") fields with
      | Some (VObj files) => bool_decide (is_Some (assoc GIST_FILENAME files))
      | _ => false
      end
  | _ => false
  end.

(** The search through the pages of a listing: the id of the first gist
    that has the file, up to the first empty page. *)
Fixpoint search (pages : list (list value)) : value :=
  match pages with
  | [] => VNull
  | [] :: _ => VNull
  | gists :: later =>
      match List.find carries_vault gists with
      | Some g => App.id_of g
      | None => search later
      end
  end.

End Remote.


(** ** Notions used to state the properties of the codecs *)

Module Codec.

(** A code unit [atob] accepts: of the alphabet, white space, or the padding
    sign. *)
Definition b64_accepts (c : N) : bool :=
  bool_decide (is_Some (b64_index c)) || is_ascii_whitespace c || (c =? b64_pad).

End Codec.


(** ** More of the concrete platform *)

Module Walkthrough.
Import App Text Actions Screens Remote Scenario.

(** A validation service that knows one account, and one that knows
    none. *)
Definition accept_token (token : jsstring) : outcome validation :=
  Ret (mk_validation true (Some (js "octocat"))).
Definition reject_token (token : jsstring) : outcome validation :=
  Ret (mk_validation false None).

(** The setup screen with the PIN typed twice and a token pasted with
    blanks around it. *)
Definition typed_setup : setup_view :=
  mk_setup_view 1 the_pin the_pin (js " ghp_token ") [] false [].

(** A device that was set up, and the lock screen with the PIN typed. *)
Definition set_up_storage : gmap string jsstring :=
  <[LS_PIN_VERIFIER := envelope 7 Crypto.VERIFY_PHRASE]> (storage cached4).
Definition typed_pin : lock_view := mk_lock_view the_pin [] false None.

(** The settings dialog with a new token pasted. *)
Definition typed_token : settings_view :=
  mk_settings_view (js "ghp_other ") ts_idle [] [].

(** The editor with a new prompt typed. *)
Definition draft : editor :=
  mk_editor (js " Title ") (js "Explain {{topic}}") [] [] false (js "a, b ,,c") true.

(** A session whose remote document brought a [null] entry. *)
Definition with_null : state := set_s_prompts [VNull; record 1] unlocked.

(** A session that displays the records of the export file. *)
Definition restored : state := set_s_prompts backup (locked ∅).

(** A session about to propagate the records of [remote5], its clock at
    their time stamp. *)
Definition about_to_save : state := set_clock 1700000000000 unlocked.

(** A listing of three pages: the second holds the vault. *)
Definition gist_entry (id : string) (files : list (jsstring * value)) : value :=
  VObj [ (js "id", VStr (js id)); (js "files", VObj files) ].
Definition listed1 : list value :=
  [ gist_entry "g1" [(js "notes.txt", VObj [])] ].
Definition listed2 : list value :=
  [ gist_entry "g2" []; gist_entry "g3" [(Gist.GIST_FILENAME, VObj [])];
    gist_entry "g4" [(Gist.GIST_FILENAME, VObj [])] ].
Definition listed3 : list value := [].

Definition toy_fetch (req : Gist.request) : outcome Gist.response :=
  let page n := jsstring_eqb (Gist.req_url req) (Gist.req_url (page_request the_token n)) in
  if page 1 then Ret (Gist.mk_response true 200 (Ret (VArr listed1)))
  else if page 2 then Ret (Gist.mk_response true 200 (Ret (VArr listed2)))
  else if page 3 then Ret (Gist.mk_response true 200 (Ret (VArr listed3)))
  else Throw NetworkError.

(** A [JSON] that reads the document of [remote5] back, and a store that
    answers every request with the document [saveToGist] sends for it. *)
Definition vault_json : JSONApi := {|
  JSON_parse := fun v =>
    match v with
    | VStr text =>
        lookup_text text
          [ (print (VaultData_to_value remote5), VaultData_to_value remote5) ]
    | _ => Throw SyntaxError
    end;
  JSON_stringify := fun v _ => print v
|}.

Definition store_fetch (req : Gist.request) : outcome Gist.response :=
  Ret (Gist.mk_response true 200 (Ret (gist_body (H := vault_json) remote5))).

End Walkthrough.


(** * Properties *)

Import App.

(** ** Bytes and arithmetic *)

Lemma to_N_byte_of_N n : Byte.to_N (byte_of_N n) = n mod 256.
Proof.
  unfold byte_of_N. destruct (Byte.of_N (n mod 256)) eqn:E.
  - now apply Byte.to_of_N in E.
  - apply Byte.of_N_None_iff in E.
    pose proof (N.mod_upper_bound n 256). lia.
Qed.

Lemma byte_of_N_to_N b : byte_of_N (Byte.to_N b) = b.
Proof.
  unfold byte_of_N. pose proof (Byte.to_N_bounded b).
  rewrite N.mod_small by lia. now rewrite Byte.of_to_N.
Qed.

Lemma to_N_byte_of_N_small n : n < 256 -> Byte.to_N (byte_of_N n) = n.
Proof. intros. rewrite to_N_byte_of_N. now apply N.mod_small. Qed.

Lemma div_mul_add k x y : y < k -> (x * k + y) / k = x.
Proof.
  intros Hy. symmetry. apply (N.div_unique _ _ x y); lia.
Qed.

Lemma mod_mul_add k x y : y < k -> (x * k + y) mod k = y.
Proof.
  intros Hy. symmetry. apply (N.mod_unique _ _ x y); lia.
Qed.

Lemma div_mod_join k a : k <> 0 -> a / k * k + a mod k = a.
Proof. intros. rewrite (N.div_mod a k) at 3 by assumption. lia. Qed.

Lemma div_lt_bound a k m : k <> 0 -> a < m * k -> a / k < m.
Proof. intros. apply N.Div0.div_lt_upper_bound. lia. Qed.

(** ** Base64 *)

Lemma list_ind3 {A} (P : list A -> Prop) :
  P [] -> (forall a, P [a]) -> (forall a b, P [a; b]) ->
  (forall a b c l, P l -> P (a :: b :: c :: l)) ->
  forall l, P l.
Proof.
  intros H0 H1 H2 H3 l.
  assert (P l /\ (forall a, P (a :: l)) /\ (forall a b, P (a :: b :: l))) as [? _].
  { induction l as [| x l (IH0 & IH1 & IH2)]; repeat split; auto. }
  assumption.
Qed.

Lemma b64_encode_split bs :
  b64_encode bs = map b64_char (sextets bs) ++ padding bs.
Proof.
  induction bs as [| a | a b | a b c l IH] using list_ind3; try reflexivity.
  cbn [b64_encode sextets padding map app]. now rewrite IH.
Qed.

Lemma sextets_below bs : all_below 256 bs -> all_below 64 (sextets bs).
Proof.
  unfold all_below.
  induction bs as [| a | a b | a b c l IH] using list_ind3; intros Hb; cbn [sextets].
  - constructor.
  - inversion_clear Hb. repeat constructor.
    + apply div_lt_bound; lia.
    + pose proof (N.mod_upper_bound a 4). lia.
  - inversion_clear Hb as [|? ? Ha Hb']. inversion_clear Hb' as [|? ? Hb0 _].
    repeat constructor.
    + apply div_lt_bound; lia.
    + pose proof (N.mod_upper_bound a 4). assert (b / 16 < 16) by (apply div_lt_bound; lia). lia.
    + pose proof (N.mod_upper_bound b 16). lia.
  - inversion_clear Hb as [|? ? Ha Hb']. inversion_clear Hb' as [|? ? Hb0 Hb''].
    inversion_clear Hb'' as [|? ? Hc Hl].
    repeat constructor; auto.
    + apply div_lt_bound; lia.
    + pose proof (N.mod_upper_bound a 4). assert (b / 16 < 16) by (apply div_lt_bound; lia). lia.
    + pose proof (N.mod_upper_bound b 16). assert (c / 64 < 4) by (apply div_lt_bound; lia). lia.
    + apply N.mod_upper_bound. lia.
Qed.

Ltac cmp_cases :=
  repeat match goal with
  | |- context [N.leb ?a ?b] => destruct (N.leb_spec a b); try lia
  | |- context [N.ltb ?a ?b] => destruct (N.ltb_spec a b); try lia
  | |- context [N.eqb ?a ?b] => destruct (N.eqb_spec a b); try lia
  end; cbn [andb orb negb].

Lemma b64_index_char n : n < 64 -> b64_index (b64_char n) = Some n.
Proof.
  intros Hn. unfold b64_char.
  destruct (N.ltb_spec n 26); [|destruct (N.ltb_spec n 52); [|destruct (N.ltb_spec n 62);
    [|destruct (N.eqb_spec n 62)]]]; unfold b64_index; cmp_cases; f_equal; lia.
Qed.

Lemma b64_char_not_pad n : b64_char n <> b64_pad.
Proof.
  unfold b64_char, b64_pad.
  destruct (N.ltb_spec n 26); [|destruct (N.ltb_spec n 52); [|destruct (N.ltb_spec n 62);
    [|destruct (N.eqb_spec n 62)]]]; lia.
Qed.

Lemma b64_char_not_whitespace n : is_ascii_whitespace (b64_char n) = false.
Proof.
  unfold b64_char, is_ascii_whitespace.
  destruct (N.ltb_spec n 26); [|destruct (N.ltb_spec n 52); [|destruct (N.ltb_spec n 62);
    [|destruct (N.eqb_spec n 62)]]]; cmp_cases; reflexivity.
Qed.

Lemma b64_indices_chars xs :
  all_below 64 xs -> b64_indices (map b64_char xs) = Some xs.
Proof.
  induction 1 as [| x xs Hx _ IH]; cbn [map b64_indices]; [reflexivity|].
  now rewrite b64_index_char, IH.
Qed.

Lemma join_hi a k y m : k <> 0 -> y < m -> a / k * k + (a mod k * m + y) / m = a.
Proof.
  intros Hk Hy. rewrite div_mul_add by assumption. now apply div_mod_join.
Qed.

Lemma join_lo b m x : m <> 0 -> b / m < m -> (x * m + b / m) mod m * m + b mod m = b.
Proof.
  intros Hm Hb. rewrite mod_mul_add by assumption. now apply div_mod_join.
Qed.

Lemma b64_decode_sextets bs : all_below 256 bs -> b64_decode (sextets bs) = bs.
Proof.
  unfold all_below.
  induction bs as [| a | a b | a b c l IH] using list_ind3; intros Hb;
    cbn [sextets b64_decode].
  - reflexivity.
  - replace (a mod 4 * 16) with (a mod 4 * 16 + 0) by lia.
    rewrite join_hi by lia. reflexivity.
  - inversion_clear Hb as [|? ? Ha Hb']. inversion_clear Hb' as [|? ? Hb0 _].
    assert (b / 16 < 16) by (apply div_lt_bound; lia).
    rewrite join_hi by lia.
    replace (b mod 16 * 4) with (b mod 16 * 4 + 0) by lia.
    rewrite mod_mul_add by lia. rewrite div_mul_add by lia.
    rewrite div_mod_join by lia. reflexivity.
  - inversion_clear Hb as [|? ? Ha Hb']. inversion_clear Hb' as [|? ? Hb0 Hb''].
    inversion_clear Hb'' as [|? ? Hc Hl].
    assert (b / 16 < 16) by (apply div_lt_bound; lia).
    assert (c / 64 < 4) by (apply div_lt_bound; lia).
    rewrite join_hi by lia.
    rewrite mod_mul_add by lia. rewrite div_mul_add by lia.
    rewrite (div_mod_join 16 b) by lia.
    rewrite mod_mul_add by lia. rewrite (div_mod_join 64 c) by lia.
    now rewrite IH.
Qed.

Lemma length_b64_encode bs : (N.of_nat (length (b64_encode bs)) mod 4 = 0).
Proof.
  induction bs as [| a | a b | a b c l IH] using list_ind3; try reflexivity.
  cbn [b64_encode length].
  replace (N.of_nat (S (S (S (S (length (b64_encode l)))))))
    with (N.of_nat (length (b64_encode l)) + 1 * 4) by lia.
  now rewrite N.Div0.mod_add.
Qed.

Lemma length_sextets bs : N.of_nat (length (sextets bs)) mod 4 <> 1.
Proof.
  induction bs as [| a | a b | a b c l IH] using list_ind3;
    try (cbn; discriminate).
  cbn [sextets length].
  replace (N.of_nat (S (S (S (S (length (sextets l)))))))
    with (N.of_nat (length (sextets l)) + 1 * 4) by lia.
  now rewrite N.Div0.mod_add.
Qed.

Lemma padding_cases bs :
  padding bs = [] \/ padding bs = [b64_pad] \/ padding bs = [b64_pad; b64_pad].
Proof.
  induction bs as [| a | a b | a b c l IH] using list_ind3; cbn [padding]; auto.
Qed.

Lemma strip_padding_body xs pad :
  pad = [] \/ pad = [b64_pad] \/ pad = [b64_pad; b64_pad] ->
  strip_padding (map b64_char xs ++ pad) = map b64_char xs.
Proof.
  intros Hpad. unfold strip_padding. rewrite rev_app_distr.
  assert (Hlast : forall r, rev (map b64_char xs) = r ->
            match r with
            | c :: _ => (c =? b64_pad) = false
            | [] => True
            end).
  { intros r Hr. destruct r as [|c r]; [exact I|].
    assert (Hin : In c (map b64_char xs)).
    { apply in_rev. rewrite Hr. now left. }
    apply in_map_iff in Hin as (n & <- & _).
    apply N.eqb_neq, b64_char_not_pad. }
  destruct Hpad as [-> | [-> | ->]]; cbn [rev app].
  - specialize (Hlast _ eq_refl).
    destruct (rev (map b64_char xs)) as [|c r] eqn:E.
    + now rewrite app_nil_r.
    + rewrite Hlast. now rewrite app_nil_r.
  - rewrite N.eqb_refl. specialize (Hlast _ eq_refl).
    destruct (rev (map b64_char xs)) as [|c r] eqn:E.
    + apply (f_equal (@rev N)) in E. rewrite rev_involutive in E. now rewrite E.
    + rewrite Hlast. rewrite <- E. apply rev_involutive.
  - rewrite !N.eqb_refl. apply rev_involutive.
Qed.

Lemma filter_b64_encode bs :
  List.filter (fun c => negb (is_ascii_whitespace c)) (b64_encode bs) = b64_encode bs.
Proof.
  apply forallb_filter_id. rewrite b64_encode_split, forallb_app.
  apply andb_true_iff. split.
  - apply List.forallb_forall. intros c Hc. apply in_map_iff in Hc as (n & <- & _).
    now rewrite b64_char_not_whitespace.
  - destruct (padding_cases bs) as [-> | [-> | ->]]; reflexivity.
Qed.

(** [atob] undoes [btoa] on byte values. *)
Lemma atob_b64_encode bs : all_below 256 bs -> atob (b64_encode bs) = Ret bs.
Proof.
  intros Hb. unfold atob. rewrite filter_b64_encode, length_b64_encode.
  cbn [N.eqb]. rewrite b64_encode_split, strip_padding_body by apply padding_cases.
  rewrite length_map.
  destruct (N.eqb_spec (N.of_nat (length (sextets bs)) mod 4) 1) as [E|_].
  { now apply length_sextets in E. }
  rewrite b64_indices_chars by now apply sextets_below.
  now rewrite b64_decode_sextets.
Qed.

Lemma btoa_bytes (buf : list byte) :
  btoa (map Byte.to_N buf) = Ret (b64_encode (map Byte.to_N buf)).
Proof.
  unfold btoa.
  replace (forallb _ _) with true; [reflexivity|].
  symmetry. apply List.forallb_forall. intros u Hu.
  apply in_map_iff in Hu as (b & <- & _).
  apply N.leb_le, Byte.to_N_bounded.
Qed.

Lemma all_below_bytes (buf : list byte) : all_below 256 (map Byte.to_N buf).
Proof.
  unfold all_below. apply List.Forall_forall. intros u Hu.
  apply in_map_iff in Hu as (b & <- & _).
  pose proof (Byte.to_N_bounded b). lia.
Qed.

Lemma scalar_bounds c :
  is_scalar_value c = true -> c < 0x110000 /\ (c < 0xD800 \/ 0xDFFF < c).
Proof.
  unfold is_scalar_value, is_surrogate. intros Hc.
  apply andb_true_iff in Hc as [H1 H2]. apply N.ltb_lt in H1.
  apply negb_true_iff, andb_false_iff in H2.
  split; [assumption|]. destruct H2 as [H2|H2]; apply N.leb_gt in H2; lia.
Qed.

Lemma utf8_step_ascii b : b <= 0x7F -> utf8_step utf8_start b = ([b], utf8_start).
Proof.
  intros Hb. unfold utf8_step, utf8_lead. cbn [u8_needed utf8_start].
  destruct (N.leb_spec b 0x7F); [reflexivity | lia].
Qed.

Lemma utf8_step_lead2 b :
  0xC2 <= b <= 0xDF ->
  utf8_step utf8_start b = ([], mk_utf8_state (b mod 0x20) 1 0x80 0xBF).
Proof.
  intros Hb. unfold utf8_step, utf8_lead. cbn [u8_needed utf8_start].
  destruct (N.leb_spec b 0x7F); [lia|].
  destruct (N.leb_spec 0xC2 b); [|lia].
  destruct (N.leb_spec b 0xDF); [reflexivity|lia].
Qed.

Lemma utf8_step_lead3 b :
  0xE0 <= b <= 0xEF ->
  utf8_step utf8_start b =
  ([], mk_utf8_state (b mod 0x10) 2
         (if b =? 0xE0 then 0xA0 else 0x80) (if b =? 0xED then 0x9F else 0xBF)).
Proof.
  intros Hb. unfold utf8_step, utf8_lead. cbn [u8_needed utf8_start].
  destruct (N.leb_spec b 0x7F); [lia|].
  destruct (N.leb_spec 0xC2 b); [|lia].
  destruct (N.leb_spec b 0xDF); [lia|]. cbn [andb].
  destruct (N.leb_spec 0xE0 b); [|lia].
  destruct (N.leb_spec b 0xEF); [reflexivity|lia].
Qed.

Lemma utf8_step_lead4 b :
  0xF0 <= b <= 0xF4 ->
  utf8_step utf8_start b =
  ([], mk_utf8_state (b mod 0x08) 3
         (if b =? 0xF0 then 0x90 else 0x80) (if b =? 0xF4 then 0x8F else 0xBF)).
Proof.
  intros Hb. unfold utf8_step, utf8_lead. cbn [u8_needed utf8_start].
  destruct (N.leb_spec b 0x7F); [lia|].
  destruct (N.leb_spec 0xC2 b); [|lia].
  destruct (N.leb_spec b 0xDF); [lia|]. cbn [andb].
  destruct (N.leb_spec 0xE0 b); [|lia].
  destruct (N.leb_spec b 0xEF); [lia|]. cbn [andb].
  destruct (N.leb_spec 0xF0 b); [|lia].
  destruct (N.leb_spec b 0xF4); [reflexivity|lia].
Qed.

Lemma utf8_step_last cp lo hi b :
  lo <= b <= hi ->
  utf8_step (mk_utf8_state cp 1 lo hi) b = ([cp * 0x40 + b mod 0x40], utf8_start).
Proof.
  intros Hb. unfold utf8_step. cbn [u8_needed u8_lower u8_upper u8_code_point].
  destruct (N.leb_spec lo b); [|lia].
  destruct (N.leb_spec b hi); [reflexivity|lia].
Qed.

Lemma utf8_step_more cp n lo hi b :
  lo <= b <= hi ->
  utf8_step (mk_utf8_state cp (S (S n)) lo hi) b
  = ([], mk_utf8_state (cp * 0x40 + b mod 0x40) (S n) 0x80 0xBF).
Proof.
  intros Hb. unfold utf8_step. cbn [u8_needed u8_lower u8_upper u8_code_point].
  destruct (N.leb_spec lo b); [|lia].
  destruct (N.leb_spec b hi); [reflexivity|lia].
Qed.

Lemma utf8_decode_encode_scalar c rest :
  is_scalar_value c = true ->
  utf8_decode_from utf8_start (utf8_encode_scalar c ++ rest)
  = c :: utf8_decode_from utf8_start rest.
Proof.
  intros Hc. apply scalar_bounds in Hc as [Hmax Hsur].
  unfold utf8_encode_scalar.
  destruct (N.ltb_spec c 0x80) as [H1|H1];
    [|destruct (N.ltb_spec c 0x800) as [H2|H2];
      [|destruct (N.ltb_spec c 0x10000) as [H3|H3]]].
  - cbn [app utf8_decode_from]. rewrite to_N_byte_of_N_small by lia.
    rewrite utf8_step_ascii by lia. reflexivity.
  - pose proof (N.div_mod c 64 ltac:(lia)) as Hdm.
    pose proof (N.mod_upper_bound c 64 ltac:(lia)) as Hl.
    set (h := c / 64) in *. set (l := c mod 64) in *.
    assert (2 <= h < 32) by lia.
    cbn [app utf8_decode_from]. rewrite !to_N_byte_of_N_small by lia.
    rewrite utf8_step_lead2 by lia. cbn [app].
    rewrite utf8_step_last by lia. cbn [app]. f_equal.
    replace (0xC0 + h) with (6 * 0x20 + h) by lia.
    replace (0x80 + l) with (2 * 0x40 + l) by lia.
    rewrite !mod_mul_add by lia. lia.
  - pose proof (N.div_mod c 64 ltac:(lia)) as Hdm.
    pose proof (N.mod_upper_bound c 64 ltac:(lia)) as Hl.
    set (l := c mod 64) in *.
    pose proof (N.div_mod (c / 64) 64 ltac:(lia)) as Hdm2.
    pose proof (N.mod_upper_bound (c / 64) 64 ltac:(lia)) as Hm.
    set (m := (c / 64) mod 64) in *.
    replace (c / 0x1000) with (c / 64 / 64) by (rewrite N.Div0.div_div; reflexivity).
    set (h := c / 64 / 64) in *.
    assert (h < 16) by lia.
    cbn [app utf8_decode_from]. rewrite !to_N_byte_of_N_small by lia.
    rewrite utf8_step_lead3 by lia. cbn [app].
    rewrite utf8_step_more; cycle 1.
    { destruct (N.eqb_spec (0xE0 + h) 0xE0); destruct (N.eqb_spec (0xE0 + h) 0xED); lia. }
    cbn [app]. rewrite utf8_step_last by lia. cbn [app]. f_equal.
    replace (0xE0 + h) with (14 * 0x10 + h) by lia.
    replace (0x80 + l) with (2 * 0x40 + l) by lia.
    replace (0x80 + m) with (2 * 0x40 + m) by lia.
    rewrite !mod_mul_add by lia. lia.
  - pose proof (N.div_mod c 64 ltac:(lia)) as Hdm.
    pose proof (N.mod_upper_bound c 64 ltac:(lia)) as Hl.
    set (l := c mod 64) in *.
    pose proof (N.div_mod (c / 64) 64 ltac:(lia)) as Hdm2.
    pose proof (N.mod_upper_bound (c / 64) 64 ltac:(lia)) as Hm.
    set (m := (c / 64) mod 64) in *.
    replace (c / 0x1000) with (c / 64 / 64) by (rewrite N.Div0.div_div; reflexivity).
    replace (c / 0x40000) with (c / 64 / 64 / 64) by (rewrite !N.Div0.div_div; reflexivity).
    pose proof (N.div_mod (c / 64 / 64) 64 ltac:(lia)) as Hdm3.
    pose proof (N.mod_upper_bound (c / 64 / 64) 64 ltac:(lia)) as Hk.
    set (k := (c / 64 / 64) mod 64) in *.
    set (h := c / 64 / 64 / 64) in *.
    assert (h < 5) by lia.
    cbn [app utf8_decode_from]. rewrite !to_N_byte_of_N_small by lia.
    rewrite utf8_step_lead4 by lia. cbn [app].
    rewrite utf8_step_more; cycle 1.
    { destruct (N.eqb_spec (0xF0 + h) 0xF0); destruct (N.eqb_spec (0xF0 + h) 0xF4); lia. }
    cbn [app]. rewrite utf8_step_more by lia.
    cbn [app]. rewrite utf8_step_last by lia. cbn [app]. f_equal.
    replace (0xF0 + h) with (30 * 0x08 + h) by lia.
    replace (0x80 + l) with (2 * 0x40 + l) by lia.
    replace (0x80 + m) with (2 * 0x40 + m) by lia.
    replace (0x80 + k) with (2 * 0x40 + k) by lia.
    rewrite !mod_mul_add by lia. lia.
Qed.

Lemma utf8_decode_encode cs :
  forallb is_scalar_value cs = true ->
  utf8_decode_from utf8_start (concat (map utf8_encode_scalar cs)) = cs.
Proof.
  induction cs as [|c cs IH]; cbn [forallb map concat]; intros Hcs.
  - reflexivity.
  - apply andb_true_iff in Hcs as [Hc Hcs].
    rewrite utf8_decode_encode_scalar by assumption. now rewrite IH.
Qed.

Lemma surrogate_ranges u :
  (is_high_surrogate u = true <-> 0xD800 <= u <= 0xDBFF) /\
  (is_low_surrogate u = true <-> 0xDC00 <= u <= 0xDFFF).
Proof.
  unfold is_high_surrogate, is_low_surrogate.
  rewrite !andb_true_iff, !N.leb_le. tauto.
Qed.

Lemma well_formed_ind (P : jsstring -> Prop) :
  P [] ->
  (forall u v rest, is_high_surrogate u = true -> is_low_surrogate v = true ->
     well_formed rest = true -> P rest -> P (u :: v :: rest)) ->
  (forall u rest, is_high_surrogate u = false -> is_low_surrogate u = false ->
     is_code_unit u = true -> well_formed rest = true -> P rest -> P (u :: rest)) ->
  forall s, well_formed s = true -> P s.
Proof.
  intros Hnil Hpair Hone s.
  remember (length s) as n eqn:Hn. revert s Hn.
  induction n as [n IH] using (well_founded_induction lt_wf).
  intros [|u rest] Hn Hwf; [exact Hnil|].
  cbn [well_formed] in Hwf.
  destruct (is_high_surrogate u) eqn:Hh.
  - destruct rest as [|v rest']; [discriminate|].
    apply andb_true_iff in Hwf as [Hv Hr].
    apply Hpair; auto. apply (IH (length rest')); cbn in Hn; auto; lia.
  - apply andb_true_iff in Hwf as [Hu Hr]. apply andb_true_iff in Hu as [Hl Hu].
    apply negb_true_iff in Hl.
    apply Hone; auto. apply (IH (length rest)); cbn in Hn; auto; lia.
Qed.

Lemma to_scalar_values_pair u v rest :
  is_high_surrogate u = true -> is_low_surrogate v = true ->
  to_scalar_values (u :: v :: rest)
  = (0x10000 + (u - 0xD800) * 0x400 + (v - 0xDC00)) :: to_scalar_values rest.
Proof. intros Hu Hv. cbn [to_scalar_values]. now rewrite Hu, Hv. Qed.

Lemma to_scalar_values_one u rest :
  is_high_surrogate u = false -> is_low_surrogate u = false ->
  to_scalar_values (u :: rest) = u :: to_scalar_values rest.
Proof. intros Hu Hv. cbn [to_scalar_values]. now rewrite Hu, Hv. Qed.

Lemma well_formed_scalars s :
  well_formed s = true -> forallb is_scalar_value (to_scalar_values s) = true.
Proof.
  revert s. apply well_formed_ind;
    [| intros u v rest Hu Hv _ IH | intros u rest Hh Hl Hu _ IH].
  - reflexivity.
  - rewrite to_scalar_values_pair by assumption. cbn [forallb]. rewrite IH, andb_true_r.
    apply surrogate_ranges in Hu, Hv.
    unfold is_scalar_value, is_surrogate.
    apply andb_true_iff. split; [apply N.ltb_lt; lia|].
    apply negb_true_iff, andb_false_iff. right. apply N.leb_gt. lia.
  - rewrite to_scalar_values_one by assumption. cbn [forallb]. rewrite IH, andb_true_r.
    unfold is_scalar_value, is_surrogate, is_code_unit in *.
    apply N.ltb_lt in Hu.
    unfold is_high_surrogate in Hh. unfold is_low_surrogate in Hl.
    apply andb_true_iff. split; [apply N.ltb_lt; lia|].
    apply negb_true_iff.
    destruct (N.leb_spec 0xD800 u), (N.leb_spec u 0xDFFF); cbn [andb]; auto.
    destruct (N.leb_spec u 0xDBFF), (N.leb_spec 0xDC00 u); cbn in Hh, Hl; try discriminate; lia.
Qed.

Lemma well_formed_utf16 s :
  well_formed s = true -> concat (map utf16_units (to_scalar_values s)) = s.
Proof.
  revert s. apply well_formed_ind;
    [| intros u v rest Hu Hv _ IH | intros u rest Hh Hl Hu _ IH].
  - reflexivity.
  - rewrite to_scalar_values_pair by assumption. cbn [map concat]. rewrite IH.
    apply surrogate_ranges in Hu, Hv.
    unfold utf16_units.
    destruct (N.ltb_spec (0x10000 + (u - 0xD800) * 0x400 + (v - 0xDC00)) 0x10000); [lia|].
    replace (0x10000 + (u - 0xD800) * 0x400 + (v - 0xDC00) - 0x10000)
      with ((u - 0xD800) * 0x400 + (v - 0xDC00)) by lia.
    rewrite div_mul_add, mod_mul_add by lia. cbn [app]. do 2 f_equal; lia.
  - rewrite to_scalar_values_one by assumption. cbn [map concat]. rewrite IH.
    unfold utf16_units, is_code_unit in *. now rewrite Hu.
Qed.

Lemma strip_bom_scalars s :
  starts_with_bom s = false ->
  strip_bom (to_scalar_values s) = to_scalar_values s.
Proof.
  destruct s as [|u rest]; [reflexivity|].
  cbn [starts_with_bom]. intros Hb. cbn [to_scalar_values].
  destruct (is_high_surrogate u) eqn:Hh.
  - destruct rest as [|v rest']; [reflexivity|].
    destruct (is_low_surrogate v) eqn:Hv; cbn [strip_bom]; [|reflexivity].
    apply surrogate_ranges in Hh, Hv.
    destruct (N.eqb_spec (0x10000 + (u - 0xD800) * 0x400 + (v - 0xDC00)) 0xFEFF); [lia|reflexivity].
  - destruct (is_low_surrogate u); cbn [strip_bom]; [reflexivity|]. now rewrite Hb.
Qed.

(** [TextDecoder] undoes [TextEncoder] on a well-formed string that does not
    start with U+FEFF. *)
Lemma TextDecoder_TextEncoder t :
  well_formed t = true -> starts_with_bom t = false ->
  TextDecoder_decode (TextEncoder_encode t) = t.
Proof.
  intros Hwf Hbom. unfold TextDecoder_decode, TextEncoder_encode.
  rewrite utf8_decode_encode by now apply well_formed_scalars.
  rewrite strip_bom_scalars by assumption. now apply well_formed_utf16.
Qed.

(** ** The envelope of [crypto.ts] *)

Lemma array_set_pack (salt iv enc : list byte) :
  array_set
    (array_set
       (array_set (replicate (length salt + length iv + length enc) x00) salt 0)
       iv (length salt))
    enc (length salt + length iv)
  = salt ++ iv ++ enc.
Proof.
  unfold array_set.
  rewrite take_0, drop_replicate. cbn [app].
  replace (length salt + length iv + length enc - (0 + length salt))%nat
    with (length iv + length enc)%nat by lia.
  rewrite take_app_length.
  rewrite drop_app_add'. 2: reflexivity.
  rewrite drop_replicate.
  replace (length iv + length enc - length iv)%nat with (length enc) by lia.
  rewrite (app_assoc salt iv), take_app_length'; cycle 1.
  { rewrite length_app. reflexivity. }
  rewrite drop_ge; cycle 1.
  { rewrite !length_app, length_replicate. lia. }
  now rewrite app_nil_r, <- app_assoc.
Qed.

Lemma map_byte_of_N_to_N (buf : list byte) :
  map byte_of_N (map Byte.to_N buf) = buf.
Proof.
  rewrite map_map. induction buf as [|b buf IH]; cbn [map]; [reflexivity|].
  now rewrite byte_of_N_to_N, IH.
Qed.

Lemma base64_roundtrip (buf : list byte) :
  (b ← arrayBufferToBase64 buf; base64ToUint8Array b) = Ret buf.
Proof.
  unfold arrayBufferToBase64, base64ToUint8Array. rewrite btoa_bytes.
  cbn [mbind outcome_bind bind]. rewrite atob_b64_encode by apply all_below_bytes.
  cbn [mbind outcome_bind bind mret outcome_ret]. now rewrite map_byte_of_N_to_N.
Qed.

Section CryptoFacts.
Context `{WebCrypto}.

(** [encrypt] never throws. *)
Lemma encrypt_returns r plaintext pin :
  encrypt r plaintext pin = Ret (envelope_of r plaintext pin).
Proof.
  unfold encrypt, envelope_of. rewrite array_set_pack.
  unfold arrayBufferToBase64. apply btoa_bytes.
Qed.

Lemma unpack_envelope (salt iv enc : list byte) :
  length salt = 16%nat -> length iv = 12%nat ->
  slice (salt ++ iv ++ enc) 0 16 = salt /\
  slice (salt ++ iv ++ enc) 16 28 = iv /\
  slice_from (salt ++ iv ++ enc) 28 = enc.
Proof.
  intros Hs Hi. unfold slice, slice_from. repeat split.
  - rewrite drop_0. cbn [Nat.sub]. rewrite <- Hs. apply take_app_length.
  - rewrite <- Hs, drop_app_length. rewrite Hs. cbn [Nat.sub].
    rewrite <- Hi. apply take_app_length.
  - rewrite app_assoc. apply drop_app_length'. rewrite length_app. lia.
Qed.

(** What [decrypt] recovers from an envelope of [encrypt] under the same
    passphrase. *)
Lemma decrypt_envelope r plaintext pin :
  entropy_ok r ->
  decrypt (envelope_of r plaintext pin) pin
  = Ret (TextDecoder_decode (TextEncoder_encode plaintext)).
Proof.
  intros [Hs Hi]. unfold decrypt, envelope_of, base64ToUint8Array.
  rewrite atob_b64_encode by apply all_below_bytes.
  cbn [mbind outcome_bind bind mret outcome_ret]. rewrite map_byte_of_N_to_N.
  destruct (unpack_envelope (rnd_salt r) (rnd_iv r)
              (aes_gcm_encrypt (deriveKey pin (rnd_salt r)) (rnd_iv r)
                 (TextEncoder_encode plaintext)) Hs Hi) as (-> & -> & ->).
  now rewrite aes_gcm_decrypt_encrypt.
Qed.

(** Under another passphrase the same envelope is opened with the key that
    passphrase derives. *)
Lemma decrypt_envelope_other r plaintext p q :
  entropy_ok r ->
  decrypt (envelope_of r plaintext p) q
  = (decrypted ← aes_gcm_decrypt (deriveKey q (rnd_salt r)) (rnd_iv r)
                   (aes_gcm_encrypt (deriveKey p (rnd_salt r)) (rnd_iv r)
                      (TextEncoder_encode plaintext));
     mret (TextDecoder_decode decrypted)).
Proof.
  intros [Hs Hi]. unfold decrypt, envelope_of, base64ToUint8Array.
  rewrite atob_b64_encode by apply all_below_bytes.
  cbn [mbind outcome_bind bind mret outcome_ret]. rewrite map_byte_of_N_to_N.
  destruct (unpack_envelope (rnd_salt r) (rnd_iv r)
              (aes_gcm_encrypt (deriveKey p (rnd_salt r)) (rnd_iv r)
                 (TextEncoder_encode plaintext)) Hs Hi) as (-> & -> & ->).
  reflexivity.
Qed.

Theorem decrypt_encrypt_well_formed r t p :
  entropy_ok r -> well_formed t = true -> starts_with_bom t = false ->
  (e ← encrypt r t p; decrypt e p) = Ret t.
Proof.
  intros Hr Hwf Hbom. rewrite encrypt_returns.
  cbn [mbind outcome_bind bind]. rewrite decrypt_envelope by assumption.
  now rewrite TextDecoder_TextEncoder.
Qed.

End CryptoFacts.

Lemma VERIFY_PHRASE_survives :
  TextDecoder_decode (TextEncoder_encode VERIFY_PHRASE) = VERIFY_PHRASE.
Proof. apply TextDecoder_TextEncoder; reflexivity. Qed.

Section VerifierFacts.
Context `{WebCrypto}.

Lemma verifyPin_spec pin verifier :
  verifyPin pin verifier
  = Ret (match decrypt verifier pin with
         | Ret result => jsstring_eqb result VERIFY_PHRASE
         | Throw _ => false
         end).
Proof. unfold verifyPin. now destruct (decrypt verifier pin). Qed.

Lemma verifyPin_same r p :
  entropy_ok r -> (v ← createPinVerifier r p; verifyPin p v) = Ret true.
Proof.
  intros Hr. unfold createPinVerifier. rewrite encrypt_returns.
  cbn [mbind outcome_bind bind]. rewrite verifyPin_spec, decrypt_envelope by assumption.
  rewrite VERIFY_PHRASE_survives. unfold jsstring_eqb. now rewrite bool_decide_eq_true_2.
Qed.

(** Passphrases with the same UTF-8 encoding derive the same key. *)
Lemma verifyPin_same_encoding r p q :
  entropy_ok r -> TextEncoder_encode q = TextEncoder_encode p ->
  (v ← createPinVerifier r p; verifyPin q v) = Ret true.
Proof.
  intros Hr Henc. unfold createPinVerifier. rewrite encrypt_returns.
  cbn [mbind outcome_bind bind]. rewrite verifyPin_spec, decrypt_envelope_other by assumption.
  unfold deriveKey. rewrite Henc, aes_gcm_decrypt_encrypt.
  cbn [mbind outcome_bind bind mret outcome_ret].
  rewrite VERIFY_PHRASE_survives. unfold jsstring_eqb. now rewrite bool_decide_eq_true_2.
Qed.

Lemma verifyPin_other r p q :
  entropy_ok r -> rejects_wrong_key ->
  deriveKey q (rnd_salt r) <> deriveKey p (rnd_salt r) ->
  (v ← createPinVerifier r p; verifyPin q v) = Ret false.
Proof.
  intros Hr Hauth Hkeys. unfold createPinVerifier. rewrite encrypt_returns.
  cbn [mbind outcome_bind bind]. rewrite verifyPin_spec, decrypt_envelope_other by assumption.
  now rewrite Hauth.
Qed.

End VerifierFacts.

(** ** C1: round trip of the envelope *)

Section RoundTrip.
Context `{WebCrypto}.

(** C1, as amended. For every passphrase [p] and every plaintext [t] that is
    well formed (no unpaired surrogate) and does not start with U+FEFF,
    [encrypt(t, p)] returns the base64 packing of the 16-byte salt, the
    12-byte nonce and the ciphertext, [decrypt] unpacks it at the same
    offsets, and decrypting it with [p] returns exactly [t]. *)
Theorem decrypt_encrypt_roundtrip (r : entropy) (t p : jsstring) :
  entropy_ok r -> well_formed t = true -> starts_with_bom t = false ->
  encrypt r t p
  = Ret (b64_encode
           (map Byte.to_N
              (rnd_salt r ++ rnd_iv r
               ++ aes_gcm_encrypt (deriveKey p (rnd_salt r)) (rnd_iv r)
                    (TextEncoder_encode t))))
  /\ (e ← encrypt r t p; decrypt e p) = Ret t.
Proof.
  intros Hr Hwf Hbom. split.
  - apply encrypt_returns.
  - now apply decrypt_encrypt_well_formed.
Qed.

(** For any plaintext at all, what comes back is the plaintext as the text
    codecs normalise it. *)
Lemma decrypt_encrypt_normalises (r : entropy) (t p : jsstring) :
  entropy_ok r ->
  (e ← encrypt r t p; decrypt e p)
  = Ret (TextDecoder_decode (TextEncoder_encode t)).
Proof.
  intros Hr. rewrite encrypt_returns. cbn [mbind outcome_bind bind].
  now apply decrypt_envelope.
Qed.

End RoundTrip.

(** C1 on the toy cipher: the text ["hello"] under the pin ["1234"]. *)
Lemma decrypt_encrypt_roundtrip_witness :
  entropy_ok Toy.toy_entropy
  /\ well_formed (js "hello") = true
  /\ starts_with_bom (js "hello") = false
  /\ (e ← encrypt (H := Toy.toy_crypto) Toy.toy_entropy (js "hello") (js "1234");
      decrypt (H := Toy.toy_crypto) e (js "1234")) = Ret (js "hello").
Proof.
  assert (Hr : entropy_ok Toy.toy_entropy) by (split; reflexivity).
  split; [exact Hr|]. split; [reflexivity|]. split; [reflexivity|].
  exact (proj2 (decrypt_encrypt_roundtrip (H := Toy.toy_crypto)
                  Toy.toy_entropy (js "hello") (js "1234") Hr eq_refl eq_refl)).
Defined.

(** C1, as stated, fails: a plaintext that starts with U+FEFF comes back
    without it, and an unpaired surrogate comes back as U+FFFD. *)
Lemma decrypt_encrypt_roundtrip_counterexample :
  (e ← encrypt (H := Toy.toy_crypto) Toy.toy_entropy [0xFEFF; 0x41] (js "1234");
   decrypt (H := Toy.toy_crypto) e (js "1234")) = Ret [0x41]
  /\ (e ← encrypt (H := Toy.toy_crypto) Toy.toy_entropy [0x41; 0xD800] (js "1234");
      decrypt (H := Toy.toy_crypto) e (js "1234")) = Ret [0x41; 0xFFFD].
Proof.
  assert (Hr : entropy_ok Toy.toy_entropy) by (split; reflexivity).
  split; rewrite decrypt_encrypt_normalises by exact Hr; reflexivity.
Qed.

(** ** C2: the PIN verifier *)

Section Verifier.
Context `{WebCrypto}.

(** C2, as amended. For every pin [p], [verifyPin(p, createPinVerifier(p))]
    is true; for pins [p] and [q] whose derived keys differ under the
    verifier's salt, with AES-GCM rejecting a key other than the sealing one,
    [verifyPin(q, createPinVerifier(p))] is false; and [verifyPin] never
    throws: it is true exactly when decryption succeeds and recovers the
    marker, and false on every decryption failure. *)
Theorem verifyPin_correct (r : entropy) :
  entropy_ok r ->
  (forall p, (v ← createPinVerifier r p; verifyPin p v) = Ret true)
  /\ (rejects_wrong_key ->
      forall p q,
        deriveKey q (rnd_salt r) <> deriveKey p (rnd_salt r) ->
        (v ← createPinVerifier r p; verifyPin q v) = Ret false)
  /\ (forall pin verifier,
        (verifyPin pin verifier = Ret true
         <-> decrypt verifier pin = Ret VERIFY_PHRASE)
        /\ (forall e, decrypt verifier pin = Throw e ->
                      verifyPin pin verifier = Ret false)
        /\ exists b, verifyPin pin verifier = Ret b).
Proof.
  intros Hr. split; [|split].
  - intros p. now apply verifyPin_same.
  - intros Hauth p q Hkeys. now apply verifyPin_other.
  - intros pin verifier. rewrite verifyPin_spec. repeat split.
    + destruct (decrypt verifier pin) as [result|e]; [|discriminate].
      intros [= Heq]. unfold jsstring_eqb in Heq.
      apply bool_decide_eq_true_1 in Heq. now subst.
    + intros ->. unfold jsstring_eqb. now rewrite bool_decide_eq_true_2.
    + now intros e ->.
    + eauto.
Qed.

End Verifier.

Lemma toy_rejects_wrong_key : rejects_wrong_key (H := Toy.toy_crypto).
Proof.
  intros k k' iv pt Hk. cbn. unfold Toy.toy_decrypt, Toy.toy_encrypt.
  destruct (Byte.eqb k k') eqn:E; [|reflexivity].
  apply Byte.byte_dec_bl in E. congruence.
Qed.

(** C2 on the toy cipher: the pin ["1234"] verifies, ["1235"] does not. *)
Lemma verifyPin_correct_witness :
  entropy_ok Toy.toy_entropy
  /\ rejects_wrong_key (H := Toy.toy_crypto)
  /\ (v ← createPinVerifier (H := Toy.toy_crypto) Toy.toy_entropy (js "1234");
      verifyPin (H := Toy.toy_crypto) (js "1234") v) = Ret true
  /\ (v ← createPinVerifier (H := Toy.toy_crypto) Toy.toy_entropy (js "1234");
      verifyPin (H := Toy.toy_crypto) (js "1235") v) = Ret false.
Proof.
  assert (Hr : entropy_ok Toy.toy_entropy) by (split; reflexivity).
  destruct (verifyPin_correct (H := Toy.toy_crypto) Toy.toy_entropy Hr)
    as (Hsame & Hother & _).
  split; [exact Hr|]. split; [exact toy_rejects_wrong_key|]. split.
  - apply Hsame.
  - apply Hother; [exact toy_rejects_wrong_key|]. vm_compute. discriminate.
Defined.

(** C2, as stated, fails: two distinct pins that differ in an unpaired
    surrogate have the same UTF-8 encoding, hence the same key, and each
    verifies against the other's verifier. *)
Lemma verifyPin_distinct_pins_counterexample :
  [0x31; 0x32; 0x33; 0x34; 0xD800] <> [0x31; 0x32; 0x33; 0x34; 0xD801]
  /\ (v ← createPinVerifier (H := Toy.toy_crypto) Toy.toy_entropy
            [0x31; 0x32; 0x33; 0x34; 0xD800];
      verifyPin (H := Toy.toy_crypto) [0x31; 0x32; 0x33; 0x34; 0xD801] v)
     = Ret true.
Proof.
  split; [discriminate|].
  apply verifyPin_same_encoding; [split; reflexivity | reflexivity].
Qed.

(** ** C7: the remote store never throws *)

Section GistFacts.
Variable fetch : Gist.request -> outcome Gist.response.
Context `{JSONApi}.

Lemma try_catch_sentinel {A} (m : outcome A) (v : A) :
  exists x, try_catch m (fun _ => mret v) = Ret x.
Proof. destruct m; cbn; eauto. Qed.

Lemma try_catch_throw {A} (m : outcome A) (v : A) e :
  m = Throw e -> try_catch m (fun _ => mret v) = Ret v.
Proof. now intros ->. Qed.

(** When the transport fails, the page loop of [findVaultGist] throws at its
    first request. *)
Lemma findVaultGist_pages_offline token pages :
  (forall req, exists e, fetch req = Throw e) ->
  pages <> [] ->
  exists e, Gist.findVaultGist_pages fetch token pages = Throw e.
Proof.
  intros Hdown Hpages. destruct pages as [|page later]; [congruence|].
  cbn [Gist.findVaultGist_pages].
  destruct (Hdown (Gist.mk_request
                     (Gist.API_BASE ++ js "/gists?per_page=100&page="
                      ++ Gist.page_to_string page)
                     "GET" (Gist.headers token) None)) as [e ->].
  now exists e.
Qed.

(** C7. Each of the five operations of the remote store returns for every
    input and every behaviour of the transport, never throwing; a transport
    that fails, and a response that is not ok, give the sentinel of the
    operation: [valid: false], [null], [null], [null], [false]; so does a
    body that is not JSON wherever the operation reads the body. *)
Theorem remote_store_never_throws (token gistId : jsstring)
    (handle : option jsstring) (data : VaultData) :
  ((exists v, Gist.validateToken fetch token = Ret v)
   /\ (exists v, Gist.findVaultGist fetch token = Ret v)
   /\ (exists v, Gist.loadFromGist fetch token gistId = Ret v)
   /\ (exists v, Gist.saveToGist fetch token handle data = Ret v)
   /\ (exists b, Gist.deleteGist fetch token gistId = Ret (VBool b)))
  /\ ((forall req, exists e, fetch req = Throw e) ->
      Gist.validateToken fetch token = Ret (VObj [(js "valid", VBool false)])
      /\ Gist.findVaultGist fetch token = Ret VNull
      /\ Gist.loadFromGist fetch token gistId = Ret VNull
      /\ Gist.saveToGist fetch token handle data = Ret VNull
      /\ Gist.deleteGist fetch token gistId = Ret (VBool false))
  /\ ((forall req, exists res, fetch req = Ret res /\ Gist.res_not_ok res) ->
      Gist.validateToken fetch token = Ret (VObj [(js "valid", VBool false)])
      /\ Gist.findVaultGist fetch token = Ret VNull
      /\ Gist.loadFromGist fetch token gistId = Ret VNull
      /\ Gist.saveToGist fetch token handle data = Ret VNull
      /\ Gist.deleteGist fetch token gistId = Ret (VBool false))
  /\ ((forall req, exists res e,
         fetch req = Ret res /\ Gist.res_ok res = true
         /\ Gist.res_json res = Throw e) ->
      Gist.validateToken fetch token = Ret (VObj [(js "valid", VBool false)])
      /\ Gist.findVaultGist fetch token = Ret VNull
      /\ Gist.loadFromGist fetch token gistId = Ret VNull
      /\ Gist.saveToGist fetch token None data = Ret VNull).
Proof.
  split; [|split; [|split]].
  - repeat split; try apply try_catch_sentinel.
    unfold Gist.deleteGist.
    destruct (fetch _) as [res|e]; cbn; eauto.
  - intros Hdown.
    assert (Hreq : forall req {A} (k : Gist.response -> outcome A),
               exists e, (res ← fetch req; k res) = Throw e).
    { intros req A k. destruct (Hdown req) as [e ->]. now exists e. }
    repeat split.
    + unfold Gist.validateToken. destruct (Hreq (Gist.mk_request
        (Gist.API_BASE ++ js "/user") "GET" (Gist.headers token) None) _
        (fun res => if negb (Gist.res_ok res)
                    then mret (VObj [(js "valid", VBool false)])
                    else data ← Gist.res_json res;
                         login ← get_prop data (js "login");
                         mret (VObj [(js "valid", VBool true);
                                     (js "username", login)]))) as [e He].
      now apply (try_catch_throw _ _ e).
    + unfold Gist.findVaultGist.
      destruct (findVaultGist_pages_offline token [1; 2; 3] Hdown) as [e He];
        [discriminate|].
      now apply (try_catch_throw _ _ e).
    + unfold Gist.loadFromGist.
      destruct (Hdown (Gist.mk_request (Gist.API_BASE ++ js "/gists/" ++ gistId)
                         "GET" (Gist.headers token) None)) as [e He].
      rewrite He. reflexivity.
    + unfold Gist.saveToGist.
      destruct handle as [gid|]; cbn [truthy_opt]; [destruct (truthy_str gid)|];
        match goal with
        | |- context [fetch ?req] => destruct (Hdown req) as [e ->]
        end; reflexivity.
    + unfold Gist.deleteGist.
      destruct (Hdown (Gist.mk_request (Gist.API_BASE ++ js "/gists/" ++ gistId)
                         "DELETE" (Gist.headers token) None)) as [e He].
      rewrite He. reflexivity.
  - intros Hbad.
    repeat split;
      unfold Gist.validateToken, Gist.findVaultGist, Gist.loadFromGist,
        Gist.saveToGist, Gist.deleteGist;
      cbn [Gist.findVaultGist_pages];
      try (destruct handle as [gid|]; cbn [truthy_opt];
           [destruct (truthy_str gid)|]);
      repeat match goal with
      | |- context [fetch ?req] =>
          let res := fresh "res" in
          let Hok := fresh "Hok" in
          let Hst := fresh "Hst" in
          destruct (Hbad req) as (res & -> & Hok & Hst);
          unfold mbind, outcome_bind, bind; rewrite Hok, ?Hst
      end;
      reflexivity.
  - intros Hbody.
    repeat split;
      unfold Gist.validateToken, Gist.findVaultGist, Gist.loadFromGist,
        Gist.saveToGist;
      cbn [Gist.findVaultGist_pages truthy_opt];
      repeat match goal with
      | |- context [fetch ?req] =>
          let res := fresh "res" in
          let e := fresh "e" in
          let Hok := fresh "Hok" in
          let Hjson := fresh "Hjson" in
          destruct (Hbody req) as (res & e & -> & Hok & Hjson);
          unfold mbind, outcome_bind, bind; rewrite Hok, Hjson
      end;
      reflexivity.
Qed.

End GistFacts.
(** ** Running [MainApp] *)

Lemma bindM_ret {A B} (m : M A) (k : A -> M B) s s' a :
  m s = (s', Ret a) -> bindM m k s = k a s'.
Proof. unfold bindM. now intros ->. Qed.


Lemma try_M_ret {A} (m : M A) (h : exn -> M A) s s' a :
  m s = (s', Ret a) -> try_M m h s = (s', Ret a).
Proof. unfold try_M. now intros ->. Qed.

Lemma try_M_throw {A} (m : M A) (h : exn -> M A) s s' e :
  m s = (s', Throw e) -> try_M m h s = h e s'.
Proof. unfold try_M. now intros ->. Qed.

(** Reduction of the monad's combinators and of the state's accessors,
    leaving the documents and the calls of the environment folded. *)
Ltac unfold_M :=
  unfold exec, setPrompts, setSyncStatus, setSyncMessage, setDataLoaded,
    set_tokenRef_current, localStorage_setItem, localStorage_getItem,
    Date_now, cancelled, encrypt_call, saveToGist_call, if_truthy, when,
    bindM, try_M, ret, gets, modify, lift, await.
Ltac simpl_state :=
  cbn [fst snd negb andb commit
       s_prompts s_syncStatus s_syncMessage s_dataLoaded tokenRef saveTimeoutRef localStorage timers next_timer clock awaits encrypt_calls uuid_calls upserts commits set_s_prompts set_s_syncStatus set_s_syncMessage set_s_dataLoaded set_tokenRef set_saveTimeoutRef set_localStorage set_timers set_next_timer set_clock set_awaits set_encrypt_calls set_uuid_calls set_upserts set_commits].
Ltac run_M := unfold_M; simpl_state.


(** ** C3: the remote dataset wins at bootstrap *)

Section Bootstrap.
Context `{WebCrypto} `{JSONApi}.
Variable env : Env.
Variable pin : jsstring.

Lemma getDefaultData_run s :
  getDefaultData env s
  = (set_uuid_calls (S (S (S (uuid_calls s)))) s, Ret (defaults_at env s)).
Proof. reflexivity. Qed.

(** The cache block never throws and touches only the displayed dataset,
    the loaded flag and the await count. *)
Lemma init_cache_frame teardown s :
  exists s',
    init_cache env pin teardown s = (s', Ret tt)
    /\ tokenRef s' = tokenRef s
    /\ localStorage s' = localStorage s
    /\ encrypt_calls s' = encrypt_calls s
    /\ uuid_calls s' = uuid_calls s
    /\ upserts s' = upserts s
    /\ clock s' = clock s
    /\ s_syncStatus s' = s_syncStatus s
    /\ s_syncMessage s' = s_syncMessage s
    /\ (awaits s <= awaits s')%nat.
Proof.
  unfold init_cache, bindM, localStorage_getItem, gets, if_truthy.
  destruct (localStorage s !! LS_ENCRYPTED_CACHE) as [encCache|];
    [destruct (truthy_str encCache)|];
    try (eexists; repeat split; reflexivity).
  unfold try_M, bindM, await, lift, cancelled, gets, when.
  destruct (decrypt encCache pin) as [cacheJson|e]; cbn;
    [|eexists; repeat split; cbn; auto].
  destruct (parse_VaultData env cacheJson) as [cacheData|e]; cbn;
    [|eexists; repeat split; cbn; auto].
  destruct teardown as [k|]; [destruct (bool_decide _)|]; cbn;
    eexists; repeat split; cbn; auto.
Qed.


Lemma init_token_ok s encToken token :
  localStorage s !! LS_ENCRYPTED_TOKEN = Some encToken ->
  truthy_str encToken = true ->
  decrypt encToken pin = Ret token ->
  init_token pin s
  = (commit "tokenRef" (set_tokenRef (Some token) (set_awaits (S (awaits s)) s)),
     Ret tt).
Proof.
  intros Hls Htruthy Hdec.
  unfold init_token, bindM, localStorage_getItem, gets, if_truthy.
  rewrite Hls, Htruthy. unfold await. now rewrite Hdec.
Qed.

(** Adopting a fetched dataset: it is displayed, sealed under the pin with
    fresh random values, and the envelope replaces the cache entry when the
    storage accepts it. *)
Lemma adopt_remote_run gistData message s :
  setItem_accepts env (localStorage s) LS_ENCRYPTED_CACHE
    (envelope_of (getRandomValues env (encrypt_calls s)) (stringify gistData) pin)
  = true ->
  exists s',
    adopt_remote env pin gistData message s = (s', Ret tt)
    /\ s_prompts s' = prompts gistData
    /\ s_syncStatus s' = synced
    /\ s_dataLoaded s' = true
    /\ localStorage s'
       = <[LS_ENCRYPTED_CACHE :=
             envelope_of (getRandomValues env (encrypt_calls s))
               (stringify gistData) pin]> (localStorage s)
    /\ upserts s' = upserts s
    /\ tokenRef s' = tokenRef s.
Proof.
  intros Hacc.
  unfold adopt_remote, bindM, setPrompts, modify, encrypt_call, await,
    localStorage_setItem.
  cbn. rewrite encrypt_returns. cbn. rewrite Hacc.
  destruct message; eexists; repeat split.
Qed.

(** When the storage refuses the envelope, [setItem] throws out of the
    block: the dataset is on display already, the status, the message and
    the loaded flag are not set. *)
Lemma adopt_remote_refused gistData message s :
  setItem_accepts env (localStorage s) LS_ENCRYPTED_CACHE
    (envelope_of (getRandomValues env (encrypt_calls s)) (stringify gistData) pin)
  = false ->
  exists s',
    adopt_remote env pin gistData message s = (s', Throw QuotaExceededError)
    /\ s_prompts s' = prompts gistData
    /\ s_syncStatus s' = s_syncStatus s
    /\ s_syncMessage s' = s_syncMessage s
    /\ s_dataLoaded s' = s_dataLoaded s
    /\ localStorage s' = localStorage s
    /\ upserts s' = upserts s
    /\ tokenRef s' = tokenRef s.
Proof.
  intros Hacc.
  unfold adopt_remote, bindM, setPrompts, modify, encrypt_call, await,
    localStorage_setItem.
  cbn. rewrite encrypt_returns. cbn. rewrite Hacc.
  eexists; repeat split.
Qed.

(** C3, as amended. At the bootstrap of a live session, when the handle is
    stored and the fetch of the remote dataset succeeds, the outcome turns
    on the write of the cache entry. When the storage accepts the envelope,
    the fetched dataset replaces the displayed one whatever the cache block
    had displayed, the cache entry is rewritten to an envelope that decrypts
    under the pin to the JSON text of the fetched dataset, nothing is sent to
    the remote store, and the status ends as [synced]. When the storage
    refuses it, [setItem] throws into the [catch] block of [init]: nothing
    is thrown to the caller, the storage is as it was, nothing is sent, and
    the status ends as [error] with its message. *)
Theorem bootstrap_remote_wins s0 encToken token gistId remote :
  localStorage s0 !! LS_ENCRYPTED_TOKEN = Some encToken ->
  truthy_str encToken = true ->
  decrypt encToken pin = Ret token ->
  truthy_str token = true ->
  localStorage s0 !! LS_GIST_ID = Some gistId ->
  truthy_str gistId = true ->
  loadFromGist env token gistId = Ret (Some remote) ->
  entropy_ok (getRandomValues env (encrypt_calls s0)) ->
  well_formed (stringify remote) = true ->
  starts_with_bom (stringify remote) = false ->
  let cache :=
    envelope_of (getRandomValues env (encrypt_calls s0)) (stringify remote) pin in
  (setItem_accepts env (localStorage s0) LS_ENCRYPTED_CACHE cache = true ->
   exists s,
     mount env pin None s0 = (s, Ret tt)
     /\ s_prompts s = prompts remote
     /\ s_syncStatus s = synced
     /\ s_dataLoaded s = true
     /\ localStorage s = <[LS_ENCRYPTED_CACHE := cache]> (localStorage s0)
     /\ decrypt cache pin = Ret (stringify remote)
     /\ upserts s = upserts s0)
  /\ (setItem_accepts env (localStorage s0) LS_ENCRYPTED_CACHE cache = false ->
      exists s,
        mount env pin None s0 = (s, Ret tt)
        /\ s_syncStatus s = error
        /\ s_syncMessage s = utf8 "Ошибка загрузки"
        /\ localStorage s = localStorage s0
        /\ upserts s = upserts s0).
Proof.
  intros Hls Htruthy Hdec Htok Hgid Hgtruthy Hload Hrnd Hwf Hbom cache.
  unfold mount, init.
  pose proof (init_token_ok s0 encToken token Hls Htruthy Hdec) as Htoken.
  set (s1 := commit "tokenRef" _) in Htoken.
  destruct (init_cache_frame None s1)
    as (s2 & Hcache & Htr & Hl & Hec & Huu & Hup & Hck & Hst & Hmsg & Haw).
  set (s3 := commit "syncStatus" (set_s_syncStatus syncing s2)).
  set (s3' := set_awaits (S (awaits s3)) s3).
  assert (Hls3 : localStorage s3' = localStorage s0).
  { subst s3' s3. simpl_state. rewrite Hl. subst s1. reflexivity. }
  assert (Hec3 : encrypt_calls s3' = encrypt_calls s0).
  { subst s3' s3. simpl_state. rewrite Hec. subst s1. reflexivity. }
  assert (Hup3 : upserts s3' = upserts s0).
  { subst s3' s3. simpl_state. rewrite Hup. subst s1. reflexivity. }
  assert (Hrun : forall r,
            adopt_remote env pin remote (Some (utf8 "Синхронизировано")) s3' = r ->
            (init_token pin;; init_cache env pin None;;
             current <- gets tokenRef;;
             if_truthy current
               (fun token => init_sync env pin false None token)
               (init_offline env false None)) s0
            = match r with
              | (s', Ret _) => (s', Ret tt)
              | (s', Throw e) => (s', Throw e)
              end).
  { intros r Hr.
    erewrite bindM_ret by exact Htoken.
    erewrite bindM_ret by exact Hcache.
    unfold bindM at 1, gets at 1. rewrite Htr.
    cbn [tokenRef s1 set_tokenRef commit set_commits].
    unfold if_truthy. rewrite Htok.
    unfold init_sync, cancelled, bindM at 1, gets at 1, when at 1. cbn [negb].
    unfold bindM at 1, setSyncStatus at 1, modify at 1. fold s3.
    unfold bindM at 1, localStorage_getItem at 1, gets at 1.
    replace (localStorage s3 !! LS_GIST_ID) with (Some gistId)
      by (cbn; rewrite Hl; cbn; now rewrite Hgid).
    unfold sync_known_gist, if_truthy. rewrite Hgtruthy.
    unfold bindM at 1. unfold bindM at 1, await at 1. rewrite Hload. fold s3'.
    unfold known_gist_fetched, bindM at 1, cancelled, gets at 1. cbn [negb].
    unfold bindM at 1. rewrite Hr.
    destruct r as [s' [[]|e]]; reflexivity. }
  split; intros Hacc.
  - destruct (adopt_remote_run remote (Some (utf8 "Синхронизировано")) s3')
      as (s4 & Hadopt & Hp & Hs & Hd & Hls4 & Hup4 & _).
    { rewrite Hls3, Hec3. exact Hacc. }
    exists s4. split.
    { apply try_M_ret. now rewrite (Hrun _ Hadopt). }
    repeat split; auto.
    + rewrite Hls4, Hls3, Hec3. reflexivity.
    + unfold cache. rewrite decrypt_envelope by assumption.
      now rewrite TextDecoder_TextEncoder.
    + now rewrite Hup4.
  - destruct (adopt_remote_refused remote (Some (utf8 "Синхронизировано")) s3')
      as (s4 & Hadopt & Hp & Hs & Hm & Hd & Hls4 & Hup4 & _).
    { rewrite Hls3, Hec3. exact Hacc. }
    erewrite try_M_throw by (now rewrite (Hrun _ Hadopt)).
    unfold init_catch. run_M. rewrite getDefaultData_run. simpl_state.
    eexists. split; [reflexivity|]. simpl_state.
    repeat split; [now rewrite Hls4 | now rewrite Hup4].
Qed.

(** [init] is [init_to_fetch] and then, once the fetch of the stored handle
    has settled, [init_from_fetch]. *)
Lemma init_suspends dataLoaded teardown s0 s1 token gistId :
  init_to_fetch env pin teardown s0 = (s1, Ret tt) ->
  tokenRef s1 = Some token -> truthy_str token = true ->
  localStorage s1 !! LS_GIST_ID = Some gistId -> truthy_str gistId = true ->
  init env pin dataLoaded teardown s0
  = init_from_fetch env pin dataLoaded teardown token (Some gistId)
      (loadFromGist env token gistId) s1.
Proof.
  unfold init_to_fetch, init, init_from_fetch, init_sync, sync_known_gist.
  unfold try_M, bindM, localStorage_getItem, gets.
  destruct (init_token pin s0) as [sa [[]|e]]; [|discriminate].
  destruct (init_cache env pin teardown sa) as [sb [[]|e]]; [|discriminate].
  unfold cancelled, gets, when, setSyncStatus, modify, ret.
  intros Hrun Htok Htruthy Hgid Hg.
  assert (Hsame : tokenRef s1 = tokenRef sb /\ localStorage s1 = localStorage sb).
  { revert Hrun. destruct (negb _); now intros [= <-]. }
  destruct Hsame as [Ht Hl]. rewrite Ht in Htok. rewrite Hl in Hgid.
  rewrite Htok. unfold if_truthy. rewrite Htruthy. simpl_state.
  revert Hrun. destruct (negb _); intros [= <-]; simpl_state;
    rewrite Hgid, Hg; unfold await;
    destruct (loadFromGist env token gistId); reflexivity.
Qed.

End Bootstrap.

(** ** C8 and C4: bootstrap failures *)

Section BootstrapFailures.
Context `{WebCrypto} `{JSONApi}.
Variable env : Env.
Variable pin : jsstring.


(** A known handle whose fetch answers [null]: [init] falls through to the
    block that installs the defaults, because the [dataLoaded] it tests is
    the constant [false] of the first render. *)
Lemma mount_fetch_failure s0 encToken token gistId created :
  localStorage s0 !! LS_ENCRYPTED_TOKEN = Some encToken ->
  truthy_str encToken = true ->
  decrypt encToken pin = Ret token ->
  truthy_str token = true ->
  localStorage s0 !! LS_GIST_ID = Some gistId ->
  truthy_str gistId = true ->
  loadFromGist env token gistId = Ret None ->
  saveToGist env token None (defaults_at env s0) = Ret created ->
  accepts_writes env (localStorage s0)
    (writes_if created
       (fun newGistId =>
          [(LS_GIST_ID, newGistId);
           (LS_ENCRYPTED_CACHE,
            envelope_of (getRandomValues env (encrypt_calls s0))
              (stringify (defaults_at env s0)) pin)])) = true ->
  exists s,
    mount env pin None s0 = (s, Ret tt)
    /\ s_prompts s = prompts (defaults_at env s0)
    /\ s_syncStatus s = synced
    /\ upserts s = upserts s0 ++ [(token, None, defaults_at env s0)].
Proof.
  intros Hls Htruthy Hdec Htok Hgid Hgtruthy Hload Hsave Hacc.
  unfold mount, init.
  pose proof (init_token_ok pin s0 encToken token Hls Htruthy Hdec) as Htoken.
  set (s1 := commit "tokenRef" _) in Htoken.
  destruct (init_cache_frame env pin None s1)
    as (s2 & Hcache & Htr & Hl & Hec & Huu & Hup & Hck & Hst & Hmsg & Haw).
  set (s3 := commit "syncStatus" (set_s_syncStatus syncing s2)).
  set (s4 := set_awaits (S (awaits s3)) s3).
  assert (Hdef : defaults_at env s4 = defaults_at env s0).
  { unfold defaults_at. cbn. now rewrite Huu, Hck. }
  assert (Hls4 : localStorage s4 = localStorage s0).
  { subst s4 s3. simpl_state. rewrite Hl. subst s1. reflexivity. }
  assert (Hec4 : encrypt_calls s4 = encrypt_calls s0).
  { subst s4 s3. simpl_state. rewrite Hec. subst s1. reflexivity. }
  assert (Hup4 : upserts s4 = upserts s0).
  { subst s4 s3. simpl_state. rewrite Hup. subst s1. reflexivity. }
  assert (Hrun : forall rest : M unit,
            (init_token pin;; init_cache env pin None;;
             current <- gets tokenRef;;
             if_truthy current
               (fun token => init_sync env pin false None token)
               (init_offline env false None)) s0
            = (defaults <- getDefaultData env;;
               setPrompts (prompts defaults);;
               setDataLoaded true;;
               newGistId <- saveToGist_call env token None defaults;;
               if_truthy newGistId
                 (fun newGistId =>
                    localStorage_setItem env LS_GIST_ID newGistId;;
                    encrypted <- encrypt_call env pin (stringify defaults);;
                    localStorage_setItem env LS_ENCRYPTED_CACHE encrypted)
                 (ret tt);;
               setSyncStatus synced) s4).
  { intros _.
    erewrite bindM_ret by exact Htoken.
    erewrite bindM_ret by exact Hcache.
    unfold bindM at 1, gets at 1. rewrite Htr. cbn [tokenRef s1 set_tokenRef commit set_commits].
    unfold if_truthy at 1. rewrite Htok.
    unfold init_sync, cancelled, bindM at 1, gets at 1, when at 1. cbn [negb].
    unfold bindM at 1, setSyncStatus at 1, modify at 1. fold s3.
    unfold bindM at 1, localStorage_getItem at 1, gets at 1.
    replace (localStorage s3 !! LS_GIST_ID) with (Some gistId)
      by (cbn; rewrite Hl; cbn; now rewrite Hgid).
    erewrite bindM_ret; cycle 1.
    { unfold sync_known_gist, if_truthy. rewrite Hgtruthy.
      unfold bindM at 1, await at 1. rewrite Hload.
      unfold known_gist_fetched, bindM at 1, cancelled, gets. reflexivity. }
    unfold sync_rest.
    erewrite bindM_ret; cycle 1.
    { unfold sync_find_gist, if_truthy. rewrite Hgtruthy. reflexivity. }
    cbn match.
    unfold sync_create_gist, cancelled. unfold bindM at 1, gets at 1, when.
    cbn [negb andb]. reflexivity. }
  unfold try_M. rewrite (Hrun (ret tt)). clear Hrun.
  erewrite bindM_ret by apply getDefaultData_run. rewrite Hdef.
  clearbody s4. clear Htoken Hcache.
  run_M. rewrite Hsave.
  unfold writes_if in Hacc.
  destruct created as [newGistId|]; [destruct (truthy_str newGistId) eqn:Hn|];
    simpl_state.
  - cbn [accepts_writes] in Hacc.
    apply andb_prop in Hacc as [Ha1 Ha2]. apply andb_prop in Ha2 as [Ha2 _].
    rewrite Hls4, Ha1. simpl_state. rewrite encrypt_returns. simpl_state.
    rewrite Hec4, Ha2. simpl_state.
    eexists; split; [reflexivity|]; simpl_state; rewrite ?Hup4; auto.
  - eexists; split; [reflexivity|]; simpl_state; rewrite ?Hup4; auto.
  - eexists; split; [reflexivity|]; simpl_state; rewrite ?Hup4; auto.
Qed.

End BootstrapFailures.


(** ** C6: a failed propagation keeps the edits *)

Section Propagation.
Context `{WebCrypto} `{JSONApi}.
Variable env : Env.
Variable pin : jsstring.


(** C6. When the upsert of a propagation attempt fails ([saveToGist] answers
    the failure sentinel or throws), [saveToCloud] itself does not throw and
    leaves the in-memory prompts, the loaded flag, the credential, the
    pending timeouts and the storage as they were; only the status and the
    message change, to [error]. *)
Theorem saveToCloud_failure_keeps_prompts s token promptsToSave :
  tokenRef s = Some token -> truthy_str token = true ->
  upsert_failed (saveToGist env token (localStorage s !! LS_GIST_ID)
                   (outgoing promptsToSave s)) = true ->
  exists s',
    saveToCloud env pin promptsToSave s = (s', Ret tt)
    /\ s_prompts s' = s_prompts s
    /\ s_dataLoaded s' = s_dataLoaded s
    /\ tokenRef s' = tokenRef s
    /\ saveTimeoutRef s' = saveTimeoutRef s
    /\ timers s' = timers s
    /\ localStorage s' = localStorage s
    /\ s_syncStatus s' = error
    /\ s_syncMessage s' = utf8 "Ошибка сохранения"
    /\ upserts s'
       = upserts s ++ [(token, localStorage s !! LS_GIST_ID, outgoing promptsToSave s)].
Proof.
  intros Htok Htruthy Hfail. unfold saveToCloud.
  unfold bindM at 1, gets at 1. rewrite Htok. unfold if_truthy at 1. rewrite Htruthy.
  run_M. fold (outgoing promptsToSave s).
  destruct (saveToGist env token (localStorage s !! LS_GIST_ID) (outgoing promptsToSave s))
    as [[resultId|]|e]; cbn [upsert_failed truthy_opt negb] in Hfail.
  - apply negb_true_iff in Hfail. rewrite Hfail. simpl_state.
    eexists. split; [reflexivity|]. simpl_state. repeat split; auto.
  - simpl_state. eexists. split; [reflexivity|]. simpl_state. repeat split; auto.
  - simpl_state. eexists. split; [reflexivity|]. simpl_state. repeat split; auto.
Qed.

End Propagation.

(** ** C9: teardown during bootstrap *)








Section Teardown.
Context `{WebCrypto} `{JSONApi}.
Variable env : Env.
Variable pin : jsstring.
Variable k : nat.







End Teardown.
(** ** The timeouts of a session *)

(** The bootstrap and the propagation leave the timeouts alone. *)

Lemma keeps_ret {A} (a : A) : keeps_timers (ret a).
Proof. now intros s. Qed.

Lemma keeps_bindM {A B} (m : M A) (k : A -> M B) :
  keeps_timers m -> (forall a, keeps_timers (k a)) -> keeps_timers (bindM m k).
Proof.
  intros Hm Hk s. unfold bindM. specialize (Hm s).
  destruct (m s) as [s' [a|e]]; cbn [fst] in *; [|assumption].
  now rewrite Hk.
Qed.

Lemma keeps_try_M {A} (m : M A) (h : exn -> M A) :
  keeps_timers m -> (forall e, keeps_timers (h e)) -> keeps_timers (try_M m h).
Proof.
  intros Hm Hh s. unfold try_M. specialize (Hm s).
  destruct (m s) as [s' [a|e]]; cbn [fst] in *; [assumption|].
  now rewrite Hh.
Qed.

Lemma keeps_gets {A} (f : state -> A) : keeps_timers (gets f).
Proof. now intros s. Qed.

Lemma keeps_lift {A} (p : outcome A) : keeps_timers (lift p).
Proof. now intros s. Qed.

Lemma keeps_await {A} (p : outcome A) : keeps_timers (await p).
Proof. now intros s. Qed.

Lemma keeps_when b (m : M unit) : keeps_timers m -> keeps_timers (when b m).
Proof. destruct b; [trivial | intros _; apply keeps_ret]. Qed.

Lemma keeps_if_truthy {A} x (k : jsstring -> M A) (els : M A) :
  (forall v, keeps_timers (k v)) -> keeps_timers els ->
  keeps_timers (if_truthy x k els).
Proof.
  intros Hk He. unfold if_truthy.
  destruct x as [v|]; [destruct (truthy_str v)|]; auto.
Qed.

Lemma keeps_setPrompts v : keeps_timers (setPrompts v).
Proof. now intros s. Qed.
Lemma keeps_setSyncStatus v : keeps_timers (setSyncStatus v).
Proof. now intros s. Qed.
Lemma keeps_setSyncMessage v : keeps_timers (setSyncMessage v).
Proof. now intros s. Qed.
Lemma keeps_setDataLoaded v : keeps_timers (setDataLoaded v).
Proof. now intros s. Qed.
Lemma keeps_set_tokenRef_current v : keeps_timers (set_tokenRef_current v).
Proof. now intros s. Qed.
Lemma keeps_localStorage_getItem k : keeps_timers (localStorage_getItem k).
Proof. now intros s. Qed.
Lemma keeps_localStorage_setItem env k v :
  keeps_timers (localStorage_setItem env k v).
Proof.
  intros s. unfold localStorage_setItem.
  now destruct (setItem_accepts env (localStorage s) k v).
Qed.

Create HintDb timers.
#[local] Hint Resolve keeps_ret keeps_gets keeps_lift keeps_await keeps_when
  keeps_setPrompts keeps_setSyncStatus keeps_setSyncMessage keeps_setDataLoaded
  keeps_set_tokenRef_current keeps_localStorage_getItem
  keeps_localStorage_setItem : timers.

Ltac keeps :=
  repeat first
    [ progress auto with timers
    | apply keeps_bindM
    | apply keeps_try_M
    | apply keeps_if_truthy
    | apply keeps_when
    | match goal with
      | |- forall _, _ => intro
      | |- keeps_timers (match ?x with _ => _ end) => destruct x
      | |- keeps_timers (if ?b then _ else _) => destruct b
      end ].

Section TimerFrame.
Context `{WebCrypto} `{JSONApi}.
Variable env : Env.
Variable pin : jsstring.

Lemma keeps_cancelled teardown : keeps_timers (cancelled teardown).
Proof. now intros s. Qed.

Lemma keeps_encrypt_call plaintext : keeps_timers (encrypt_call env pin plaintext).
Proof. now intros s. Qed.

Lemma keeps_saveToGist_call token gistId data :
  keeps_timers (saveToGist_call env token gistId data).
Proof. now intros s. Qed.

Lemma keeps_getDefaultData : keeps_timers (getDefaultData env).
Proof. now intros s. Qed.

#[local] Hint Resolve keeps_cancelled keeps_encrypt_call keeps_saveToGist_call
  keeps_getDefaultData : timers.

Lemma keeps_adopt_remote gistData message :
  keeps_timers (adopt_remote env pin gistData message).
Proof. unfold adopt_remote. keeps. Qed.

#[local] Hint Resolve keeps_adopt_remote : timers.

Lemma keeps_init dataLoaded teardown : keeps_timers (init env pin dataLoaded teardown).
Proof.
  unfold init, init_token, init_cache, init_sync, init_offline, init_catch,
    sync_rest, sync_known_gist, known_gist_fetched, sync_find_gist,
    sync_create_gist.
  keeps.
Qed.

Lemma keeps_init_to_fetch teardown : keeps_timers (init_to_fetch env pin teardown).
Proof. unfold init_to_fetch, init_token, init_cache. keeps. Qed.

Lemma keeps_init_from_fetch dataLoaded teardown token gistId gistData :
  keeps_timers (init_from_fetch env pin dataLoaded teardown token gistId gistData).
Proof.
  unfold init_from_fetch, init_catch, sync_rest, known_gist_fetched,
    sync_find_gist, sync_create_gist.
  keeps.
Qed.

Lemma keeps_forceSync : keeps_timers (forceSync env pin).
Proof. unfold forceSync. keeps. Qed.

Lemma keeps_saveToCloud promptsToSave : keeps_timers (saveToCloud env pin promptsToSave).
Proof. unfold saveToCloud, Date_now. keeps. Qed.

End TimerFrame.

(** ** C5: debounced propagation *)

Section Debounce.
Context `{WebCrypto} `{JSONApi}.
Variable env : Env.
Variable pin : jsstring.

Lemma advance_not_due t s :
  one_pending s -> not_due t s ->
  advance env pin t s = set_clock (Z.max (clock s) t) s.
Proof.
  intros [_ [Hnone | (h & due & arg & Hone & _)]] Hdue; unfold advance.
  - now rewrite Hnone.
  - rewrite Hone. cbn [fold_left fst snd].
    assert (t < due)%Z by (apply (Hdue h due arg); rewrite Hone; now left).
    destruct (Z.leb_spec due t); [lia|]. reflexivity.
Qed.

Lemma drop_timer_single h due arg :
  drop_timer h [(h, (due, arg))] = [].
Proof. unfold drop_timer. cbn. now rewrite Nat.eqb_refl. Qed.

(** One mutation that arrives before the pending timeout is due: the
    timeout is replaced by a fresh one carrying the new dataset. *)
Lemma mutate_reschedules s (m : mutation) :
  one_pending s -> not_due (fst m) s ->
  let s' := mutate env pin s m in
  timers s' = [(next_timer s, (Z.max (clock s) (fst m) + SAVE_DELAY, snd m (s_prompts s))%Z)]
  /\ saveTimeoutRef s' = Some (next_timer s)
  /\ next_timer s' = S (next_timer s)
  /\ clock s' = Z.max (clock s) (fst m)
  /\ s_prompts s' = snd m (s_prompts s)
  /\ upserts s' = upserts s
  /\ tokenRef s' = tokenRef s
  /\ localStorage s' = localStorage s.
Proof.
  intros Hinv Hdue s'. subst s'. unfold mutate.
  rewrite advance_not_due by assumption.
  destruct Hinv as [Hnext [Hnone | (h & due & arg & Hone & Href & Hh)]].
  - unfold modifyPrompts, debouncedSave, setTimeout, clearTimeout. run_M.
    destruct (saveTimeoutRef s) as [h|]; [destruct (h =? 0)%nat|];
      simpl_state; rewrite ?Hnone; cbn; repeat split.
  - unfold modifyPrompts, debouncedSave, setTimeout, clearTimeout. run_M.
    rewrite Href. apply Nat.eqb_neq in Hh. rewrite Hh. simpl_state.
    rewrite Hone, drop_timer_single. cbn. repeat split.
Qed.

(** A burst leaves exactly one timeout pending, carrying the dataset after
    all its mutations, and calls [saveToGist] not once. *)
Lemma run_mutations_burst ms : forall s (m : mutation),
  one_pending s -> not_due (fst m) s -> within_window (m :: ms) = true ->
  let s' := run_mutations env pin (m :: ms) s in
  (exists h due,
      timers s' = [(h, (due, apply_all (m :: ms) (s_prompts s)))]
      /\ saveTimeoutRef s' = Some h /\ h <> 0%nat)
  /\ s_prompts s' = apply_all (m :: ms) (s_prompts s)
  /\ upserts s' = upserts s
  /\ tokenRef s' = tokenRef s
  /\ localStorage s' = localStorage s.
Proof.
  induction ms as [|m2 ms IH]; intros s m Hinv Hdue Hwin.
  - destruct (mutate_reschedules s m Hinv Hdue)
      as (Ht & Hr & Hn & Hc & Hp & Hu & Htok & Hl).
    cbn. repeat split; auto. do 2 eexists. split; [exact Ht|].
    split; [exact Hr|]. destruct Hinv. lia.
  - destruct (mutate_reschedules s m Hinv Hdue)
      as (Ht & Hr & Hn & Hc & Hp & Hu & Htok & Hl).
    cbn [within_window] in Hwin. apply andb_true_iff in Hwin as [Hnext Hwin].
    apply Z.ltb_lt in Hnext.
    set (s1 := mutate env pin s m) in *.
    assert (Hinv1 : one_pending s1).
    { split; [rewrite Hn; lia|]. right. do 3 eexists. split; [exact Ht|].
      split; [exact Hr|]. destruct Hinv. lia. }
    assert (Hdue1 : not_due (fst m2) s1).
    { intros h due arg Hin. rewrite Ht in Hin. destruct Hin as [[= <- <- <-]|[]]. lia. }
    specialize (IH s1 m2 Hinv1 Hdue1 Hwin).
    change (run_mutations env pin (m :: m2 :: ms) s)
      with (run_mutations env pin (m2 :: ms) s1).
    change (apply_all (m :: m2 :: ms) (s_prompts s))
      with (apply_all (m2 :: ms) (snd m (s_prompts s))).
    rewrite <- Hp, <- Hu, <- Htok, <- Hl. exact IH.
Qed.

(** With a credential, [saveToCloud] calls [saveToGist] exactly once, with
    the dataset it was given. *)
Lemma saveToCloud_upserts s token promptsToSave :
  tokenRef s = Some token -> truthy_str token = true ->
  upserts (exec (saveToCloud env pin promptsToSave) s)
  = upserts s ++ [(token, localStorage s !! LS_GIST_ID, outgoing promptsToSave s)].
Proof.
  intros Htok Htruthy. unfold saveToCloud.
  unfold exec, bindM at 1, gets at 1. rewrite Htok. unfold if_truthy at 1. rewrite Htruthy.
  run_M. fold (outgoing promptsToSave s).
  destruct (saveToGist env token (localStorage s !! LS_GIST_ID) (outgoing promptsToSave s))
    as [[resultId|]|e]; [destruct (truthy_str resultId)|..];
    simpl_state; try reflexivity.
  destruct (setItem_accepts env _ LS_GIST_ID resultId); simpl_state;
    [|reflexivity].
  rewrite encrypt_returns. simpl_state.
  destruct (setItem_accepts env _ LS_ENCRYPTED_CACHE _); reflexivity.
Qed.

(** Without one it returns at once. *)
Lemma saveToCloud_offline s promptsToSave :
  truthy_opt (tokenRef s) = false ->
  saveToCloud env pin promptsToSave s = (s, Ret tt).
Proof.
  intros Htok. unfold saveToCloud. run_M.
  destruct (tokenRef s) as [token|]; cbn [truthy_opt] in Htok; [rewrite Htok|];
    reflexivity.
Qed.

Lemma settle_single s h due arg token :
  timers s = [(h, (due, arg))] ->
  tokenRef s = Some token -> truthy_str token = true ->
  upserts (settle env pin s)
  = upserts s ++ [(token, localStorage s !! LS_GIST_ID,
                   mk_VaultData arg 1 (Z.max (clock s) due))].
Proof.
  intros Ht Htok Htruthy. unfold settle. rewrite Ht.
  cbn [fold_left fst snd]. unfold is_pending. rewrite Ht.
  cbn [existsb fst]. rewrite Nat.eqb_refl. cbn [orb].
  unfold fire. cbn [fst snd].
  unfold exec, bindM at 1, modify at 1.
  set (s1 := set_clock _ _).
  change ((saveToCloud env pin arg s1).1) with (exec (saveToCloud env pin arg) s1).
  rewrite (saveToCloud_upserts s1 token arg) by (subst s1; assumption).
  subst s1. reflexivity.
Qed.

Lemma one_pending_view s s' :
  timer_view s' = timer_view s -> one_pending s -> one_pending s'.
Proof.
  unfold timer_view, one_pending. intros [= Ht Hn Hr]. now rewrite Ht, Hn, Hr.
Qed.

Lemma one_pending_keeps {A} (m : M A) s :
  keeps_timers m -> one_pending s -> one_pending (exec m s).
Proof. intros Hm. apply one_pending_view, Hm. Qed.

Lemma one_pending_initial ls now : one_pending (initial_state ls now).
Proof. split; [cbn; lia | now left]. Qed.

Lemma fire_view s h due arg :
  timers s = [(h, (due, arg))] ->
  timer_view (exec (fire env pin (h, (due, arg))) s)
  = ([], next_timer s, saveTimeoutRef s).
Proof.
  intros Ht. unfold fire, exec, bindM, modify. cbn [fst snd].
  rewrite (keeps_saveToCloud env pin arg).
  unfold timer_view. simpl_state. now rewrite Ht, drop_timer_single.
Qed.

Lemma one_pending_fire s h due arg :
  one_pending s -> timers s = [(h, (due, arg))] ->
  one_pending (exec (fire env pin (h, (due, arg))) s).
Proof.
  intros [Hnext _] Ht. pose proof (fire_view s h due arg Ht) as Hview.
  unfold timer_view in Hview. injection Hview as Hta Hna Hra.
  split; [now rewrite Hna | now left].
Qed.

Lemma one_pending_advance t s : one_pending s -> one_pending (advance env pin t s).
Proof.
  intros Hinv. unfold advance.
  destruct (Hinv) as [Hnext [Hnone | (h & due & arg & Hone & Href & Hh)]].
  - rewrite Hnone. cbn [fold_left]. split; [exact Hnext | now left].
  - rewrite Hone. cbn [fold_left fst snd].
    destruct ((due <=? t)%Z && is_pending h s).
    + pose proof (fire_view s h due arg Hone) as Hview.
      unfold timer_view in Hview. injection Hview as Hta Hna Hra.
      split; [cbn [next_timer set_clock]; now rewrite Hna | left; exact Hta].
    + split; [exact Hnext | right; eauto 6].
Qed.

Lemma one_pending_settle s : one_pending s -> one_pending (settle env pin s).
Proof.
  intros Hinv. unfold settle.
  destruct (Hinv) as [Hnext [Hnone | (h & due & arg & Hone & Href & Hh)]].
  - rewrite Hnone. cbn [fold_left]. exact Hinv.
  - rewrite Hone. cbn [fold_left fst snd].
    destruct (is_pending h s).
    + exact (one_pending_fire s h due arg Hinv Hone).
    + exact Hinv.
Qed.

Lemma debouncedSave_view next s :
  one_pending s ->
  exists due,
    timer_view (exec (debouncedSave next) s)
    = ([(next_timer s, (due, next))], S (next_timer s), Some (next_timer s)).
Proof.
  intros [Hnext Hcases]. exists (clock s + SAVE_DELAY)%Z.
  unfold debouncedSave, setTimeout, clearTimeout, timer_view. run_M.
  destruct Hcases as [Hnone | (h & due & arg & Hone & Href & Hh)].
  - destruct (saveTimeoutRef s) as [h|]; [destruct (h =? 0)%nat|];
      simpl_state; now rewrite ?Hnone.
  - rewrite Href. apply Nat.eqb_neq in Hh. rewrite Hh. simpl_state.
    now rewrite Hone, drop_timer_single.
Qed.

Lemma one_pending_modifyPrompts fn s :
  one_pending s -> one_pending (exec (modifyPrompts fn) s).
Proof.
  intros Hinv. unfold modifyPrompts.
  unfold exec, bindM at 1, gets at 1, bindM at 1, lift at 1.
  destruct (fn (s_prompts s)) as [next|e]; [|exact Hinv].
  destruct (debouncedSave_view next s Hinv) as [due Hview].
  apply (one_pending_view (exec (debouncedSave next) s)).
  - unfold exec, bindM. destruct (debouncedSave next s) as [s1 [[]|e]]; reflexivity.
  - unfold timer_view in Hview. injection Hview as Ht Hn Hr.
    destruct Hinv as [Hnext _].
    split; [lia|]. right. exists (next_timer s), due, next. repeat split; auto. lia.
Qed.

(** Every state of a session has at most one timeout pending. *)
Lemma reachable_one_pending ls now s :
  reachable env pin ls now s -> one_pending s.
Proof.
  induction 1 as [|teardown s _ IH|teardown s _ IH
                  |dataLoaded teardown token gistId gistData s _ IH
                  |m s _ IH|text s _ IH|s _ IH|s _ IH].
  - apply one_pending_initial.
  - apply one_pending_keeps; [apply keeps_init | exact IH].
  - apply one_pending_keeps; [apply keeps_init_to_fetch | exact IH].
  - apply one_pending_keeps; [apply keeps_init_from_fetch | exact IH].
  - apply one_pending_modifyPrompts, one_pending_advance, IH.
  - unfold importData_onload.
    destruct (JSON_parse (VStr text)) as [[]|]; try exact IH.
    apply one_pending_modifyPrompts, IH.
  - apply one_pending_keeps; [apply keeps_forceSync | exact IH].
  - apply one_pending_settle, IH.
Qed.

(** Without a credential the timeout fires and nothing is sent. *)
Lemma settle_offline s h due arg :
  timers s = [(h, (due, arg))] ->
  truthy_opt (tokenRef s) = false ->
  upserts (settle env pin s) = upserts s.
Proof.
  intros Ht Htok. unfold settle. rewrite Ht.
  cbn [fold_left fst snd]. unfold is_pending. rewrite Ht.
  cbn [existsb fst]. rewrite Nat.eqb_refl. cbn [orb].
  unfold fire. cbn [fst snd].
  unfold exec, bindM at 1, modify at 1.
  rewrite saveToCloud_offline by exact Htok. reflexivity.
Qed.

(** C5, as amended. In a state the session has reached by its bootstrap (run
    to its end, or suspended at the fetch of the stored handle), edits,
    imports, forced syncs and fired timeouts, take a burst of one or more
    mutations: the first issued before any timeout still pending is due,
    each other before the timeout set by the one before it is due, and no
    other event of the session between the first mutation and the firing of
    the last timeout (no fetch of the bootstrap or of a forced sync settles
    meanwhile). The burst makes no call of [saveToGist] while it lasts, and
    the dataset in memory after it reflects all its mutations. When the
    session holds a credential, exactly one call is made once the last
    timeout fires, and it carries that dataset; when it holds none, no call
    is made. *)
Theorem debounce_coalesces ls now s (m : mutation) (ms : list mutation) :
  reachable env pin ls now s ->
  not_due (fst m) s ->
  within_window (m :: ms) = true ->
  s_prompts (run_mutations env pin (m :: ms) s) = apply_all (m :: ms) (s_prompts s)
  /\ upserts (run_mutations env pin (m :: ms) s) = upserts s
  /\ (forall token,
        tokenRef s = Some token -> truthy_str token = true ->
        exists lastSync,
          upserts (settle env pin (run_mutations env pin (m :: ms) s))
          = upserts s
            ++ [(token, localStorage s !! LS_GIST_ID,
                 mk_VaultData (apply_all (m :: ms) (s_prompts s)) 1 lastSync)])
  /\ (truthy_opt (tokenRef s) = false ->
      upserts (settle env pin (run_mutations env pin (m :: ms) s)) = upserts s).
Proof.
  intros Hreach Hdue Hwin.
  pose proof (reachable_one_pending ls now s Hreach) as Hinv.
  destruct (run_mutations_burst ms s m Hinv Hdue Hwin)
    as ((h & due & Ht & Hr & Hh) & Hp & Hu & Htk & Hl).
  split; [exact Hp|]. split; [exact Hu|]. split.
  - intros token Htok Htruthy.
    exists (Z.max (clock (run_mutations env pin (m :: ms) s)) due).
    rewrite (settle_single _ h due _ token Ht) by congruence.
    now rewrite Hu, Hl.
  - intros Hnone.
    rewrite (settle_offline _ h due _ Ht) by (now rewrite Htk).
    exact Hu.
Qed.

End Debounce.


(** ** C10: import *)

Lemma get_prop_throws v k e : get_prop v k = Throw e -> e = TypeError.
Proof. destruct v; cbn; congruence. Qed.

Lemma get_prop_nullish v k : nullish v = true -> get_prop v k = Throw TypeError.
Proof. destruct v; cbn; congruence. Qed.

Lemma map_outcome_throws {B} (f : value -> outcome B) xs :
  (forall x, nullish x = true -> f x = Throw TypeError) ->
  (forall x e, f x = Throw e -> e = TypeError) ->
  existsb nullish xs = true -> map_outcome f xs = Throw TypeError.
Proof.
  intros Hnull Hty. induction xs as [|x xs IH]; [discriminate|].
  cbn [existsb map_outcome]. intros Hex.
  destruct (f x) as [y|e] eqn:Hfx; cbn [mbind outcome_bind bind].
  - destruct (nullish x) eqn:Hx; [rewrite Hnull in Hfx by exact Hx; discriminate|].
    cbn [orb] in Hex. now rewrite IH.
  - now rewrite (Hty x e Hfx).
Qed.

Lemma filter_outcome_throws (f : value -> outcome bool) xs :
  (forall x, nullish x = true -> f x = Throw TypeError) ->
  (forall x e, f x = Throw e -> e = TypeError) ->
  existsb nullish xs = true -> filter_outcome f xs = Throw TypeError.
Proof.
  intros Hnull Hty. induction xs as [|x xs IH]; [discriminate|].
  cbn [existsb filter_outcome]. intros Hex.
  destruct (f x) as [y|e] eqn:Hfx; cbn [mbind outcome_bind bind].
  - destruct (nullish x) eqn:Hx; [rewrite Hnull in Hfx by exact Hx; discriminate|].
    cbn [orb] in Hex. now rewrite IH.
  - now rewrite (Hty x e Hfx).
Qed.

Lemma get_prop_id p : nullish p = false -> get_prop p (js "id") = Ret (id_of p).
Proof. unfold id_of. destruct p; cbn; try discriminate; reflexivity. Qed.

Lemma map_outcome_ids prev :
  forallb (fun p => negb (nullish p)) prev = true ->
  map_outcome (fun p => get_prop p (js "id")) prev = Ret (map id_of prev).
Proof.
  induction prev as [|p prev IH]; cbn [forallb map_outcome map]; [reflexivity|].
  intros Hp. apply andb_true_iff in Hp as [Hp Hrest]. apply negb_true_iff in Hp.
  rewrite get_prop_id, IH by assumption. reflexivity.
Qed.

Lemma filter_outcome_fresh ids data :
  forallb (fun p => negb (nullish p)) data = true ->
  filter_outcome
    (fun p => i ← get_prop p (js "id");
              mret (negb (existsb (same_value_zero i) ids))) data
  = Ret (List.filter (fun p => negb (existsb (same_value_zero (id_of p)) ids)) data).
Proof.
  induction data as [|p data IH]; cbn [forallb filter_outcome List.filter]; [reflexivity|].
  intros Hp. apply andb_true_iff in Hp as [Hp Hrest]. apply negb_true_iff in Hp.
  rewrite get_prop_id, IH by assumption. cbn.
  destruct (negb (existsb (same_value_zero (id_of p)) ids)); reflexivity.
Qed.

(** What the updater of [importData] computes when no entry is [null]. *)
Lemma import_updater_spec data prev :
  forallb (fun p => negb (nullish p)) (prev ++ data) = true ->
  import_updater data prev = Ret (prev ++ List.filter (fresh_id prev) data).
Proof.
  rewrite forallb_app. intros Hall. apply andb_true_iff in Hall as [Hprev Hdata].
  unfold import_updater. rewrite map_outcome_ids by assumption.
  cbn [mbind outcome_bind bind]. rewrite filter_outcome_fresh by assumption.
  reflexivity.
Qed.

Lemma no_nullish xs :
  existsb nullish xs = false -> forallb (fun p => negb (nullish p)) xs = true.
Proof.
  induction xs as [|x xs IH]; cbn [existsb forallb]; [reflexivity|].
  intros Hx. apply orb_false_iff in Hx as [-> Hx]. now rewrite IH.
Qed.

(** With a [null] or [undefined] entry in the dataset or in the file, the
    updater throws when it reads the entry's id. *)
Lemma import_updater_throws data prev :
  existsb nullish (prev ++ data) = true ->
  import_updater data prev = Throw TypeError.
Proof.
  rewrite existsb_app. intros Hex. unfold import_updater.
  destruct (existsb nullish prev) eqn:Hprev.
  - rewrite map_outcome_throws; [reflexivity | | | exact Hprev].
    + intros x. apply get_prop_nullish.
    + intros x e. apply get_prop_throws.
  - cbn [orb] in Hex. rewrite map_outcome_ids by now apply no_nullish.
    cbn [mbind outcome_bind bind].
    rewrite filter_outcome_throws; [reflexivity | | | exact Hex].
    + intros x Hx. now rewrite get_prop_nullish.
    + intros x e. destruct (get_prop x (js "id")) eqn:Hg; cbn; [discriminate|].
      intros [= <-]. exact (get_prop_throws _ _ _ Hg).
Qed.

Section ImportData.
Context `{WebCrypto} `{JSONApi}.
Variable env : Env.
Variable pin : jsstring.

Lemma modifyPrompts_run fn s next :
  fn (s_prompts s) = Ret next ->
  s_prompts (exec (modifyPrompts fn) s) = next.
Proof.
  intros Hfn. unfold modifyPrompts, debouncedSave, setTimeout, clearTimeout.
  run_M. rewrite Hfn.
  destruct (saveTimeoutRef s) as [h|]; [destruct (h =? 0)%nat|]; reflexivity.
Qed.

Lemma modifyPrompts_throw fn s e :
  fn (s_prompts s) = Throw e -> modifyPrompts fn s = (s, Throw e).
Proof. intros Hfn. unfold modifyPrompts. run_M. now rewrite Hfn. Qed.

(** C10, as amended. An imported text is taken when it parses to a JSON
    array, and its entries are not checked against the shape of a prompt.
    When no entry of the file or of the current dataset is [null] or
    [undefined], every entry whose id is not already present is appended to
    the current prompts and the others are skipped. When one is, the updater
    throws a [TypeError] from inside the state update, outside the [try] of
    the handler: the error is not caught, no entry is appended and no save
    is scheduled. A text that does not parse, or parses to something else
    than an array, changes nothing and surfaces no error. *)
Theorem importData_accepts_any_array text s :
  (forall data,
      JSON_parse (VStr text) = Ret (VArr data) ->
      (existsb nullish (s_prompts s ++ data) = false ->
       s_prompts (exec (importData_onload text) s)
       = s_prompts s ++ List.filter (fresh_id (s_prompts s)) data)
      /\ (existsb nullish (s_prompts s ++ data) = true ->
          importData_onload text s = (s, Throw TypeError)))
  /\ (forall v,
        JSON_parse (VStr text) = Ret v ->
        (forall data, v <> VArr data) ->
        importData_onload text s = (s, Ret tt))
  /\ (forall e,
        JSON_parse (VStr text) = Throw e ->
        importData_onload text s = (s, Ret tt)).
Proof.
  unfold importData_onload. split; [|split].
  - intros data ->. split.
    + intros Hall. apply modifyPrompts_run.
      now apply import_updater_spec, no_nullish.
    + intros Hnull. apply modifyPrompts_throw.
      now apply import_updater_throws.
  - intros v -> Hv. destruct v; try reflexivity. now destruct (Hv items).
  - now intros e ->.
Qed.

End ImportData.

(** ** The properties on the concrete platform *)

Section OnScenario.
Import Scenario.
Existing Instance Toy.toy_crypto.
Existing Instance toy_json.

Lemma draws_ok n : entropy_ok (draws n).
Proof. split; reflexivity. Qed.

(** C3 on the concrete platform: five remote records against four cached
    ones, which the cache block had displayed first. *)
Lemma bootstrap_remote_wins_witness :
  length (prompts cached4) = 4%nat
  /\ length (prompts remote5) = 5%nat
  /\ s_prompts cache_shown = prompts cached4
  /\ s_prompts unlocked = prompts remote5
  /\ s_syncStatus unlocked = synced
  /\ exists cache,
       localStorage unlocked !! LS_ENCRYPTED_CACHE = Some cache
       /\ decrypt cache the_pin = Ret (print (VaultData_to_value remote5)).
Proof.
  destruct (bootstrap_remote_wins (toy_env (Some remote5) true) the_pin
              (locked (storage cached4)) (envelope 100 the_token) the_token
              the_gist remote5)
    as [Haccepted _];
    try (vm_compute; reflexivity); try apply draws_ok.
  destruct (Haccepted eq_refl) as (s & Hrun & Hp & Hst & Hd & Hls & Hdec & Hup).
  split; [reflexivity|]. split; [reflexivity|].
  split; [vm_compute; reflexivity|].
  unfold unlocked, run_mount, exec. rewrite Hrun. cbn [fst].
  split; [exact Hp|]. split; [exact Hst|].
  eexists. split; [|exact Hdec].
  rewrite Hls. apply lookup_insert_eq.
Defined.

(** C3, as stated, fails: on a device whose storage refuses the write of the
    cache entry, the fetch succeeds and the bootstrap still ends with the
    status [error], the cache entry as it was, and a displayed dataset that
    is not the fetched one. *)
Lemma bootstrap_remote_wins_counterexample :
  loadFromGist (storage_full (toy_env (Some remote5) true)) the_token the_gist
  = Ret (Some remote5)
  /\ s_syncStatus
       (run_mount (storage_full (toy_env (Some remote5) true)) (storage cached4) None)
     = error
  /\ localStorage
       (run_mount (storage_full (toy_env (Some remote5) true)) (storage cached4) None)
     = storage cached4
  /\ s_prompts
       (run_mount (storage_full (toy_env (Some remote5) true)) (storage cached4) None)
     <> prompts remote5.
Proof.
  split; [reflexivity|]. split; [vm_compute; reflexivity|].
  split; [vm_compute; reflexivity|]. vm_compute. discriminate.
Qed.

(** C4, at the failing input: the cache decrypts and its four records are
    displayed, the fetch answers [null], and the bootstrap ends with the
    three default records displayed, a new blob created from them and the
    status [synced]: neither the cached dataset nor [error]. *)
Lemma bootstrap_fetch_failure_installs_defaults :
  s_prompts cache_shown = prompts cached4
  /\ s_prompts fetch_failed
     = prompts (defaults_at (toy_env None true) (locked (storage cached4)))
  /\ length (s_prompts fetch_failed) = 3%nat
  /\ s_syncStatus fetch_failed = synced
  /\ upserts fetch_failed
     = [(the_token, None,
         defaults_at (toy_env None true) (locked (storage cached4)))].
Proof.
  destruct (mount_fetch_failure (toy_env None true) the_pin
              (locked (storage cached4)) (envelope 100 the_token) the_token
              the_gist (Some (js "gist-2")))
    as (s & Hrun & Hp & Hst & Hup); try (vm_compute; reflexivity).
  split; [vm_compute; reflexivity|].
  unfold fetch_failed, run_mount, exec. rewrite Hrun. cbn [fst].
  rewrite Hp, Hst, Hup. repeat split.
Qed.

(** C5 on the concrete platform: two edits 600 ms apart, one upsert. *)
Lemma debounce_coalesces_witness :
  s_prompts (run_mutations (toy_env (Some remote5) true) the_pin
               [edit1; edit2] unlocked)
  = record 11 :: record 10 :: prompts remote5
  /\ exists lastSync,
       upserts (settle (toy_env (Some remote5) true) the_pin
                  (run_mutations (toy_env (Some remote5) true) the_pin
                     [edit1; edit2] unlocked))
       = [(the_token, Some the_gist,
           mk_VaultData (record 11 :: record 10 :: prompts remote5) 1 lastSync)].
Proof.
  assert (Hreach : reachable (toy_env (Some remote5) true) the_pin
                     (storage cached4) boot_time unlocked).
  { apply reach_mount, reach_initial. }
  assert (Hdue : not_due (fst edit1) unlocked).
  { intros h due arg Hin. vm_compute in Hin. destruct Hin. }
  destruct (debounce_coalesces (toy_env (Some remote5) true) the_pin
              (storage cached4) boot_time unlocked edit1 [edit2] Hreach Hdue eq_refl)
    as (Hp & _ & Hsent & _).
  split; [exact Hp|].
  destruct (Hsent the_token) as [lastSync Hu]; try (vm_compute; reflexivity).
  exists lastSync. exact Hu.
Defined.

(** C5, as stated, fails twice. In a session without a credential the
    timeout fires and [saveToCloud] returns before any call of [saveToGist].
    And with a credential, an edit made while the bootstrap waits for its
    fetch is sent on top of the cached dataset, after which the fetch
    settles and the remote dataset replaces the one in memory: the upsert
    carried [record 10] and the cached records, the memory holds the five
    remote ones. With no event in between, the two halves of the bootstrap
    are the bootstrap. *)
Lemma debounce_counterexample :
  tokenRef offline_session = None
  /\ s_prompts (run_mutations (toy_env None true) the_pin [edit1] offline_session)
     = record 10 :: s_prompts offline_session
  /\ upserts (settle (toy_env None true) the_pin
                (run_mutations (toy_env None true) the_pin [edit1] offline_session))
     = []
  /\ fetch_settles fetching = unlocked
  /\ tokenRef fetching = Some the_token
  /\ s_prompts fetching = prompts cached4
  /\ upserts (settle (toy_env (Some remote5) true) the_pin
                (run_mutations (toy_env (Some remote5) true) the_pin [edit1] fetching))
     = [(the_token, Some the_gist,
         mk_VaultData (record 10 :: prompts cached4) 1 (boot_time + 100 + SAVE_DELAY))]
  /\ s_prompts
       (fetch_settles
          (settle (toy_env (Some remote5) true) the_pin
             (run_mutations (toy_env (Some remote5) true) the_pin [edit1] fetching)))
     = prompts remote5.
Proof. vm_compute. repeat split. Qed.

(** C6 on the concrete platform, the remote store refusing writes. *)
Lemma saveToCloud_failure_keeps_prompts_witness :
  exists s',
    saveToCloud (toy_env (Some remote5) false) the_pin
      (record 10 :: prompts remote5) unlocked = (s', Ret tt)
    /\ s_prompts s' = s_prompts unlocked
    /\ localStorage s' = localStorage unlocked
    /\ s_syncStatus s' = error.
Proof.
  destruct (saveToCloud_failure_keeps_prompts (toy_env (Some remote5) false)
              the_pin unlocked the_token (record 10 :: prompts remote5))
    as (s' & Hrun & Hp & _ & _ & _ & _ & Hls & Hst & _);
    try (vm_compute; reflexivity).
  exists s'. repeat split; assumption.
Defined.





(** C10 on the concrete platform: an export file, an array holding [null],
    an object, and text that is not JSON. *)
Lemma importData_accepts_any_array_witness :
  s_prompts (exec (importData_onload (print (VArr backup))) unlocked)
  = s_prompts unlocked ++ [record 10]
  /\ importData_onload (js "[null]") unlocked = (unlocked, Throw TypeError)
  /\ importData_onload (js "{}") unlocked = (unlocked, Ret tt)
  /\ importData_onload (js "not json") unlocked = (unlocked, Ret tt).
Proof.
  destruct (importData_accepts_any_array (print (VArr backup)) unlocked)
    as (Harray & _ & _).
  destruct (importData_accepts_any_array (js "[null]") unlocked)
    as (Hnull & _ & _).
  destruct (importData_accepts_any_array (js "{}") unlocked)
    as (_ & Hother & _).
  destruct (importData_accepts_any_array (js "not json") unlocked)
    as (_ & _ & Hthrow).
  split; [|split; [|split]].
  - rewrite (proj1 (Harray backup eq_refl)); [reflexivity | vm_compute; reflexivity].
  - apply (proj2 (Hnull [VNull] eq_refl)). vm_compute. reflexivity.
  - apply (Hother (VObj [])); [reflexivity | discriminate].
  - apply (Hthrow SyntaxError). reflexivity.
Defined.

(** C10, as stated, fails: an array whose entry is not a prompt record is
    accepted and stored, an array with a known and a new record is applied
    in part, and an array holding [null] parses and yet makes the state
    update throw. *)
Lemma importData_counterexample :
  s_prompts (exec (importData_onload (js "[1]")) unlocked)
  = s_prompts unlocked ++ [VNum 1]
  /\ is_Prompt (VNum 1) = false
  /\ backup = [record 5; record 10]
  /\ s_prompts (exec (importData_onload (print (VArr backup))) unlocked)
     = s_prompts unlocked ++ [record 10]
  /\ JSON_parse (VStr (js "[null]")) = Ret (VArr [VNull])
  /\ importData_onload (js "[null]") unlocked = (unlocked, Throw TypeError).
Proof. vm_compute. repeat split. Qed.

End OnScenario.

(** * Further properties of the code *)

Import Text Actions Screens Remote Codec.

(** ** Placeholders and relative times *)

Lemma trimStart_split s :
  exists blank, s = blank ++ trimStart s
    /\ forallb is_js_whitespace blank = true.
Proof.
  induction s as [|c rest [blank [Hs Hb]]]; [now exists []|].
  cbn [trimStart]. destruct (is_js_whitespace c) eqn:Hc.
  - exists (c :: blank). cbn. now rewrite Hc, <- Hs.
  - now exists [].
Qed.

Lemma trimStart_head s c rest :
  trimStart s = c :: rest -> is_js_whitespace c = false.
Proof.
  induction s as [|d s IH]; [discriminate|]. cbn [trimStart].
  destruct (is_js_whitespace d) eqn:Hd; [exact IH|]. now intros [= <- _].
Qed.

Lemma trimStart_fixed c rest :
  is_js_whitespace c = false -> trimStart (c :: rest) = c :: rest.
Proof. intros Hc. cbn. now rewrite Hc. Qed.

(** A suffix that starts where the white space ends. *)
Lemma trimStart_keeps_last front c :
  is_js_whitespace c = false ->
  exists front', trimStart (front ++ [c]) = front' ++ [c]
    /\ exists blank, front = blank ++ front'.
Proof.
  intros Hc. induction front as [|d front (front' & IH & blank & Hb)].
  - exists []. cbn. rewrite Hc. split; [reflexivity | now exists []].
  - cbn [app trimStart]. destruct (is_js_whitespace d).
    + exists front'. split; [exact IH|]. exists (d :: blank). now rewrite Hb.
    + exists (d :: front). split; [reflexivity | now exists []].
Qed.

Lemma trim_infix s : exists l r, s = l ++ trim s ++ r.
Proof.
  unfold trim, trimEnd.
  destruct (trimStart_split s) as (l & Hl & _).
  destruct (trimStart_split (rev (trimStart s))) as (r & Hr & _).
  exists l, (rev r). rewrite <- rev_app_distr, <- Hr, rev_involutive. exact Hl.
Qed.

Lemma trim_trimmed s : trimmed (trim s).
Proof.
  unfold trim, trimEnd. split.
  - intros c rest Heq.
    destruct (trimStart s) as [|d t] eqn:Hs; [discriminate|].
    pose proof (trimStart_head _ _ _ Hs) as Hd.
    cbn [rev] in Heq.
    destruct (trimStart_keeps_last (rev t) d Hd) as (front' & Hk & _).
    rewrite Hk, rev_app_distr in Heq. cbn in Heq. now injection Heq as <- _.
  - intros front c Heq.
    apply (f_equal (@rev N)) in Heq.
    rewrite rev_involutive, rev_app_distr in Heq. cbn in Heq.
    exact (trimStart_head _ _ _ Heq).
Qed.

Lemma span_body_spec s :
  s = fst (span_body s) ++ snd (span_body s)
  /\ ~ In close_brace (fst (span_body s))
  /\ (forall d rest, snd (span_body s) = d :: rest -> d = close_brace).
Proof.
  induction s as [|c s (Hs & Hin & Hhd)]; [cbn; intuition discriminate|].
  cbn [span_body]. destruct (N.eqb_spec c close_brace) as [->|Hc].
  - cbn. repeat split; [tauto|]. now intros d rest [= <- _].
  - destruct (span_body s) as [body after]. cbn [fst snd] in *.
    repeat split; [now rewrite Hs at 1 | | exact Hhd].
    intros [Heq|Hb]; [now apply Hc | now apply Hin].
Qed.

Lemma span_body_run body rest :
  ~ In close_brace body ->
  span_body (body ++ close_brace :: rest) = (body, close_brace :: rest).
Proof.
  induction body as [|c body IH]; intros Hin.
  - reflexivity.
  - cbn [app span_body]. destruct (N.eqb_spec c close_brace) as [->|_].
    + exfalso. apply Hin. now left.
    + rewrite IH; [reflexivity|]. intros Hb. apply Hin. now right.
Qed.

Lemma match_here_sound s body :
  match_here s = Some body ->
  body <> [] /\ ~ In close_brace body
  /\ exists post, s = placeholder body ++ post.
Proof.
  unfold match_here. destruct s as [|c1 [|c2 rest]]; try discriminate.
  destruct (N.eqb_spec c1 open_brace) as [->|]; [|discriminate].
  destruct (N.eqb_spec c2 open_brace) as [->|]; [|discriminate].
  cbn [andb]. destruct (span_body_spec rest) as (Hs & Hin & _).
  destruct (span_body rest) as [[|b run] [|d1 [|d2 post]]]; try discriminate.
  destruct (N.eqb_spec d1 close_brace) as [->|]; [|discriminate].
  destruct (N.eqb_spec d2 close_brace) as [->|]; [|discriminate].
  cbn [andb fst snd] in *. intros [= <-].
  split; [discriminate|]. split; [exact Hin|]. exists post.
  unfold placeholder. cbn [app]. rewrite Hs at 1. cbn.
  now rewrite <- app_assoc.
Qed.

Lemma match_here_complete body post :
  body <> [] -> ~ In close_brace body ->
  match_here (placeholder body ++ post) = Some body.
Proof.
  intros Hne Hin. unfold match_here, placeholder. cbn [app].
  rewrite N.eqb_refl. cbn [andb].
  rewrite <- app_assoc. cbn [app]. rewrite span_body_run by exact Hin.
  destruct body as [|b body]; [now destruct Hne|]. now rewrite N.eqb_refl.
Qed.

(** The search as the global flag defines it: after a match it goes on
    behind the match, and where nothing matches it moves one code unit on. *)
Lemma match_all_skip s : forall skip, match_all s skip = match_all (drop skip s) 0.
Proof.
  induction s as [|c rest IH]; intros [|k]; try reflexivity.
  cbn [match_all drop]. apply IH.
Qed.

Lemma match_all_found s body :
  match_here s = Some body ->
  match_all s 0 = placeholder body :: match_all (drop (length (placeholder body)) s) 0.
Proof.
  intros Hm. destruct s as [|c rest]; [discriminate|].
  cbn [match_all]. rewrite Hm. f_equal. rewrite match_all_skip. f_equal.
  unfold placeholder. cbn [app length]. rewrite length_app. cbn [length drop].
  f_equal. lia.
Qed.

Lemma match_all_missed c rest :
  match_here (c :: rest) = None -> match_all (c :: rest) 0 = match_all rest 0.
Proof. intros Hm. cbn [match_all]. now rewrite Hm. Qed.

Lemma match_all_sound s : forall skip m,
  In m (match_all s skip) ->
  exists pre body post,
    m = placeholder body /\ s = pre ++ m ++ post
    /\ body <> [] /\ ~ In close_brace body.
Proof.
  induction s as [|c rest IH]; intros skip m; [intros []|].
  cbn [match_all]. destruct skip as [|k].
  - destruct (match_here (c :: rest)) as [body|] eqn:Hm.
    + intros [<-|Hin].
      * destruct (match_here_sound _ _ Hm) as (Hne & Hno & post & Hs).
        exists [], body, post. now rewrite Hs.
      * destruct (IH _ _ Hin) as (pre & b & post & -> & -> & Hb).
        exists (c :: pre), b, post. auto.
    + intros Hin. destruct (IH _ _ Hin) as (pre & b & post & -> & -> & Hb).
      exists (c :: pre), b, post. auto.
  - intros Hin. destruct (IH _ _ Hin) as (pre & b & post & -> & -> & Hb).
    exists (c :: pre), b, post. auto.
Qed.

Lemma match_all_complete pre : forall skip body post,
  (skip <= length pre)%nat -> body <> [] -> ~ In close_brace body ->
  match_all (pre ++ placeholder body ++ post) skip <> [].
Proof.
  induction pre as [|c pre IH]; intros skip body post Hk Hne Hin.
  - cbn in Hk. assert (skip = 0%nat) as -> by lia.
    pose proof (match_here_complete body post Hne Hin) as Hm.
    cbn [app] in *. unfold placeholder in *. cbn [app] in *.
    cbn [match_all]. rewrite Hm. discriminate.
  - cbn [app match_all]. destruct skip as [|k].
    + destruct (match_here _); [discriminate|]. apply IH; cbn; auto with arith.
    + apply IH; cbn in *; auto with arith.
Qed.

Lemma slice_placeholder body : slice_2_m2 (placeholder body) = body.
Proof.
  unfold slice_2_m2, placeholder.
  change ([open_brace; open_brace] ++ body ++ [close_brace; close_brace])
    with (open_brace :: open_brace :: body ++ [close_brace; close_brace]).
  cbn [drop length]. rewrite length_app. cbn [length].
  replace (S (S (length body + 2)) - 2 - 2)%nat with (length body) by lia.
  apply take_app_length.
Qed.

Lemma set_of_In seen xs x : In x (set_of seen xs) -> In x xs /\ ~ In x seen.
Proof.
  revert seen. induction xs as [|y xs IH]; intros seen; [intros []|].
  cbn [set_of]. destruct (existsb (jsstring_eqb y) seen) eqn:Hex.
  - intros Hin. destruct (IH _ Hin). split; [now right | assumption].
  - intros [<-|Hin].
    + split; [now left|]. intros Hseen.
      assert (existsb (jsstring_eqb y) seen = true); [|congruence].
      apply existsb_exists. exists y. split; [exact Hseen|].
      unfold jsstring_eqb. now apply bool_decide_eq_true.
    + destruct (IH _ Hin) as [Hxs Hns]. split; [now right|].
      intros Hseen. apply Hns. now right.
Qed.

Lemma set_of_NoDup seen xs : List.NoDup (set_of seen xs).
Proof.
  revert seen. induction xs as [|y xs IH]; intros seen; [constructor|].
  cbn [set_of]. destruct (existsb (jsstring_eqb y) seen); [apply IH|].
  constructor; [|apply IH]. intros Hin.
  destruct (set_of_In _ _ _ Hin) as [_ Hns]. apply Hns. now left.
Qed.

Lemma set_of_nonempty x xs : set_of [] (x :: xs) <> [].
Proof. discriminate. Qed.

Lemma not_in_infix {A} (a : A) l m r : ~ In a (l ++ m ++ r) -> ~ In a m.
Proof. intros Hn Hm. apply Hn. apply in_or_app. right. apply in_or_app. now left. Qed.

(** X1. The variables [extractVariables] returns are pairwise distinct, and
    each is the trimmed body of a placeholder that occurs in the text: the
    body is not empty and holds no closing brace, and the variable has no
    white space at either end and no closing brace (it can be empty, for a
    body of white space). *)
Theorem extractVariables_sound text :
  List.NoDup (extractVariables text)
  /\ forall v, In v (extractVariables text) ->
       trimmed v /\ ~ In close_brace v
       /\ exists pre body post,
            text = pre ++ placeholder body ++ post
            /\ body <> [] /\ ~ In close_brace body /\ v = trim body.
Proof.
  unfold extractVariables. split.
  { destruct (match_all text 0); [constructor | apply set_of_NoDup]. }
  intros v Hin.
  assert (Hv : In v (map (fun m => trim (slice_2_m2 m)) (match_all text 0))).
  { destruct (match_all text 0); [destruct Hin|].
    exact (proj1 (set_of_In _ _ _ Hin)). }
  apply in_map_iff in Hv as (m & <- & Hm).
  destruct (match_all_sound _ _ _ Hm) as (pre & body & post & -> & Htext & Hne & Hno).
  rewrite slice_placeholder.
  split; [apply trim_trimmed|]. split.
  - destruct (trim_infix body) as (l & r & Hb). rewrite Hb in Hno.
    exact (not_in_infix _ _ _ _ Hno).
  - exists pre, body, post. repeat split; auto.
Qed.

(** X2. [extractVariables] returns no variable exactly when the text holds
    no placeholder, so [handleCopyClick] opens the fill dialog exactly for
    the prompts that hold one. *)
Theorem extractVariables_nil_iff text :
  extractVariables text = [] <-> ~ has_placeholder text.
Proof.
  unfold extractVariables. split.
  - intros Hnil (pre & body & post & -> & Hne & Hno).
    apply (match_all_complete pre 0 body post); [lia | exact Hne | exact Hno |].
    destruct (match_all _ 0) as [|m ms]; [reflexivity|]. discriminate.
  - intros Hnone. destruct (match_all text 0) as [|m ms] eqn:Hm; [reflexivity|].
    exfalso. apply Hnone.
    destruct (match_all_sound text 0 m) as (pre & body & post & -> & Htext & Hne & Hno).
    { rewrite Hm. now left. }
    exists pre, body, post. repeat split; auto.
Qed.

(** X3. For a clock and a timestamp that are safe integers with a safe
    difference, [timeAgo] names the largest unit that has elapsed at least
    once and counts it rounding down: minutes from 1 to 59, hours from 1 to
    23, days from 1 to 29, then months of 30 days; under a minute, and for a
    timestamp in the future, it answers [только что]. *)
Theorem timeAgo_buckets (now ts : Z) :
  safe_integer now = true -> safe_integer ts = true ->
  safe_integer (now - ts) = true ->
  ((now - ts < 60000)%Z -> timeAgo now ts = Some (utf8 "только что"))
  /\ ((60000 <= now - ts < 3600000)%Z ->
      timeAgo now ts
      = Some (Number_toString ((now - ts) / 60000) ++ utf8 " мин назад")
      /\ (1 <= (now - ts) / 60000 < 60)%Z)
  /\ ((3600000 <= now - ts < 86400000)%Z ->
      timeAgo now ts
      = Some (Number_toString ((now - ts) / 3600000) ++ utf8 " ч назад")
      /\ (1 <= (now - ts) / 3600000 < 24)%Z)
  /\ ((86400000 <= now - ts < 2592000000)%Z ->
      timeAgo now ts
      = Some (Number_toString ((now - ts) / 86400000) ++ utf8 " дн назад")
      /\ (1 <= (now - ts) / 86400000 < 30)%Z)
  /\ ((2592000000 <= now - ts)%Z ->
      timeAgo now ts
      = Some (Number_toString ((now - ts) / 2592000000) ++ utf8 " мес назад")
      /\ (1 <= (now - ts) / 2592000000)%Z).
Proof.
  intros Hnow Hts Hdiff.
  unfold timeAgo. rewrite Hnow, Hts, Hdiff. cbn [andb]. clear Hnow Hts Hdiff.
  set (diff := (now - ts)%Z).
  assert (Hh : (diff / 60000 / 60 = diff / 3600000)%Z)
    by (rewrite Z.div_div by lia; reflexivity).
  assert (Hd : (diff / 60000 / 60 / 24 = diff / 86400000)%Z)
    by (rewrite !Z.div_div by lia; reflexivity).
  assert (Hm : (diff / 60000 / 60 / 24 / 30 = diff / 2592000000)%Z)
    by (rewrite !Z.div_div by lia; reflexivity).
  rewrite Hm, Hd, Hh. clear Hm Hd Hh.
  assert (Up : forall k m, (0 < k)%Z -> (diff < k * m)%Z -> (diff / k <? m)%Z = true).
  { intros k m Hk Hlt. apply Z.ltb_lt, Z.div_lt_upper_bound; lia. }
  assert (Lo : forall k m, (0 < k)%Z -> (k * m <= diff)%Z -> (diff / k <? m)%Z = false).
  { intros k m Hk Hle. apply Z.ltb_ge, Z.div_le_lower_bound; lia. }
  split; [intros Hlt; now rewrite (Up 60000 1)%Z by lia|].
  split; [intros [Hge Hlt]|].
  { rewrite (Lo 60000 1)%Z, (Up 60000 60)%Z by lia. split; [reflexivity|].
    split; [apply Z.div_le_lower_bound | apply Z.div_lt_upper_bound]; lia. }
  split; [intros [Hge Hlt]|].
  { rewrite (Lo 60000 1)%Z, (Lo 60000 60)%Z, (Up 3600000 24)%Z by lia.
    split; [reflexivity|].
    split; [apply Z.div_le_lower_bound | apply Z.div_lt_upper_bound]; lia. }
  split; [intros [Hge Hlt]|].
  { rewrite (Lo 60000 1)%Z, (Lo 60000 60)%Z, (Lo 3600000 24)%Z,
      (Up 86400000 30)%Z by lia.
    split; [reflexivity|].
    split; [apply Z.div_le_lower_bound | apply Z.div_lt_upper_bound]; lia. }
  intros Hge.
  rewrite (Lo 60000 1)%Z, (Lo 60000 60)%Z, (Lo 3600000 24)%Z,
    (Lo 86400000 30)%Z by lia.
  split; [reflexivity|]. apply Z.div_le_lower_bound; lia.
Qed.

(** ** Actions on the dataset *)

Lemma assoc_set_prop fields k k' v :
  assoc k (set_prop fields k' v)
  = if jsstring_eqb k k' then Some v else assoc k fields.
Proof.
  unfold jsstring_eqb.
  induction fields as [|[k0 v0] fields IH]; cbn [set_prop assoc]; unfold jsstring_eqb.
  - repeat case_bool_decide; congruence.
  - destruct (bool_decide (k' = k0)) eqn:E1; cbn [assoc]; unfold jsstring_eqb.
    + apply bool_decide_eq_true in E1. subst k0.
      repeat case_bool_decide; congruence.
    + rewrite IH. repeat case_bool_decide; congruence.
Qed.

Lemma set_prop_same fields k v : assoc k fields = Some v -> set_prop fields k v = fields.
Proof.
  induction fields as [|[k0 v0] fields IH]; cbn [assoc set_prop]; [discriminate|].
  unfold jsstring_eqb. case_bool_decide as Hk.
  - intros [= ->]. now subst k0.
  - intros Hf. now rewrite IH.
Qed.

Lemma set_prop_twice fields k v1 v2 :
  set_prop (set_prop fields k v1) k v2 = set_prop fields k v2.
Proof.
  induction fields as [|[k0 v0] fields IH]; cbn [set_prop]; unfold jsstring_eqb.
  - now rewrite bool_decide_eq_true_2.
  - case_bool_decide as Hk; cbn [set_prop]; unfold jsstring_eqb.
    + now rewrite bool_decide_eq_true_2.
    + rewrite bool_decide_eq_false_2 by assumption. now rewrite IH.
Qed.

Lemma has_field_set_prop check k fields k' v :
  has_field check k (VObj (set_prop fields k' v))
  = if jsstring_eqb (js k) k' then check v else has_field check k (VObj fields).
Proof. unfold has_field. rewrite assoc_set_prop. now destruct (jsstring_eqb _ _). Qed.

Lemma has_field_inv check k v :
  has_field check k v = true ->
  exists fields x, v = VObj fields /\ assoc (js k) fields = Some x /\ check x = true.
Proof.
  unfold has_field. destruct v; try discriminate.
  destruct (assoc (js k) fields) as [x|] eqn:Hx; [|discriminate]. eauto.
Qed.

(** Decides the comparisons of two property names of the source. *)
Ltac eval_keys :=
  repeat match goal with
  | |- context [jsstring_eqb (js ?a) (js ?b)] =>
      let r := eval vm_compute in (jsstring_eqb (js a) (js b)) in
      change (jsstring_eqb (js a) (js b)) with r
  end;
  cbv beta iota.

(** What the shape of a prompt gives to the actions. *)
Lemma is_Prompt_inv p :
  is_Prompt p = true ->
  exists fields i b,
    p = VObj fields
    /\ assoc (js "id") fields = Some (VStr i)
    /\ assoc (js "isFavorite") fields = Some (VBool b).
Proof.
  unfold is_Prompt. rewrite !andb_true_iff.
  intros [[[[[[[[Hid _] _] _] _] Hfav] _] _] _].
  apply has_field_inv in Hid as (fields & x & -> & Hx & Hs).
  apply has_field_inv in Hfav as (fields' & y & [= <-] & Hy & Hb).
  destruct x; try discriminate. destruct y; try discriminate. eauto 6.
Qed.

Lemma is_Prompt_not_nullish p : is_Prompt p = true -> nullish p = false.
Proof. intros Hp. destruct (is_Prompt_inv p Hp) as (? & ? & ? & -> & _). reflexivity. Qed.

Lemma forallb_is_Prompt_not_nullish ps :
  forallb is_Prompt ps = true -> forallb (fun p => negb (nullish p)) ps = true.
Proof.
  intros Hps. apply List.forallb_forall. intros p Hin.
  rewrite List.forallb_forall in Hps. now rewrite is_Prompt_not_nullish by auto.
Qed.

(** *** [deletePrompt] *)

Lemma delete_updater_spec id prev :
  forallb (fun p => negb (nullish p)) prev = true ->
  delete_updater id prev = Ret (List.filter (fun p => negb (has_id id p)) prev).
Proof.
  unfold delete_updater, has_id.
  induction prev as [|p prev IH]; cbn [forallb filter_outcome List.filter]; [reflexivity|].
  intros Hp. apply andb_true_iff in Hp as [Hp Hrest]. apply negb_true_iff in Hp.
  rewrite get_prop_id, IH by assumption. cbn.
  destruct (negb (strict_eq_str (id_of p) id)); reflexivity.
Qed.

(** An updater that returns is followed by one pending timeout, which
    carries what it returned. *)
Lemma modifyPrompts_schedules fn s next :
  one_pending s -> fn (s_prompts s) = Ret next ->
  let s' := exec (modifyPrompts fn) s in
  s_prompts s' = next
  /\ timers s' = [(next_timer s, ((clock s + SAVE_DELAY)%Z, next))]
  /\ saveTimeoutRef s' = Some (next_timer s)
  /\ upserts s' = upserts s
  /\ localStorage s' = localStorage s
  /\ s_syncStatus s' = s_syncStatus s.
Proof.
  intros [Hnext Hcases] Hfn s'. subst s'.
  unfold modifyPrompts, debouncedSave, setTimeout, clearTimeout. run_M.
  rewrite Hfn.
  destruct Hcases as [Hnone | (h & due & arg & Hone & Href & Hh)].
  - destruct (saveTimeoutRef s) as [h|]; [destruct (h =? 0)%nat|];
      simpl_state; rewrite ?Hnone; cbn; repeat split.
  - rewrite Href. apply Nat.eqb_neq in Hh. rewrite Hh. simpl_state.
    rewrite Hone, drop_timer_single. cbn. repeat split.
Qed.

(** X4. On a dataset with no [null] entry, [deletePrompt(id)] keeps, in
    order, exactly the entries whose id is not the string [id] (all of them
    when none has it), and leaves one timeout pending, due after the delay
    and carrying the new dataset. *)
Theorem deletePrompt_removes id s :
  one_pending s ->
  forallb (fun p => negb (nullish p)) (s_prompts s) = true ->
  let s' := exec (deletePrompt id) s in
  s_prompts s' = List.filter (fun p => negb (has_id id p)) (s_prompts s)
  /\ (forall p, In p (s_prompts s') -> has_id id p = false)
  /\ (existsb (has_id id) (s_prompts s) = false -> s_prompts s' = s_prompts s)
  /\ timers s' = [(next_timer s, ((clock s + SAVE_DELAY)%Z, s_prompts s'))].
Proof.
  intros Hinv Hall s'.
  destruct (modifyPrompts_schedules (delete_updater id) s _ Hinv
              (delete_updater_spec id _ Hall)) as (Hp & Ht & _).
  fold (deletePrompt id) in Hp, Ht. fold s' in Hp, Ht.
  split; [exact Hp|]. split; [|split].
  - intros p Hin. rewrite Hp in Hin. apply filter_In in Hin as [_ Hin].
    now apply negb_true_iff.
  - intros Hnone. rewrite Hp. apply forallb_filter_id.
    apply List.forallb_forall. intros p Hin. apply negb_true_iff.
    destruct (has_id id p) eqn:Hid; [|reflexivity].
    rewrite <- Hnone. symmetry. apply existsb_exists. eauto.
  - now rewrite Ht, Hp.
Qed.

(** *** [toggleFavorite] *)

Lemma map_outcome_Ret {A B} (f : A -> outcome B) (g : A -> B) xs :
  (forall x, In x xs -> f x = Ret (g x)) -> map_outcome f xs = Ret (map g xs).
Proof.
  induction xs as [|x xs IH]; intros Hf; [reflexivity|].
  cbn [map_outcome map]. rewrite Hf by now left.
  cbn [mbind outcome_bind bind]. rewrite IH by (intros; apply Hf; now right).
  reflexivity.
Qed.

Lemma toggle_one_spec id p : is_Prompt p = true -> toggle_one id p = Ret (toggled id p).
Proof.
  intros Hp. destruct (is_Prompt_inv p Hp) as (fields & i & b & -> & Hi & Hb).
  unfold toggle_one, toggled, has_id, id_of. cbn [get_prop own_props].
  rewrite Hi, Hb. cbn. now destruct (jsstring_eqb i id).
Qed.

Lemma toggled_is_Prompt id p : is_Prompt p = true -> is_Prompt (toggled id p) = true.
Proof.
  intros Hp. unfold toggled. destruct (has_id id p); [|exact Hp].
  destruct (is_Prompt_inv p Hp) as (fields & i & b & -> & Hi & Hb).
  cbn [own_props]. unfold is_Prompt in *.
  rewrite !has_field_set_prop. eval_keys. cbn [is_VBool].
  assert (Hf : has_field is_VBool "isFavorite" (VObj fields) = true)
    by (unfold has_field; now rewrite Hb).
  rewrite Hf in Hp. exact Hp.
Qed.

Lemma toggled_twice id p : is_Prompt p = true -> toggled id (toggled id p) = p.
Proof.
  intros Hp. destruct (is_Prompt_inv p Hp) as (fields & i & b & -> & Hi & Hb).
  unfold toggled at 2. destruct (has_id id (VObj fields)) eqn:Hid.
  - unfold toggled. cbn [own_props]. rewrite Hb.
    change (default VUndefined (Some (VBool b))) with (VBool b). cbn [truthy].
    assert (Hid' : has_id id (VObj (set_prop fields (js "isFavorite") (VBool (negb b)))) = true).
    { unfold has_id, id_of in *. cbn [get_prop] in *. now rewrite assoc_set_prop. }
    rewrite Hid'. rewrite assoc_set_prop. eval_keys.
    change (default VUndefined (Some (VBool (negb b)))) with (VBool (negb b)).
    cbn [truthy]. rewrite set_prop_twice, negb_involutive.
    now rewrite set_prop_same.
  - unfold toggled. now rewrite Hid.
Qed.

Lemma toggleFavorite_run id s :
  forallb is_Prompt (s_prompts s) = true ->
  s_prompts (exec (toggleFavorite id) s) = map (toggled id) (s_prompts s)
  /\ forallb is_Prompt (s_prompts (exec (toggleFavorite id) s)) = true.
Proof.
  intros Hall.
  assert (H1 : s_prompts (exec (toggleFavorite id) s) = map (toggled id) (s_prompts s)).
  { apply modifyPrompts_run. apply map_outcome_Ret. intros p Hin.
    apply toggle_one_spec. rewrite List.forallb_forall in Hall. auto. }
  split; [exact H1|]. rewrite H1. apply List.forallb_forall. intros q Hq.
  apply in_map_iff in Hq as (p & <- & Hp). apply toggled_is_Prompt.
  rewrite List.forallb_forall in Hall. auto.
Qed.

(** X5. On a dataset of full prompts, [toggleFavorite(id)] changes nothing
    but the field [isFavorite] of the entries with that id, which it
    negates, and calling it twice gives the dataset back. *)
Theorem toggleFavorite_twice id s :
  forallb is_Prompt (s_prompts s) = true ->
  let s1 := exec (toggleFavorite id) s in
  s_prompts s1 = map (toggled id) (s_prompts s)
  /\ (forall p, has_id id p = false -> toggled id p = p)
  /\ s_prompts (exec (toggleFavorite id) s1) = s_prompts s.
Proof.
  intros Hall s1. destruct (toggleFavorite_run id s Hall) as [H1 H2]. fold s1 in H1, H2.
  split; [exact H1|]. split.
  { intros p Hid. unfold toggled. now rewrite Hid. }
  rewrite (proj1 (toggleFavorite_run id s1 H2)), H1, map_map.
  rewrite <- (map_id (s_prompts s)) at 2.
  apply map_ext_in. intros p Hp. apply toggled_twice.
  rewrite List.forallb_forall in Hall. auto.
Qed.

(** *** [updatePrompt] and [addPrompt] *)

Lemma assoc_app k xs ys :
  assoc k (xs ++ ys) = match assoc k xs with Some v => Some v | None => assoc k ys end.
Proof.
  induction xs as [|[k0 v0] xs IH]; [reflexivity|]. cbn [app assoc].
  now destruct (jsstring_eqb k k0).
Qed.

Lemma assoc_spread_over k updates : forall fields,
  assoc k (spread_over fields updates)
  = match last_update updates k with Some v => Some v | None => assoc k fields end.
Proof.
  unfold spread_over, last_update.
  induction updates as [|[k0 v0] updates IH]; intros fields; [reflexivity|].
  cbn [fold_left fst snd rev]. rewrite IH, assoc_app, assoc_set_prop. cbn [assoc].
  destruct (assoc k (rev updates)); [reflexivity|]. now destruct (jsstring_eqb k k0).
Qed.

Lemma has_id_object id p :
  has_id id p = true -> exists fields, p = VObj fields /\ assoc (js "id") fields = Some (VStr id).
Proof.
  unfold has_id, id_of, strict_eq_str.
  destruct p; try (intros Hs; vm_compute in Hs; discriminate).
  cbn [get_prop].
  destruct (assoc (js "id") fields) as [[]|] eqn:Hi; cbn; try discriminate.
    unfold jsstring_eqb. intros Hs. apply bool_decide_eq_true in Hs. subst. eauto.
Qed.

Lemma update_one_spec id updates now p :
  nullish p = false -> update_one id updates now p = Ret (updated id updates now p).
Proof.
  intros Hp. unfold update_one, updated, has_id. rewrite get_prop_id by exact Hp.
  cbn [mbind outcome_bind bind]. now destruct (strict_eq_str (id_of p) id).
Qed.

Lemma updatePrompt_run id updates s :
  forallb (fun p => negb (nullish p)) (s_prompts s) = true ->
  s_prompts (exec (updatePrompt id updates) s)
  = map (updated id updates (clock s)) (s_prompts s).
Proof.
  intros Hall. unfold updatePrompt, exec, bindM at 1, Date_now, gets.
  change (s_prompts (exec (modifyPrompts (map_outcome (update_one id updates (clock s)))) s)
          = map (updated id updates (clock s)) (s_prompts s)).
  apply modifyPrompts_run. apply map_outcome_Ret. intros p Hin.
  apply update_one_spec. rewrite List.forallb_forall in Hall.
  specialize (Hall p Hin). now apply negb_true_iff.
Qed.

(** X6. On a dataset with no [null] entry, [updatePrompt(id, updates)] keeps
    the entries whose id is not the string [id] as they are and rewrites the
    others in place: [updatedAt] becomes the clock reading whatever
    [updates] says, every other property [updates] names takes its value
    there, and the remaining properties keep theirs. *)
Theorem updatePrompt_fields id updates s :
  forallb (fun p => negb (nullish p)) (s_prompts s) = true ->
  s_prompts (exec (updatePrompt id updates) s)
  = map (updated id updates (clock s)) (s_prompts s)
  /\ (forall p, has_id id p = false -> updated id updates (clock s) p = p)
  /\ (forall p k, has_id id p = true ->
        get_prop (updated id updates (clock s) p) k
        = if jsstring_eqb k (js "updatedAt") then Ret (VNum (clock s))
          else match last_update updates k with
               | Some v => Ret v
               | None => get_prop p k
               end).
Proof.
  intros Hall. split; [|split].
  - now apply updatePrompt_run.
  - intros p Hid. unfold updated. now rewrite Hid.
  - intros p k Hid. destruct (has_id_object id p Hid) as (fields & -> & Hi).
    unfold updated. rewrite Hid. cbn [get_prop own_props].
    rewrite assoc_set_prop, assoc_spread_over.
    destruct (jsstring_eqb k (js "updatedAt")); [reflexivity|].
    now destruct (last_update updates k).
Qed.

(** *** The editor *)

Lemma trimStart_idem s : trimStart (trimStart s) = trimStart s.
Proof.
  induction s as [|c s IH]; [reflexivity|]. cbn [trimStart].
  destruct (is_js_whitespace c) eqn:Hc; [exact IH|]. cbn [trimStart]. now rewrite Hc.
Qed.

Lemma trim_of_trimmed t : trimmed t -> trim t = t.
Proof.
  intros [Hhead Hlast]. unfold trim, trimEnd.
  destruct t as [|c t]; [reflexivity|].
  rewrite trimStart_fixed by (eapply Hhead; reflexivity).
  destruct (rev (c :: t)) as [|d r] eqn:Hr.
  - apply (f_equal (@rev N)) in Hr. now rewrite rev_involutive in Hr.
  - rewrite trimStart_fixed.
    + now rewrite <- Hr, rev_involutive.
    + apply (Hlast (rev r) d). apply (f_equal (@rev N)) in Hr.
      now rewrite rev_involutive in Hr.
Qed.

Lemma trim_after_space t : trim (32 :: t) = trim t.
Proof. reflexivity. Qed.

Lemma split_comma_free t : ~ In comma t -> split_comma t = [t].
Proof.
  induction t as [|c t IH]; intros Hin; [reflexivity|]. cbn [split_comma].
  destruct (N.eqb_spec c comma) as [->|_]; [exfalso; apply Hin; now left|].
  rewrite IH; [reflexivity|]. intros Hc. apply Hin. now right.
Qed.

Lemma split_comma_app t rest :
  ~ In comma t -> split_comma (t ++ comma :: rest) = t :: split_comma rest.
Proof.
  induction t as [|c t IH]; intros Hin.
  - reflexivity.
  - cbn [app split_comma].
    destruct (N.eqb_spec c comma) as [->|_]; [exfalso; apply Hin; now left|].
    rewrite IH; [reflexivity|]. intros Hc. apply Hin. now right.
Qed.

Lemma split_comma_pieces s : Forall (fun piece => ~ In comma piece) (split_comma s).
Proof.
  induction s as [|c s IH]; cbn [split_comma].
  - constructor; [tauto | constructor].
  - destruct (N.eqb_spec c comma) as [->|Hc].
    + constructor; [tauto | exact IH].
    + destruct (split_comma s) as [|piece pieces]; [repeat constructor; cbn; tauto|].
      inversion IH as [|? ? Hp Hps]; subst. constructor; [|exact Hps].
      intros [Heq|Hin]; [now apply Hc | now apply Hp].
Qed.

Lemma split_comma_nonempty s : split_comma s <> [].
Proof.
  destruct s as [|c s]; cbn [split_comma]; [discriminate|].
  destruct (c =? comma); [discriminate|]. destruct (split_comma s); discriminate.
Qed.

Lemma map_trim_split_space x :
  map trim (split_comma (32 :: x)) = map trim (split_comma x).
Proof.
  cbn [split_comma]. change (32 =? comma) with false. cbv iota.
  pose proof (split_comma_nonempty x) as Hne.
  destruct (split_comma x) as [|piece pieces]; [now destruct Hne|].
  cbn [map]. now rewrite trim_after_space.
Qed.

Lemma parse_tags_join tags :
  Forall clean_tag tags -> parse_tags (join_comma_space tags) = tags.
Proof.
  unfold parse_tags. induction 1 as [|t tags (Hne & Hcomma & Htrim) Hrest IH].
  - reflexivity.
  - assert (Hkeep : truthy_str (trim t) = true).
    { rewrite trim_of_trimmed by exact Htrim. destruct t; [now destruct Hne | reflexivity]. }
    destruct tags as [|t2 tags].
    + cbn [join_comma_space]. rewrite split_comma_free by exact Hcomma.
      cbn [map List.filter]. rewrite Hkeep. now rewrite trim_of_trimmed.
    + change (join_comma_space (t :: t2 :: tags))
        with (t ++ comma :: 32 :: join_comma_space (t2 :: tags)).
      rewrite split_comma_app by exact Hcomma.
      cbn [map List.filter]. rewrite map_trim_split_space, Hkeep, IH.
      now rewrite trim_of_trimmed.
Qed.

Lemma parse_tags_clean tagsInput : Forall clean_tag (parse_tags tagsInput).
Proof.
  unfold parse_tags. apply List.Forall_forall. intros t Hin.
  apply filter_In in Hin as [Hin Hne]. apply in_map_iff in Hin as (piece & <- & Hpiece).
  pose proof (split_comma_pieces tagsInput) as Hfree.
  rewrite List.Forall_forall in Hfree. specialize (Hfree piece Hpiece).
  split; [|split].
  - destruct (trim piece); [discriminate | discriminate].
  - destruct (trim_infix piece) as (l & r & Hp). rewrite Hp in Hfree.
    exact (not_in_infix _ _ _ _ Hfree).
  - apply trim_trimmed.
Qed.

(** X8. The tags [handleSave] passes on are the pieces of the input between
    commas, trimmed, the empty ones dropped: none is empty, holds a comma or
    has white space at an end; and a prompt with such tags, opened in the
    editor and saved as it is, keeps its tags. *)
Theorem handleSave_tags :
  (forall e payload,
      handleSave e = Some payload ->
      exists tags,
        assoc (js "tags") payload = Some (VArr (map VStr tags))
        /\ tags = parse_tags (e_tagsInput e)
        /\ Forall clean_tag tags)
  /\ (forall p,
        Forall clean_tag (Prompt.tags p) ->
        parse_tags (e_tagsInput (editor_of p)) = Prompt.tags p).
Proof.
  split.
  - intros e payload. unfold handleSave.
    destruct (_ || _); [discriminate|]. intros [= <-].
    exists (parse_tags (e_tagsInput e)). split; [reflexivity|].
    split; [reflexivity | apply parse_tags_clean].
  - intros p Hclean. cbn [editor_of e_tagsInput]. now apply parse_tags_join.
Qed.

Lemma handleSave_payload e payload :
  handleSave e = Some payload ->
  exists title content category tags fav,
    payload = [ (js "title", VStr title); (js "content", VStr content);
                (js "category", VStr category); (js "tags", VArr (map VStr tags));
                (js "isFavorite", VBool fav) ]
    /\ title <> [] /\ content <> [].
Proof.
  unfold handleSave.
  destruct (trim (e_title e)) as [|c1 t1] eqn:Ht; [discriminate|].
  destruct (trim (e_content e)) as [|c2 t2] eqn:Hc; [discriminate|].
  cbn [truthy_str negb orb]. intros [= <-]. do 5 eexists.
  split; [reflexivity|]. split; discriminate.
Qed.

Lemma forallb_is_VStr tags : forallb is_VStr (map VStr tags) = true.
Proof. induction tags; [reflexivity | exact IHtags]. Qed.

(** Rewrites with the fields a full prompt is known to have. *)
Ltac use_shape Hp :=
  unfold is_Prompt in Hp; rewrite !andb_true_iff in Hp;
  destruct Hp as [[[[[[[[? ?] ?] ?] ?] ?] ?] ?] ?];
  repeat match goal with
         | Hf : has_field _ _ _ = true |- _ => rewrite Hf; clear Hf
         end.

Lemma new_record_is_Prompt e payload id now :
  handleSave e = Some payload -> is_Prompt (new_record (VObj payload) id now) = true.
Proof.
  intros Hsave.
  destruct (handleSave_payload e payload Hsave) as (t & c & cat & tags & fav & -> & _).
  unfold new_record, is_Prompt. cbn [own_props].
  rewrite !has_field_set_prop. eval_keys.
  unfold has_field. cbn [assoc]. eval_keys.
  cbn [is_VStr is_VNum is_VBool andb]. now rewrite forallb_is_VStr.
Qed.

Lemma updated_is_Prompt e payload id now p :
  handleSave e = Some payload -> is_Prompt p = true ->
  is_Prompt (updated id payload now p) = true.
Proof.
  intros Hsave Hp. unfold updated. destruct (has_id id p); [|exact Hp].
  destruct (handleSave_payload e payload Hsave) as (t & c & cat & tags & fav & -> & _).
  destruct (is_Prompt_inv p Hp) as (fields & i & b & -> & _).
  unfold is_Prompt at 1. cbn [own_props spread_over fold_left fst snd].
  rewrite !has_field_set_prop. eval_keys.
  cbn [is_VStr is_VNum is_VBool]. rewrite forallb_is_VStr.
  use_shape Hp. reflexivity.
Qed.

Section ActionFacts.
Context `{WebCrypto} `{JSONApi}.
Variable env : Env.

(** X7. [addPrompt] with the object the editor passes, on a dataset of full
    prompts: one entry is appended and no other changes; it holds the five
    properties of the editor, then the id drawn, the clock reading as
    [createdAt] and as [updatedAt], and [usageCount] 0; one id is drawn, and
    one timeout is left pending, carrying the new dataset. *)
Theorem addPrompt_appends e payload s :
  handleSave e = Some payload ->
  forallb is_Prompt (s_prompts s) = true ->
  one_pending s ->
  let s' := exec (addPrompt env (VObj payload)) s in
  s_prompts s'
  = s_prompts s
    ++ [VObj (payload
              ++ [ (js "id", VStr (randomUUID env (uuid_calls s)));
                   (js "createdAt", VNum (clock s));
                   (js "updatedAt", VNum (clock s));
                   (js "usageCount", VNum 0) ])]
  /\ forallb is_Prompt (s_prompts s') = true
  /\ uuid_calls s' = S (uuid_calls s)
  /\ timers s' = [(next_timer s, ((clock s + SAVE_DELAY)%Z, s_prompts s'))].
Proof.
  intros Hsave Hall Hinv s'.
  set (r := new_record (VObj payload) (randomUUID env (uuid_calls s)) (clock s)).
  assert (Hr : r = VObj (payload
                         ++ [ (js "id", VStr (randomUUID env (uuid_calls s)));
                              (js "createdAt", VNum (clock s));
                              (js "updatedAt", VNum (clock s));
                              (js "usageCount", VNum 0) ])).
  { destruct (handleSave_payload e payload Hsave)
      as (t & c & cat & tags & fav & -> & _).
    unfold r, new_record. cbn [own_props set_prop]. eval_keys. reflexivity. }
  set (s1 := set_uuid_calls (S (uuid_calls s)) s).
  assert (Hrun : s' = exec (modifyPrompts (fun prev => Ret (prev ++ [r]))) s1).
  { reflexivity. }
  assert (Hinv1 : one_pending s1) by exact Hinv.
  destruct (modifyPrompts_schedules (fun prev => Ret (prev ++ [r])) s1 _ Hinv1 eq_refl)
    as (Hp & Ht & _).
  rewrite <- Hrun in Hp, Ht.
  split; [now rewrite Hp, Hr|]. split; [|split].
  - rewrite Hp. change (s_prompts s1) with (s_prompts s).
    rewrite forallb_app, Hall. cbn [forallb andb]. rewrite andb_true_r.
    now apply (new_record_is_Prompt e).
  - rewrite Hrun. unfold modifyPrompts, debouncedSave, setTimeout, clearTimeout.
    run_M. destruct (saveTimeoutRef s1) as [h|]; [destruct (h =? 0)%nat|]; reflexivity.
  - now rewrite Ht, Hp.
Qed.

End ActionFacts.

Section Shape.
Context `{WebCrypto} `{JSONApi}.
Variable env : Env.

(** X9. The four actions keep a dataset of full prompts one: whatever the
    editor passes to [onSave], added by [addPrompt] or merged by
    [updatePrompt], gives a full prompt, and [deletePrompt] and
    [toggleFavorite] only drop entries or flip a boolean. *)
Theorem actions_keep_shape e payload id s :
  handleSave e = Some payload ->
  forallb is_Prompt (s_prompts s) = true ->
  forallb is_Prompt (s_prompts (exec (addPrompt env (VObj payload)) s)) = true
  /\ forallb is_Prompt (s_prompts (exec (updatePrompt id payload) s)) = true
  /\ forallb is_Prompt (s_prompts (exec (deletePrompt id) s)) = true
  /\ forallb is_Prompt (s_prompts (exec (toggleFavorite id) s)) = true.
Proof.
  intros Hsave Hall.
  pose proof (forallb_is_Prompt_not_nullish _ Hall) as Hnn.
  split; [|split; [|split]].
  - set (r := new_record (VObj payload) (randomUUID env (uuid_calls s)) (clock s)).
    set (s1 := set_uuid_calls (S (uuid_calls s)) s).
    change (exec (addPrompt env (VObj payload)) s)
      with (exec (modifyPrompts (fun prev => Ret (prev ++ [r]))) s1).
    rewrite (modifyPrompts_run _ s1 (s_prompts s ++ [r]) eq_refl).
    rewrite forallb_app, Hall. cbn [forallb andb]. rewrite andb_true_r.
    now apply (new_record_is_Prompt e).
  - rewrite (updatePrompt_run id payload s Hnn).
    apply List.forallb_forall. intros q Hq. apply in_map_iff in Hq as (p & <- & Hp).
    apply (updated_is_Prompt e); [exact Hsave|].
    rewrite List.forallb_forall in Hall. auto.
  - unfold deletePrompt. rewrite (modifyPrompts_run _ s _ (delete_updater_spec id _ Hnn)).
    apply List.forallb_forall. intros p Hp. apply filter_In in Hp as [Hp _].
    rewrite List.forallb_forall in Hall. auto.
  - exact (proj2 (toggleFavorite_run id s Hall)).
Qed.

End Shape.

(** ** A dataset with a [null] entry *)

Section NullEntry.
Context `{WebCrypto} `{JSONApi}.

(** X10. When the dataset holds a [null] or [undefined] entry (a remote or
    cached document can bring one), [updatePrompt], [deletePrompt],
    [toggleFavorite] and the updater of [importData] throw a [TypeError]
    from inside the state update, and the state stays as it was: no entry
    changes and no save is scheduled. *)
Theorem actions_throw_on_null_entry id updates text data s :
  existsb nullish (s_prompts s) = true ->
  JSON_parse (VStr text) = Ret (VArr data) ->
  updatePrompt id updates s = (s, Throw TypeError)
  /\ deletePrompt id s = (s, Throw TypeError)
  /\ toggleFavorite id s = (s, Throw TypeError)
  /\ importData_onload text s = (s, Throw TypeError).
Proof.
  intros Hnull Hparse. split; [|split; [|split]].
  - unfold updatePrompt, bindM, Date_now, gets.
    apply modifyPrompts_throw. apply map_outcome_throws; [| |exact Hnull].
    + intros x Hx. unfold update_one. rewrite get_prop_nullish by exact Hx. reflexivity.
    + intros x e. unfold update_one.
      destruct (get_prop x (js "id")) as [pid|e'] eqn:Hg; cbn [mbind outcome_bind bind].
      * destruct (strict_eq_str pid id); discriminate.
      * intros [= <-]. exact (get_prop_throws _ _ _ Hg).
  - apply modifyPrompts_throw. apply filter_outcome_throws; [| |exact Hnull].
    + intros x Hx. cbv beta. rewrite get_prop_nullish by exact Hx. reflexivity.
    + intros x e. cbv beta.
      destruct (get_prop x (js "id")) as [pid|e'] eqn:Hg; cbn [mbind outcome_bind bind].
      * discriminate.
      * intros [= <-]. exact (get_prop_throws _ _ _ Hg).
  - apply modifyPrompts_throw. apply map_outcome_throws; [| |exact Hnull].
    + intros x Hx. unfold toggle_one. rewrite !get_prop_nullish by exact Hx. reflexivity.
    + intros x e. unfold toggle_one.
      destruct (get_prop x (js "id")) as [pid|e'] eqn:Hg; cbn [mbind outcome_bind bind].
      * destruct (strict_eq_str pid id); [|discriminate].
        destruct (get_prop x (js "isFavorite")) as [fav|e''] eqn:Hf;
          cbn [mbind outcome_bind bind]; [discriminate|].
        intros [= <-]. exact (get_prop_throws _ _ _ Hf).
      * intros [= <-]. exact (get_prop_throws _ _ _ Hg).
  - unfold importData_onload. rewrite Hparse.
    apply modifyPrompts_throw. unfold import_updater.
    rewrite (map_outcome_throws (fun p => get_prop p (js "id")) (s_prompts s));
      [reflexivity| | |exact Hnull].
    + intros x Hx. now apply get_prop_nullish.
    + intros x e. apply get_prop_throws.
Qed.

End NullEntry.

(** ** [forceSync] *)

Section ForceSync.
Context `{WebCrypto} `{JSONApi}.
Variable env : Env.
Variable pin : jsstring.

(** X11. [forceSync] without a credential does nothing at all. With one,
    when no handle is stored or the fetch answers [null], it leaves the
    dataset, the storage and the pending timeouts as they were, sends
    nothing, and ends with status [error]; a fetch that rejects ends the
    same way under another message. *)
Theorem forceSync_failure s :
  (truthy_opt (tokenRef s) = false -> forceSync env pin s = (s, Ret tt))
  /\ (forall token,
        tokenRef s = Some token -> truthy_str token = true ->
        (truthy_opt (localStorage s !! LS_GIST_ID) = false
         \/ exists gistId,
              localStorage s !! LS_GIST_ID = Some gistId
              /\ (loadFromGist env token gistId = Ret None
                  \/ exists e, loadFromGist env token gistId = Throw e)) ->
        exists s',
          forceSync env pin s = (s', Ret tt)
          /\ s_prompts s' = s_prompts s
          /\ localStorage s' = localStorage s
          /\ timer_view s' = timer_view s
          /\ upserts s' = upserts s
          /\ s_syncStatus s' = error
          /\ (s_syncMessage s' = utf8 "Не удалось загрузить"
              \/ s_syncMessage s' = utf8 "Ошибка синхронизации")).
Proof.
  split.
  - intros Htok. unfold forceSync. run_M.
    destruct (tokenRef s) as [token|]; cbn [truthy_opt] in Htok; [rewrite Htok|];
      reflexivity.
  - intros token Htok Htruthy Hfail. unfold forceSync.
    unfold bindM at 1, gets at 1. rewrite Htok. unfold if_truthy at 1. rewrite Htruthy.
    run_M.
    destruct Hfail as [Hnone | (gistId & Hg & [Hload | [e Hload]])].
    + destruct (localStorage s !! LS_GIST_ID) as [g|]; cbn [truthy_opt] in Hnone;
        [rewrite Hnone|]; simpl_state; eexists; (split; [reflexivity|]);
        simpl_state; (do 5 (split; [reflexivity|])); left; reflexivity.
    + rewrite Hg. destruct (truthy_str gistId); simpl_state; rewrite ?Hload;
        simpl_state; eexists; (split; [reflexivity|]); simpl_state;
        (do 5 (split; [reflexivity|])); left; reflexivity.
    + rewrite Hg. destruct (truthy_str gistId); simpl_state; rewrite ?Hload;
        simpl_state; eexists; (split; [reflexivity|]); simpl_state.
      * (do 5 (split; [reflexivity|])); right; reflexivity.
      * (do 5 (split; [reflexivity|])); left; reflexivity.
Qed.

(** X12. [forceSync] with a credential, a stored handle and a fetch that
    answers a dataset replaces the displayed dataset by the fetched one and
    seals its JSON text in a fresh envelope, which decrypts under the pin to
    that text. When the storage accepts the envelope it replaces the cache
    entry and the status ends [synced]; when the storage refuses it,
    [setItem] throws into the [catch] block: the storage is as it was and
    the status ends [error], the fetched dataset staying on display. Either
    way nothing is sent and the pending timeouts are as they were, so an
    edit still waiting is propagated afterwards. *)
Theorem forceSync_success s token gistId data :
  tokenRef s = Some token -> truthy_str token = true ->
  localStorage s !! LS_GIST_ID = Some gistId -> truthy_str gistId = true ->
  loadFromGist env token gistId = Ret (Some data) ->
  entropy_ok (getRandomValues env (encrypt_calls s)) ->
  well_formed (stringify data) = true -> starts_with_bom (stringify data) = false ->
  let envelope :=
    envelope_of (getRandomValues env (encrypt_calls s)) (stringify data) pin in
  decrypt envelope pin = Ret (stringify data)
  /\ (setItem_accepts env (localStorage s) LS_ENCRYPTED_CACHE envelope = true ->
      exists s',
        forceSync env pin s = (s', Ret tt)
        /\ s_prompts s' = prompts data
        /\ localStorage s' = <[LS_ENCRYPTED_CACHE := envelope]> (localStorage s)
        /\ s_syncStatus s' = synced
        /\ s_syncMessage s' = utf8 "Обновлено из облака"
        /\ upserts s' = upserts s
        /\ timer_view s' = timer_view s)
  /\ (setItem_accepts env (localStorage s) LS_ENCRYPTED_CACHE envelope = false ->
      exists s',
        forceSync env pin s = (s', Ret tt)
        /\ s_prompts s' = prompts data
        /\ localStorage s' = localStorage s
        /\ s_syncStatus s' = error
        /\ s_syncMessage s' = utf8 "Ошибка синхронизации"
        /\ upserts s' = upserts s
        /\ timer_view s' = timer_view s).
Proof.
  intros Htok Htruthy Hg Hgt Hload Hent Hwf Hbom envelope.
  split.
  { pose proof (decrypt_encrypt_well_formed (getRandomValues env (encrypt_calls s))
                  (stringify data) pin Hent Hwf Hbom) as Hrt.
    now rewrite encrypt_returns in Hrt. }
  subst envelope.
  split; intros Hacc; unfold forceSync;
    unfold bindM at 1, gets at 1; rewrite Htok; unfold if_truthy at 1;
    rewrite Htruthy; run_M; rewrite Hg, Hgt; simpl_state; rewrite Hload;
    simpl_state; rewrite encrypt_returns; simpl_state; rewrite Hacc; simpl_state;
    eexists; (split; [reflexivity|]); simpl_state; repeat split.
Qed.

End ForceSync.


(** ** Backup and restore *)

Lemma filter_fresh_self ps :
  forallb is_Prompt ps = true -> List.filter (fresh_id ps) ps = [].
Proof.
  intros Hall.
  assert (Hgen : forall qs, (forall q, In q qs -> In q ps) ->
                   List.filter (fresh_id ps) qs = []).
  { induction qs as [|q qs IH]; intros Hsub; [reflexivity|].
    cbn [List.filter].
    assert (Hq : fresh_id ps q = false).
    { unfold fresh_id. apply negb_false_iff, existsb_exists.
      exists (id_of q). split; [apply in_map, Hsub; now left|].
      rewrite List.forallb_forall in Hall.
      destruct (is_Prompt_inv q (Hall q (Hsub q (or_introl eq_refl))))
        as (fields & i & b & -> & Hi & _).
      unfold id_of. cbn [get_prop]. rewrite Hi. cbn.
      unfold jsstring_eqb. now apply bool_decide_eq_true. }
    rewrite Hq. apply IH. intros x Hx. apply Hsub. now right. }
  apply Hgen. auto.
Qed.

Lemma filter_fresh_nil data : List.filter (fresh_id []) data = data.
Proof. induction data as [|p data IH]; [reflexivity|]. cbn. now rewrite IH. Qed.

Section Backup.
Context `{WebCrypto} `{JSONApi}.

(** X13. A backup restores: when the text [exportData] writes parses back
    to the dataset it was written from (no entry being [null]), importing it
    into an empty vault gives that dataset, and importing it into the vault
    it came from, a dataset of full prompts, adds nothing. *)
Theorem export_import_roundtrip s :
  JSON_parse (VStr (JSON_stringify (VArr (s_prompts s)) 2)) = Ret (VArr (s_prompts s)) ->
  forallb (fun p => negb (nullish p)) (s_prompts s) = true ->
  exists text,
    exportData s = (s, Ret text)
    /\ (forall s0, s_prompts s0 = [] ->
          s_prompts (exec (importData_onload text) s0) = s_prompts s)
    /\ (forallb is_Prompt (s_prompts s) = true ->
          s_prompts (exec (importData_onload text) s) = s_prompts s).
Proof.
  intros Hparse Hnn. eexists. split; [reflexivity|].
  unfold importData_onload. rewrite Hparse. split.
  - intros s0 Hempty. apply modifyPrompts_run. rewrite Hempty.
    rewrite import_updater_spec by exact Hnn. now rewrite filter_fresh_nil.
  - intros Hall. apply modifyPrompts_run.
    rewrite import_updater_spec by (rewrite forallb_app, Hnn; reflexivity).
    now rewrite filter_fresh_self, app_nil_r.
Qed.

End Backup.

(** ** The screens *)

Lemma trim_no_bom t : starts_with_bom (trim t) = false.
Proof.
  destruct (trim t) as [|c rest] eqn:Ht; [reflexivity|].
  pose proof (trim_trimmed t) as [Hhead _]. rewrite Ht in Hhead.
  specialize (Hhead c rest eq_refl). cbn [starts_with_bom].
  destruct (N.eqb_spec c 0xFEFF) as [->|]; [discriminate | reflexivity].
Qed.

(** Splits the acceptance of a list of writes and uses each answer. *)
Ltac accept_writes Hacc :=
  cbn [writes_if app accepts_writes] in Hacc;
  repeat (let Ha := fresh "Ha" in
          apply andb_prop in Hacc as [Ha Hacc];
          rewrite ?encrypt_returns; simpl_state;
          rewrite Ha; clear Ha; simpl_state).

Section ScreenFacts.
Context `{WebCrypto} `{JSONApi}.

Lemma envelope_truthy r t p : entropy_ok r -> truthy_str (envelope_of r t p) = true.
Proof.
  intros [Hs _]. unfold envelope_of.
  destruct (rnd_salt r) as [|a [|b [|c salt]]]; try discriminate. reflexivity.
Qed.

(** X14. [handleSubmit] of the lock screen never throws and leaves the
    storage alone. It calls [onUnlock], with the PIN typed, exactly when
    that PIN has four code units or more, a verifier is stored and
    [verifyPin] accepts the PIN against it; otherwise it shows an error, and
    a PIN shorter than four code units is refused before the storage is
    read or any promise awaited. *)
Theorem handleSubmit_unlocks v s :
  lk_unlocked v = None ->
  exists s' v',
    handleSubmit v s = (s', Ret v')
    /\ localStorage s' = localStorage s
    /\ (pin_accepted (localStorage s) (lk_pin v) ->
        lk_unlocked v' = Some (lk_pin v) /\ lk_loading v' = false /\ lk_error v' = [])
    /\ (~ pin_accepted (localStorage s) (lk_pin v) ->
        lk_unlocked v' = None /\ lk_error v' <> [])
    /\ ((length (lk_pin v) < 4)%nat -> s' = s).
Proof.
  intros Hnone. unfold handleSubmit, pin_accepted.
  destruct (Nat.ltb_spec (length (lk_pin v)) 4) as [Hshort|Hlong].
  { do 2 eexists. split; [reflexivity|]. cbn [lk_unlocked lk_pin lk_loading lk_error].
    split; [reflexivity|]. split; [|split].
    - intros [Hge _]. lia.
    - intros _. split; [exact Hnone|]. intros Hempty. vm_compute in Hempty. discriminate.
    - reflexivity. }
  unfold bindM, localStorage_getItem, gets, if_truthy, await, ret. cbn [fst snd].
  destruct (localStorage s !! LS_PIN_VERIFIER) as [verifier|] eqn:Hv.
  2:{ do 2 eexists. split; [reflexivity|]. cbn [lk_unlocked lk_pin lk_loading lk_error].
      split; [reflexivity|]. split; [|split].
      - intros (_ & ? & ? & _). discriminate.
      - intros _. split; [exact Hnone|]. intros Hempty. vm_compute in Hempty. discriminate.
      - intros Hlt. lia. }
  destruct (truthy_str verifier) eqn:Htr.
  2:{ do 2 eexists. split; [reflexivity|]. cbn [lk_unlocked lk_pin lk_loading lk_error].
      split; [reflexivity|]. split; [|split].
      - intros (_ & w & [= <-] & Hw & _). congruence.
      - intros _. split; [exact Hnone|]. intros Hempty. vm_compute in Hempty. discriminate.
      - intros Hlt. lia. }
  rewrite verifyPin_spec. cbn [fst snd].
  destruct (match decrypt verifier (lk_pin v) with
            | Ret result => jsstring_eqb result VERIFY_PHRASE
            | Throw _ => false
            end) eqn:Hok.
  - do 2 eexists. split; [reflexivity|]. cbn [lk_unlocked lk_pin lk_loading lk_error].
    split; [reflexivity|]. split; [|split].
    + intros _. repeat split.
    + intros Hno. exfalso. apply Hno. split; [exact Hlong|].
      exists verifier. split; [reflexivity|]. split; [exact Htr|].
      now rewrite verifyPin_spec, Hok.
    + intros Hlt. lia.
  - do 2 eexists. split; [reflexivity|]. cbn [lk_unlocked lk_pin lk_loading lk_error].
    split; [reflexivity|]. split; [|split].
    + intros (_ & w & [= <-] & _ & Hw). rewrite verifyPin_spec, Hok in Hw. discriminate.
    + intros _. split; [exact Hnone|]. intros Hempty. vm_compute in Hempty. discriminate.
    + intros Hlt. lia.
Qed.

Lemma handlePinStep_advances v :
  su_step v = 1%nat -> su_step (handlePinStep v) = 2%nat ->
  (4 <= length (su_pin v))%nat /\ su_pinConfirm v = su_pin v
  /\ su_pin (handlePinStep v) = su_pin v /\ su_token (handlePinStep v) = su_token v.
Proof.
  intros H1. unfold handlePinStep.
  destruct (Nat.ltb_spec (length (su_pin v)) 4) as [Hshort|Hlong].
  { cbn. intros H2. congruence. }
  unfold jsstring_eqb. case_bool_decide as Heq; cbn [negb].
  - intros _. repeat split; auto.
  - cbn. intros H2. congruence.
Qed.

Variable env : Env.
Variable validateToken : jsstring -> outcome validation.

(** Looks a key up in the storage after the writes of a handler. *)
Ltac after_writes :=
  simpl_state;
  repeat first [ rewrite lookup_insert_eq
               | rewrite lookup_insert_ne by discriminate ].

(** X15. A completed setup can be unlocked. When the PIN step has passed
    ([handlePinStep] reached step 2, so the PIN has four code units or more
    and was typed twice alike), the token is not blank and is validated, and
    the search for a gist does not reject, and the storage accepts the
    writes, [handleTokenStep] reaches step 3
    and leaves a storage on which [App] opens the lock screen, the lock
    screen accepts that PIN, and the credential entry decrypts under it to
    the trimmed token, which is what the bootstrap of [MainApp] then keeps
    as its credential. *)
Theorem setup_then_unlock v0 s val gist :
  su_step v0 = 1%nat -> su_step (handlePinStep v0) = 2%nat ->
  truthy_str (trim (su_token v0)) = true ->
  well_formed (trim (su_token v0)) = true ->
  validateToken (trim (su_token v0)) = Ret val -> valid val = true ->
  findVaultGist env (trim (su_token v0)) = Ret gist ->
  entropy_ok (getRandomValues env (encrypt_calls s)) ->
  entropy_ok (getRandomValues env (S (encrypt_calls s))) ->
  accepts_writes env (localStorage s)
    ([ (LS_PIN_VERIFIER,
        envelope_of (getRandomValues env (encrypt_calls s)) VERIFY_PHRASE (su_pin v0));
       (LS_ENCRYPTED_TOKEN,
        envelope_of (getRandomValues env (S (encrypt_calls s)))
          (trim (su_token v0)) (su_pin v0)) ]
     ++ writes_if (username val) (fun u => [(LS_USERNAME, u)])
     ++ writes_if gist (fun g => [(LS_GIST_ID, g)])) = true ->
  exists s1 v1,
    handleTokenStep env validateToken (handlePinStep v0) s = (s1, Ret v1)
    /\ su_step v1 = 3%nat /\ su_loading v1 = false
    /\ initial_screen (localStorage s1) = lock
    /\ pin_accepted (localStorage s1) (su_pin v0)
    /\ tokenRef (exec (init_token (su_pin v0)) s1) = Some (trim (su_token v0))
    /\ localStorage s1 !! LS_GIST_ID
       = (if truthy_opt gist then gist else localStorage s !! LS_GIST_ID).
Proof.
  intros H1 H2 Htok Hwf Hval Hvalid Hfind Hent1 Hent2 Hacc.
  destruct (handlePinStep_advances v0 H1 H2) as (Hlen & _ & Hpin & Htoken).
  set (v := handlePinStep v0) in *.
  set (pin := su_pin v0) in *. set (token := trim (su_token v0)) in *.
  assert (Hver : verifyPin pin
                   (envelope_of (getRandomValues env (encrypt_calls s)) VERIFY_PHRASE pin)
                 = Ret true).
  { pose proof (verifyPin_same (getRandomValues env (encrypt_calls s)) pin Hent1) as Hs.
    unfold createPinVerifier in Hs. now rewrite encrypt_returns in Hs. }
  assert (Hdec : decrypt (envelope_of (getRandomValues env (S (encrypt_calls s))) token pin) pin
                 = Ret token).
  { rewrite decrypt_envelope by exact Hent2.
    rewrite TextDecoder_TextEncoder; [reflexivity | exact Hwf | apply trim_no_bom]. }
  unfold handleTokenStep. rewrite Hpin, Htoken. fold pin token. rewrite Htok.
  cbn [negb]. unfold_M. simpl_state. rewrite Hval, Hvalid. cbn [negb].
  simpl_state. rewrite !encrypt_returns. simpl_state. rewrite Hfind. simpl_state.
  assert (Hinit : forall s1 envelope,
            localStorage s1 !! LS_ENCRYPTED_TOKEN = Some envelope ->
            envelope = envelope_of (getRandomValues env (S (encrypt_calls s))) token pin ->
            tokenRef (exec (init_token pin) s1) = Some token).
  { intros s1 envelope Hl ->. unfold exec.
    rewrite (init_token_ok pin s1 _ token Hl); [reflexivity | | exact Hdec].
    now apply envelope_truthy. }
  destruct (username val) as [u|]; [destruct (truthy_str u) eqn:Hu|];
    (destruct gist as [g|]; [destruct (truthy_str g) eqn:Hg|]);
    cbn [truthy_opt writes_if] in *; rewrite ?Hu, ?Hg in Hacc; rewrite ?Hg;
    accept_writes Hacc;
    do 2 eexists; (split; [reflexivity|]); simpl_state;
    (split; [reflexivity|]); (split; [reflexivity|]);
    (split; [unfold initial_screen; after_writes; cbn [truthy_opt];
             now rewrite envelope_truthy|]);
    (split; [split; [exact Hlen|]; eexists; after_writes;
             split; [reflexivity|]; split; [now apply envelope_truthy | exact Hver]|]);
    (split; [eapply Hinit; [after_writes; reflexivity | reflexivity]|]);
    after_writes; reflexivity.
Qed.

(** X16. A confirmed reset removes the five entries the application stores
    under and no other, after which [App] opens the setup screen; a
    declined one changes nothing. *)
Theorem handleReset_forgets s :
  handleReset false s = (s, Ret tt)
  /\ (forall k, In k app_keys -> localStorage (exec (handleReset true) s) !! k = None)
  /\ (forall k, ~ In k app_keys ->
        localStorage (exec (handleReset true) s) !! k = localStorage s !! k)
  /\ initial_screen (localStorage (exec (handleReset true) s)) = setup.
Proof.
  split; [reflexivity|].
  assert (Hls : localStorage (exec (handleReset true) s)
                = delete LS_USERNAME (delete LS_GIST_ID (delete LS_ENCRYPTED_CACHE
                    (delete LS_ENCRYPTED_TOKEN (delete LS_PIN_VERIFIER (localStorage s))))))
    by reflexivity.
  rewrite Hls. split; [|split].
  - intros k Hk. cbn [app_keys In] in Hk.
    destruct Hk as [<-|[<-|[<-|[<-|[<-|[]]]]]];
      repeat first [ apply lookup_delete_eq | rewrite lookup_delete_ne by discriminate ].
  - intros k Hk. cbn [app_keys In] in Hk.
    rewrite !lookup_delete_ne; [reflexivity|..]; intros Heq; subst k; tauto.
  - unfold initial_screen.
    repeat first [ rewrite lookup_delete_eq | rewrite lookup_delete_ne by discriminate ].
    reflexivity.
Qed.

Variable pin : jsstring.

(** X17. [handleUpdateToken] with a token that fails validation leaves the
    storage as it was. With one that passes, on a storage that accepts the
    writes, it replaces the credential entry by an envelope that decrypts
    under the session's pin to the trimmed token, and writes nothing else
    but the user name: the verifier, the cache and the gist handle found
    with the old token stay. *)
Theorem handleUpdateToken_storage v s val :
  truthy_str (trim (se_newToken v)) = true ->
  well_formed (trim (se_newToken v)) = true ->
  validateToken (trim (se_newToken v)) = Ret val ->
  entropy_ok (getRandomValues env (encrypt_calls s)) ->
  exists s' v',
    handleUpdateToken env validateToken pin v s = (s', Ret v')
    /\ (valid val = false ->
        localStorage s' = localStorage s /\ se_tokenStatus v' = ts_error)
    /\ (valid val = true ->
        accepts_writes env (localStorage s)
          ((LS_ENCRYPTED_TOKEN,
            envelope_of (getRandomValues env (encrypt_calls s))
              (trim (se_newToken v)) pin)
           :: writes_if (username val) (fun u => [(LS_USERNAME, u)])) = true ->
        se_tokenStatus v' = ts_success /\ se_newToken v' = []
        /\ (exists envelope,
              localStorage s' !! LS_ENCRYPTED_TOKEN = Some envelope
              /\ decrypt envelope pin = Ret (trim (se_newToken v)))
        /\ forall k, k <> LS_ENCRYPTED_TOKEN -> k <> LS_USERNAME ->
             localStorage s' !! k = localStorage s !! k).
Proof.
  intros Htok Hwf Hval Hent.
  assert (Hdec : decrypt (envelope_of (getRandomValues env (encrypt_calls s))
                            (trim (se_newToken v)) pin) pin
                 = Ret (trim (se_newToken v))).
  { rewrite decrypt_envelope by exact Hent.
    rewrite TextDecoder_TextEncoder; [reflexivity | exact Hwf | apply trim_no_bom]. }
  unfold handleUpdateToken. rewrite Htok. cbn [negb]. unfold_M. simpl_state.
  rewrite Hval. simpl_state. destruct (valid val); cbn [negb].
  - rewrite encrypt_returns. simpl_state. unfold writes_if.
    destruct (setItem_accepts env (localStorage s) LS_ENCRYPTED_TOKEN _) eqn:Ha1;
      simpl_state;
      (destruct (username val) as [u|]; [destruct (truthy_str u)|]); simpl_state;
      try (destruct (setItem_accepts env _ LS_USERNAME u) eqn:Ha2; simpl_state);
      do 2 eexists; (split; [reflexivity|]); simpl_state;
      (split; [discriminate|]); intros _;
      cbn [accepts_writes]; rewrite ?Ha1, ?Ha2; cbn [andb]; intros Hacc;
      try discriminate Hacc;
      (split; [reflexivity|]); (split; [reflexivity|]);
      (split; [eexists; split; [|exact Hdec];
               repeat first [ rewrite lookup_insert_eq
                            | rewrite lookup_insert_ne by discriminate ]; reflexivity|]);
      intros k Hk1 Hk2; repeat rewrite lookup_insert_ne by congruence; reflexivity.
  - do 2 eexists. split; [reflexivity|]. simpl_state.
    split; [intros _; split; reflexivity | discriminate].
Qed.

End ScreenFacts.

(** ** The remote store on well-formed answers *)

Section RemoteFacts.
Variable fetch : Gist.request -> outcome Gist.response.
Context `{JSONApi}.

(** X18. [validateToken] answers [valid: true], with the [login] of the body
    as user name, when the request for the user succeeds with a JSON body of
    which [login] can be read (any but [null]); in every other case it
    answers [valid: false]. *)
Theorem validateToken_valid token :
  (forall data login,
      answers fetch (user_request token) data ->
      get_prop data (js "login") = Ret login ->
      Gist.validateToken fetch token
      = Ret (VObj [(js "valid", VBool true); (js "username", login)]))
  /\ (~ (exists data login,
           answers fetch (user_request token) data
           /\ get_prop data (js "login") = Ret login) ->
      Gist.validateToken fetch token = Ret (VObj [(js "valid", VBool false)])).
Proof.
  unfold Gist.validateToken, answers, user_request. split.
  - intros data login (res & -> & Hok & Hjson) Hlogin.
    cbn [mbind outcome_bind bind try_catch]. rewrite Hok. cbn [negb].
    rewrite Hjson. cbn [mbind outcome_bind bind]. now rewrite Hlogin.
  - intros Hnone.
    destruct (fetch _) as [res|e] eqn:Hf; [|reflexivity].
    cbn [mbind outcome_bind bind]. destruct (Gist.res_ok res) eqn:Hok; [|reflexivity].
    cbn [negb]. destruct (Gist.res_json res) as [data|e] eqn:Hj; [|reflexivity].
    cbn [mbind outcome_bind bind].
    destruct (get_prop data (js "login")) as [login|e] eqn:Hl; [|reflexivity].
    exfalso. apply Hnone. exists data, login. split; [|exact Hl]. now exists res.
Qed.

Lemma array_find_vault gists :
  forallb well_listed gists = true ->
  array_find (fun g => files ← get_prop g (js "files"); js_in Gist.GIST_FILENAME files) gists
  = Ret (default VUndefined (List.find carries_vault gists)).
Proof.
  induction gists as [|g gists IH]; [reflexivity|].
  cbn [forallb]. intros Hw. apply andb_true_iff in Hw as [Hg Hrest].
  unfold well_listed in Hg.
  destruct g as [| | | | | |fields]; try discriminate.
  destruct (assoc (js "files") fields) as [[| | | | | |files]|] eqn:Ha; try discriminate.
  assert (Hc : carries_vault (VObj fields)
               = bool_decide (is_Some (assoc Gist.GIST_FILENAME files)))
    by (unfold carries_vault; now rewrite Ha).
  cbn [array_find List.find get_prop]. rewrite Hc, Ha.
  change (default VUndefined (Some (VObj files))) with (VObj files).
  cbn [mbind outcome_bind bind js_in].
  destruct (bool_decide (is_Some (assoc Gist.GIST_FILENAME files))); [reflexivity|].
  now apply IH.
Qed.

Lemma find_vault_truthy gists g :
  forallb well_listed gists = true -> List.find carries_vault gists = Some g ->
  truthy g = true /\ get_prop g (js "id") = Ret (id_of g).
Proof.
  intros Hw Hfind. apply find_some in Hfind as [Hin _].
  rewrite List.forallb_forall in Hw. specialize (Hw g Hin).
  destruct g; try discriminate. split; [reflexivity|]. now apply get_prop_id.
Qed.

(** X19. On a listing as the API gives it (each page an ok response whose
    body is an array of gist objects), [findVaultGist] answers the id of the
    first gist that has a file named [promptvault_data.json], looking
    through pages 1, 2 and 3 in order and stopping at the first empty page;
    it answers [null] when it finds none there, whatever page 4 holds. *)
Theorem findVaultGist_search token page1 page2 page3 :
  answers fetch (page_request token 1) (VArr page1) ->
  answers fetch (page_request token 2) (VArr page2) ->
  answers fetch (page_request token 3) (VArr page3) ->
  forallb well_listed (page1 ++ page2 ++ page3) = true ->
  Gist.findVaultGist fetch token = Ret (search [page1; page2; page3]).
Proof.
  intros (r1 & Hf1 & Hok1 & Hj1) (r2 & Hf2 & Hok2 & Hj2) (r3 & Hf3 & Hok3 & Hj3) Hw.
  rewrite !forallb_app, !andb_true_iff in Hw. destruct Hw as (Hw1 & Hw2 & Hw3).
  assert (Hpage : forall page gists r later,
            fetch (page_request token page) = Ret r -> Gist.res_ok r = true ->
            Gist.res_json r = Ret (VArr gists) -> forallb well_listed gists = true ->
            Gist.findVaultGist_pages fetch token (page :: later)
            = match gists with
              | [] => Ret VNull
              | _ :: _ =>
                  match List.find carries_vault gists with
                  | Some g => Ret (id_of g)
                  | None => Gist.findVaultGist_pages fetch token later
                  end
              end).
  { intros page gists r later Hf Hok Hj Hwl. cbn [Gist.findVaultGist_pages].
    unfold page_request in Hf. rewrite Hf. cbn [mbind outcome_bind bind].
    rewrite Hok. cbn [negb]. rewrite Hj. cbn [mbind outcome_bind bind get_prop].
    change (jsstring_eqb (js "length") (js "length")) with true. cbv iota.
    destruct gists as [|g gists]; [reflexivity|].
    change (Z.of_nat (length (g :: gists))) with (Z.pos (Pos.of_succ_nat (length gists))).
    cbn [js_find]. rewrite array_find_vault by exact Hwl.
    cbn [mbind outcome_bind bind].
    destruct (List.find carries_vault (g :: gists)) as [found|] eqn:Hfind.
    - destruct (find_vault_truthy _ _ Hwl Hfind) as [Ht Hid].
      change (default VUndefined (Some found)) with found. now rewrite Ht, Hid.
    - reflexivity. }
  unfold Gist.findVaultGist.
  rewrite (Hpage 1 page1 r1 [2; 3] Hf1 Hok1 Hj1 Hw1).
  rewrite (Hpage 2 page2 r2 [3] Hf2 Hok2 Hj2 Hw2).
  rewrite (Hpage 3 page3 r3 [] Hf3 Hok3 Hj3 Hw3).
  cbn [search Gist.findVaultGist_pages].
  destruct page1 as [|g1 page1]; [reflexivity|].
  destruct (List.find carries_vault (g1 :: page1)); [reflexivity|].
  destruct page2 as [|g2 page2]; [reflexivity|].
  destruct (List.find carries_vault (g2 :: page2)); [reflexivity|].
  destruct page3 as [|g3 page3]; [reflexivity|].
  destruct (List.find carries_vault (g3 :: page3)); reflexivity.
Qed.


(** X20. [saveToGist] with a handle sends a PATCH for that gist and answers
    the handle it was given when the response is ok, and [null] otherwise:
    an update never answers another handle. With no handle, or with the
    empty string for one, it sends a POST instead and answers the [id] of
    the gist in the response, or [null] when there is none to read. *)
Theorem saveToGist_handle token data :
  (forall gid, truthy_str gid = true ->
     ((exists res, fetch (update_request token gid data) = Ret res
                   /\ Gist.res_ok res = true) ->
      Gist.saveToGist fetch token (Some gid) data = Ret (VStr gid))
     /\ (~ (exists res, fetch (update_request token gid data) = Ret res
                        /\ Gist.res_ok res = true) ->
         Gist.saveToGist fetch token (Some gid) data = Ret VNull))
  /\ Gist.saveToGist fetch token (Some []) data = Gist.saveToGist fetch token None data
  /\ (forall gist v,
        answers fetch (create_request token data) gist ->
        get_prop gist (js "id") = Ret v ->
        Gist.saveToGist fetch token None data = Ret v)
  /\ (~ (exists gist v,
           answers fetch (create_request token data) gist
           /\ get_prop gist (js "id") = Ret v) ->
      Gist.saveToGist fetch token None data = Ret VNull).
Proof.
  unfold Gist.saveToGist, update_request, create_request, gist_body, uploaded_files, answers.
  split; [|split; [reflexivity|split]].
  - intros gid Hgid. cbn [truthy_opt]. rewrite Hgid. split.
    + intros (res & -> & Hok). cbn [mbind outcome_bind bind]. now rewrite Hok.
    + intros Hnone. destruct (fetch _) as [res|e] eqn:Hf; [|reflexivity].
      cbn [mbind outcome_bind bind]. destruct (Gist.res_ok res) eqn:Hok; [|reflexivity].
      exfalso. apply Hnone. now exists res.
  - intros gist v (res & -> & Hok & Hjson) Hid. cbn [truthy_opt mbind outcome_bind bind].
    rewrite Hok. cbn [negb]. rewrite Hjson. cbn [mbind outcome_bind bind]. now rewrite Hid.
  - intros Hnone. cbn [truthy_opt].
    destruct (fetch _) as [res|e] eqn:Hf; [|reflexivity].
    cbn [mbind outcome_bind bind]. destruct (Gist.res_ok res) eqn:Hok; [|reflexivity].
    cbn [negb]. destruct (Gist.res_json res) as [gist|e] eqn:Hj; [|reflexivity].
    cbn [mbind outcome_bind bind].
    destruct (get_prop gist (js "id")) as [v|e] eqn:Hid; [|reflexivity].
    exfalso. apply Hnone. exists gist, v. split; [|exact Hid]. now exists res.
Qed.

(** X28. What [saveToGist] uploads is what [loadFromGist] reads: from an ok
    response whose body holds the [files] of the document [saveToGist] sends
    for [data], [loadFromGist] answers what [JSON.parse] makes of the text
    [JSON.stringify(data, null, 2)], and [null] when that text does not
    parse. *)
Theorem loadFromGist_reads_upload token gistId data body :
  answers fetch (get_request token gistId) body ->
  get_prop body (js "files") = Ret (uploaded_files data) ->
  Gist.loadFromGist fetch token gistId
  = Ret (match JSON_parse (VStr (JSON_stringify (VaultData_to_value data) 2)) with
         | Ret v => v
         | Throw _ => VNull
         end).
Proof.
  intros (res & Hf & Hok & Hjson) Hfiles. unfold Gist.loadFromGist.
  unfold get_request in Hf. rewrite Hf. cbn [mbind outcome_bind bind].
  rewrite Hok. cbn [negb]. rewrite Hjson. cbn [mbind outcome_bind bind].
  rewrite Hfiles. unfold uploaded_files. cbn [mbind outcome_bind bind get_prop assoc].
  change (jsstring_eqb Gist.GIST_FILENAME Gist.GIST_FILENAME) with true. cbv iota.
  change (default VUndefined (Some ?v)) with v. cbn [truthy negb].
  change (get_prop (VObj [(js "content", ?c)]) (js "content")) with (Ret c).
  cbn [mbind outcome_bind bind].
  now destruct (JSON_parse _).
Qed.

End RemoteFacts.

(** ** Base64 of byte arrays, and text that is not base64 *)

Lemma length_b64_encode_exact bs :
  length (b64_encode bs) = (4 * ((length bs + 2) / 3))%nat.
Proof.
  induction bs as [| a | a b | a b c bs IH] using list_ind3; try reflexivity.
  cbn [b64_encode length]. rewrite IH.
  replace (S (S (S (length bs))) + 2)%nat with (length bs + 2 + 1 * 3)%nat by lia.
  rewrite Nat.div_add by lia. lia.
Qed.

(** X21. [arrayBufferToBase64] returns for every byte array (no byte is
    above 0xFF, so [btoa] accepts the string built from it), its result has
    four code units for every three bytes, rounded up, and
    [base64ToUint8Array] gives the byte array back from it. *)
Theorem arrayBufferToBase64_decodes (buf : list byte) :
  exists s,
    arrayBufferToBase64 buf = Ret s
    /\ length s = (4 * ((length buf + 2) / 3))%nat
    /\ base64ToUint8Array s = Ret buf.
Proof.
  exists (b64_encode (map Byte.to_N buf)).
  pose proof (base64_roundtrip buf) as Hrt.
  unfold arrayBufferToBase64 in *. rewrite btoa_bytes in *.
  split; [reflexivity|]. split; [|exact Hrt].
  now rewrite length_b64_encode_exact, length_map.
Qed.

Lemma b64_indices_bad s c :
  In c s -> b64_index c = None -> b64_indices s = None.
Proof.
  induction s as [|d s IH]; [intros []|]. intros [->|Hin] Hc; cbn [b64_indices].
  - now rewrite Hc.
  - rewrite IH by assumption. now destruct (b64_index d).
Qed.

Lemma strip_padding_keeps c s :
  In c s -> c <> b64_pad -> In c (strip_padding s).
Proof.
  intros Hin Hc. unfold strip_padding.
  destruct (rev s) as [|c1 r1] eqn:Hr; [exact Hin|].
  assert (Hs : s = rev r1 ++ [c1]).
  { apply (f_equal (@rev N)) in Hr. now rewrite rev_involutive in Hr. }
  destruct (N.eqb_spec c1 b64_pad) as [->|]; [|exact Hin].
  assert (Hin1 : In c (rev r1)).
  { rewrite Hs in Hin. apply in_app_or in Hin as [?|[<-|[]]]; [assumption|congruence]. }
  destruct r1 as [|c2 r2]; [exact Hin1|].
  destruct (N.eqb_spec c2 b64_pad) as [->|]; [|exact Hin1].
  cbn [rev] in Hin1. apply in_app_or in Hin1 as [?|[<-|[]]]; [assumption|congruence].
Qed.

Lemma atob_rejects s c :
  In c s -> b64_accepts c = false -> atob s = Throw InvalidCharacterError.
Proof.
  unfold b64_accepts. intros Hin Hc.
  apply orb_false_iff in Hc as [Hc Hpad]. apply orb_false_iff in Hc as [Hidx Hws].
  apply N.eqb_neq in Hpad.
  assert (Hnone : b64_index c = None).
  { destruct (b64_index c); [|reflexivity].
    rewrite bool_decide_eq_true_2 in Hidx by eauto. discriminate. }
  unfold atob.
  set (s1 := List.filter (fun c => negb (is_ascii_whitespace c)) s).
  assert (Hin1 : In c s1) by (apply filter_In; now rewrite Hws).
  set (s2 := if N.of_nat (length s1) mod 4 =? 0 then strip_padding s1 else s1).
  assert (Hin2 : In c s2).
  { subst s2. destruct (_ =? 0); [now apply strip_padding_keeps | exact Hin1]. }
  destruct (_ =? 1); [reflexivity|].
  now rewrite (b64_indices_bad s2 c Hin2 Hnone).
Qed.

Section Distinct.
Context `{WebCrypto}.

(** X29. An envelope determines what went into it: two calls of [encrypt]
    that return the same envelope drew the same salt and the same nonce and
    sealed the same ciphertext, so a fresh salt gives a fresh envelope; and
    under one passphrase they sealed the same plaintext, when the plaintexts
    are well formed and start with no U+FEFF. *)
Theorem encrypt_injective r r' t t' p p' e :
  entropy_ok r -> entropy_ok r' ->
  encrypt r t p = Ret e -> encrypt r' t' p' = Ret e ->
  rnd_salt r = rnd_salt r' /\ rnd_iv r = rnd_iv r'
  /\ aes_gcm_encrypt (deriveKey p (rnd_salt r)) (rnd_iv r) (TextEncoder_encode t)
     = aes_gcm_encrypt (deriveKey p' (rnd_salt r')) (rnd_iv r') (TextEncoder_encode t')
  /\ (p = p' -> well_formed t = true -> starts_with_bom t = false ->
      well_formed t' = true -> starts_with_bom t' = false -> t = t').
Proof.
  intros Hr Hr' He He'. rewrite encrypt_returns in He, He'.
  injection He as He. injection He' as He'.
  assert (Hsame : p = p' -> well_formed t = true -> starts_with_bom t = false ->
                  well_formed t' = true -> starts_with_bom t' = false -> t = t').
  { intros <- Hwf Hbom Hwf' Hbom'.
    pose proof (decrypt_envelope r t p Hr) as Hd.
    pose proof (decrypt_envelope r' t' p Hr') as Hd'.
    rewrite He in Hd. rewrite He' in Hd'. rewrite Hd in Hd'.
    rewrite !TextDecoder_TextEncoder in Hd' by assumption. congruence. }
  assert (Hbytes : rnd_salt r ++ rnd_iv r
                   ++ aes_gcm_encrypt (deriveKey p (rnd_salt r)) (rnd_iv r)
                        (TextEncoder_encode t)
                 = rnd_salt r' ++ rnd_iv r'
                   ++ aes_gcm_encrypt (deriveKey p' (rnd_salt r')) (rnd_iv r')
                        (TextEncoder_encode t')).
  { unfold envelope_of in He, He'. rewrite <- He' in He.
    apply (f_equal atob) in He.
    rewrite !atob_b64_encode in He by apply all_below_bytes.
    injection He as He. apply (f_equal (map byte_of_N)) in He.
    now rewrite !map_byte_of_N_to_N in He. }
  destruct Hr as [Hs Hi], Hr' as [Hs' Hi'].
  apply app_inj_1 in Hbytes as [Hsalt Hrest]; [|congruence].
  apply app_inj_1 in Hrest as [Hiv Hct]; [|congruence].
  repeat split; assumption.
Qed.

End Distinct.

Section Malformed.
Context `{WebCrypto}.

(** X22. A text that holds a code unit [atob] does not accept (outside the
    base64 alphabet, the padding sign and white space) is no envelope:
    [base64ToUint8Array] and [decrypt] reject it with an
    [InvalidCharacterError] before any key is derived, and [verifyPin]
    answers [false] for it. *)
Theorem decrypt_rejects_non_base64 text pin c :
  In c text -> b64_accepts c = false ->
  base64ToUint8Array text = Throw InvalidCharacterError
  /\ decrypt text pin = Throw InvalidCharacterError
  /\ verifyPin pin text = Ret false.
Proof.
  intros Hin Hc. pose proof (atob_rejects text c Hin Hc) as Hatob.
  assert (Hb : base64ToUint8Array text = Throw InvalidCharacterError).
  { unfold base64ToUint8Array. now rewrite Hatob. }
  assert (Hd : decrypt text pin = Throw InvalidCharacterError).
  { unfold decrypt. now rewrite Hb. }
  repeat split; auto. now rewrite verifyPin_spec, Hd.
Qed.

End Malformed.

(** ** Other paths of the bootstrap, and a propagation that succeeds *)

Section MoreBootstrap.
Context `{WebCrypto} `{JSONApi}.
Variable env : Env.
Variable pin : jsstring.

(** X23. The first bootstrap of a device with no credential entry and no
    cache entry displays the three built-in defaults, sends nothing, writes
    nothing to the storage and ends with status [offline]. *)
Theorem bootstrap_offline ls now :
  truthy_opt (ls !! LS_ENCRYPTED_TOKEN) = false ->
  truthy_opt (ls !! LS_ENCRYPTED_CACHE) = false ->
  exists s,
    mount env pin None (initial_state ls now) = (s, Ret tt)
    /\ s_syncStatus s = offline
    /\ s_prompts s = prompts (defaults_at env (initial_state ls now))
    /\ length (s_prompts s) = 3%nat
    /\ s_dataLoaded s = true
    /\ tokenRef s = None
    /\ localStorage s = ls
    /\ upserts s = [].
Proof.
  intros Hnone Hcold. set (s0 := initial_state ls now).
  unfold mount, init.
  assert (Htoken : init_token pin s0 = (s0, Ret tt)).
  { unfold init_token, bindM, localStorage_getItem, gets, if_truthy.
    change (localStorage s0) with ls.
    destruct (ls !! LS_ENCRYPTED_TOKEN) as [t|]; cbn [truthy_opt] in Hnone;
      [rewrite Hnone|]; reflexivity. }
  assert (Hcache : init_cache env pin None s0 = (s0, Ret tt)).
  { unfold init_cache, bindM, localStorage_getItem, gets, if_truthy.
    change (localStorage s0) with ls.
    destruct (ls !! LS_ENCRYPTED_CACHE) as [c|]; cbn [truthy_opt] in Hcold;
      [rewrite Hcold|]; reflexivity. }
  unfold try_M.
  erewrite bindM_ret by exact Htoken.
  erewrite bindM_ret by exact Hcache.
  unfold bindM at 1, gets at 1. cbn [tokenRef s0 initial_state if_truthy].
  unfold init_offline, cancelled. unfold bindM at 1, gets at 1, when. cbn [negb andb].
  erewrite bindM_ret; cycle 1.
  { erewrite bindM_ret by apply getDefaultData_run. run_M. reflexivity. }
  run_M. eexists. split; [reflexivity|]. simpl_state.
  repeat split; auto.
Qed.

(** The bootstrap of a session whose credential decrypts, up to the block
    that syncs from the gist. *)
Lemma init_reaches_sync s0 encToken token :
  localStorage s0 !! LS_ENCRYPTED_TOKEN = Some encToken ->
  truthy_str encToken = true ->
  decrypt encToken pin = Ret token ->
  truthy_str token = true ->
  exists s2,
    mount env pin None s0
    = try_M (init_sync env pin false None token) (fun _ => init_catch env false None) s2
    /\ tokenRef s2 = Some token
    /\ localStorage s2 = localStorage s0
    /\ encrypt_calls s2 = encrypt_calls s0
    /\ uuid_calls s2 = uuid_calls s0
    /\ upserts s2 = upserts s0
    /\ clock s2 = clock s0.
Proof.
  intros Hls Htruthy Hdec Htok.
  pose proof (init_token_ok pin s0 encToken token Hls Htruthy Hdec) as Htoken.
  set (s1 := commit "tokenRef" _) in Htoken.
  destruct (init_cache_frame env pin None s1)
    as (s2 & Hcache & Htr & Hl & Hec & Huu & Hup & Hck & Hst & Hmsg & Haw).
  exists s2. split; [|repeat split; assumption].
  unfold mount, init, try_M.
  erewrite bindM_ret by exact Htoken.
  erewrite bindM_ret by exact Hcache.
  unfold bindM at 1, gets at 1. rewrite Htr.
  cbn [tokenRef s1 set_tokenRef commit set_commits]. unfold if_truthy at 1.
  now rewrite Htok.
Qed.

(** X24. A bootstrap with a credential and no stored handle searches for the
    gist; when the search finds one, its fetch answers a dataset and the
    storage accepts the two writes, the handle is stored, the fetched
    dataset is displayed and sealed into the cache entry, nothing is sent,
    and the status ends [synced]. *)
Theorem bootstrap_discovers_gist s0 encToken token foundId data :
  localStorage s0 !! LS_ENCRYPTED_TOKEN = Some encToken ->
  truthy_str encToken = true ->
  decrypt encToken pin = Ret token ->
  truthy_str token = true ->
  truthy_opt (localStorage s0 !! LS_GIST_ID) = false ->
  findVaultGist env token = Ret (Some foundId) ->
  truthy_str foundId = true ->
  loadFromGist env token foundId = Ret (Some data) ->
  accepts_writes env (localStorage s0)
    [ (LS_GIST_ID, foundId);
      (LS_ENCRYPTED_CACHE,
       envelope_of (getRandomValues env (encrypt_calls s0)) (stringify data) pin) ]
  = true ->
  exists s,
    mount env pin None s0 = (s, Ret tt)
    /\ s_prompts s = prompts data
    /\ s_syncStatus s = synced
    /\ localStorage s
       = <[LS_ENCRYPTED_CACHE :=
             envelope_of (getRandomValues env (encrypt_calls s0)) (stringify data) pin]>
           (<[LS_GIST_ID := foundId]> (localStorage s0))
    /\ upserts s = upserts s0.
Proof.
  intros Hls Htruthy Hdec Htok Hgid Hfind Hfound Hload Hacc.
  destruct (init_reaches_sync s0 encToken token Hls Htruthy Hdec Htok)
    as (s2 & -> & Htr & Hl & Hec & Huu & Hup & Hck).
  rewrite <- Hl, <- Hec in Hacc.
  unfold init_sync, sync_rest, sync_known_gist, known_gist_fetched,
    sync_find_gist, adopt_remote.
  run_M.
  destruct (localStorage s2 !! LS_GIST_ID) as [g|] eqn:Hg;
    rewrite Hl in Hg; rewrite Hg in Hgid; cbn [truthy_opt] in Hgid;
    [rewrite Hgid|]; simpl_state; rewrite Hfind; simpl_state; rewrite Hfound;
    simpl_state; accept_writes Hacc; rewrite Hload; simpl_state;
    accept_writes Hacc;
    (eexists; split; [reflexivity|]); simpl_state; rewrite Hl, Hec, Hup; repeat split.
Qed.

(** X25. The first bootstrap of a device with a credential, no cache entry,
    no stored handle and a search that finds no gist installs the built-in
    defaults and uploads them in one call of [saveToGist] with no handle;
    when the storage accepts the two writes, the handle the call answers is
    stored, the defaults are sealed into the cache entry, and the status
    ends [synced]. *)
Theorem bootstrap_creates_gist s0 encToken token newGistId :
  localStorage s0 !! LS_ENCRYPTED_TOKEN = Some encToken ->
  truthy_str encToken = true ->
  decrypt encToken pin = Ret token ->
  truthy_str token = true ->
  truthy_opt (localStorage s0 !! LS_ENCRYPTED_CACHE) = false ->
  truthy_opt (localStorage s0 !! LS_GIST_ID) = false ->
  findVaultGist env token = Ret None ->
  saveToGist env token None (defaults_at env s0) = Ret (Some newGistId) ->
  truthy_str newGistId = true ->
  accepts_writes env (localStorage s0)
    [ (LS_GIST_ID, newGistId);
      (LS_ENCRYPTED_CACHE,
       envelope_of (getRandomValues env (encrypt_calls s0))
         (stringify (defaults_at env s0)) pin) ]
  = true ->
  exists s,
    mount env pin None s0 = (s, Ret tt)
    /\ s_prompts s = prompts (defaults_at env s0)
    /\ s_syncStatus s = synced
    /\ upserts s = upserts s0 ++ [(token, None, defaults_at env s0)]
    /\ localStorage s
       = <[LS_ENCRYPTED_CACHE :=
             envelope_of (getRandomValues env (encrypt_calls s0))
               (stringify (defaults_at env s0)) pin]>
           (<[LS_GIST_ID := newGistId]> (localStorage s0)).
Proof.
  intros Hls Htruthy Hdec Htok _ Hgid Hfind Hsave Hn Hacc.
  destruct (init_reaches_sync s0 encToken token Hls Htruthy Hdec Htok)
    as (s2 & -> & Htr & Hl & Hec & Huu & Hup & Hck).
  rewrite <- Hl, <- Hec in Hacc.
  assert (Hdef : forall s, uuid_calls s = uuid_calls s2 -> clock s = clock s2 ->
                   defaults_at env s = defaults_at env s0).
  { intros s Hu Hc. unfold defaults_at. now rewrite Hu, Hc, Huu, Hck. }
  unfold init_sync, sync_rest, sync_known_gist, sync_find_gist, sync_create_gist.
  unfold try_M, cancelled. unfold bindM at 1, gets at 1, when at 1. cbn [negb].
  unfold bindM at 1, setSyncStatus at 1, modify at 1.
  set (s3 := commit "syncStatus" (set_s_syncStatus syncing s2)).
  unfold bindM at 1, localStorage_getItem at 1, gets at 1.
  replace (localStorage s3 !! LS_GIST_ID) with (localStorage s0 !! LS_GIST_ID)
    by (subst s3; simpl_state; now rewrite Hl).
  assert (Hskip : forall A (k : jsstring -> M A) (els : M A),
            if_truthy (localStorage s0 !! LS_GIST_ID) k els = els).
  { intros A k els. unfold if_truthy.
    destruct (localStorage s0 !! LS_GIST_ID) as [g|]; cbn [truthy_opt] in Hgid;
      [now rewrite Hgid | reflexivity]. }
  rewrite !Hskip. unfold bindM at 1, ret at 1.
  unfold bindM at 1, bindM at 1, await at 1. rewrite Hfind.
  unfold bindM at 1, gets at 1. cbn [negb if_truthy]. unfold bindM at 1, ret at 1.
  unfold bindM at 1, gets at 1, when. cbn [negb andb].
  unfold bindM at 1. rewrite getDefaultData_run.
  rewrite (Hdef (set_awaits (S (awaits s3)) s3) eq_refl eq_refl).
  run_M. rewrite Hsave. simpl_state. rewrite Hn. subst s3. simpl_state.
  accept_writes Hacc.
  eexists. split; [reflexivity|]. simpl_state. rewrite ?Hup, ?Hl, ?Hec.
  repeat split.
Qed.

(** X26. A propagation whose upsert answers a handle, on a storage that
    accepts the two writes, stores the handle, seals the
    dataset it sent into the cache entry and ends with status [synced],
    leaving the displayed dataset and the pending timeouts as they were. The
    cache entry decrypts under the pin to the JSON text of what was sent, so
    the cache block of the next bootstrap displays the saved prompts. *)
Theorem saveToCloud_success s token promptsToSave resultId ls' now' :
  tokenRef s = Some token -> truthy_str token = true ->
  saveToGist env token (localStorage s !! LS_GIST_ID) (outgoing promptsToSave s)
  = Ret (Some resultId) ->
  truthy_str resultId = true ->
  entropy_ok (getRandomValues env (encrypt_calls s)) ->
  well_formed (stringify (outgoing promptsToSave s)) = true ->
  starts_with_bom (stringify (outgoing promptsToSave s)) = false ->
  parse_VaultData env (stringify (outgoing promptsToSave s))
  = Ret (outgoing promptsToSave s) ->
  accepts_writes env (localStorage s)
    [ (LS_GIST_ID, resultId);
      (LS_ENCRYPTED_CACHE,
       envelope_of (getRandomValues env (encrypt_calls s))
         (stringify (outgoing promptsToSave s)) pin) ]
  = true ->
  exists s' envelope,
    saveToCloud env pin promptsToSave s = (s', Ret tt)
    /\ localStorage s'
       = <[LS_ENCRYPTED_CACHE := envelope]> (<[LS_GIST_ID := resultId]> (localStorage s))
    /\ decrypt envelope pin = Ret (stringify (outgoing promptsToSave s))
    /\ s_syncStatus s' = synced
    /\ s_syncMessage s' = utf8 "Сохранено в облако"
    /\ s_prompts s' = s_prompts s
    /\ timer_view s' = timer_view s
    /\ (ls' !! LS_ENCRYPTED_CACHE = Some envelope ->
        s_prompts (exec (init_cache env pin None) (initial_state ls' now'))
        = promptsToSave).
Proof.
  intros Htok Htruthy Hsave Hres Hent Hwf Hbom Hparse Hacc.
  set (data := outgoing promptsToSave s) in *.
  set (envelope := envelope_of (getRandomValues env (encrypt_calls s)) (stringify data) pin).
  assert (Hdec : decrypt envelope pin = Ret (stringify data)).
  { pose proof (decrypt_encrypt_well_formed _ (stringify data) pin Hent Hwf Hbom) as Hrt.
    now rewrite encrypt_returns in Hrt. }
  unfold saveToCloud.
  unfold bindM at 1, gets at 1. rewrite Htok. unfold if_truthy at 1. rewrite Htruthy.
  run_M. fold (outgoing promptsToSave s). fold data. rewrite Hsave. simpl_state.
  rewrite Hres. simpl_state. accept_writes Hacc. fold envelope.
  eexists. exists envelope. split; [reflexivity|]. simpl_state.
  split; [reflexivity|]. split; [exact Hdec|].
  split; [reflexivity|]. split; [reflexivity|]. split; [reflexivity|].
  split; [reflexivity|].
  intros Hcache. unfold init_cache, exec.
  unfold bindM at 1, localStorage_getItem, gets.
  change (localStorage (initial_state ls' now')) with ls'. rewrite Hcache.
  unfold if_truthy.
  replace (truthy_str envelope) with true
    by (symmetry; exact (envelope_truthy _ (stringify data) pin Hent)).
  unfold try_M, bindM, await, lift, cancelled, gets, when.
  rewrite Hdec, Hparse. reflexivity.
Qed.

(** X27. In every state of a session at most one timeout is pending, the
    ref [saveTimeoutRef] holds its handle, and the handle is not 0, so the
    next call of [debouncedSave] clears it. *)
Theorem session_single_timer ls now s :
  reachable env pin ls now s ->
  (length (timers s) <= 1)%nat
  /\ forall h due arg,
       In (h, (due, arg)) (timers s) -> saveTimeoutRef s = Some h /\ h <> 0%nat.
Proof.
  intros Hreach.
  destruct (reachable_one_pending env pin ls now s Hreach)
    as [_ [Hnone | (h & due & arg & Hone & Href & Hh)]].
  - rewrite Hnone. split; [cbn; lia | intros ? ? ? []].
  - rewrite Hone. split; [cbn; lia|].
    intros h' due' arg' [[= <- <- <-]|[]]. now split.
Qed.

End MoreBootstrap.

(** ** The further properties on the concrete platform *)

Section OnWalkthrough.
Import Scenario Walkthrough.
Existing Instance Toy.toy_crypto.
Existing Instance toy_json.

Lemma unlocked_one_pending : one_pending unlocked.
Proof. split; [vm_compute; lia | left; vm_compute; reflexivity]. Qed.

Lemma unlocked_shape : forallb is_Prompt (s_prompts unlocked) = true.
Proof. vm_compute. reflexivity. Qed.

Lemma unlocked_not_nullish :
  forallb (fun p => negb (nullish p)) (s_prompts unlocked) = true.
Proof. vm_compute. reflexivity. Qed.

(** X3 on the concrete platform: a record stamped two hours and five
    minutes before the clock. *)
Lemma timeAgo_buckets_witness :
  timeAgo boot_time (boot_time - 7500000) = Some (js "2" ++ utf8 " ч назад").
Proof.
  destruct (timeAgo_buckets boot_time (boot_time - 7500000) eq_refl eq_refl eq_refl)
    as (_ & _ & Hhours & _).
  destruct Hhours as [Hrun _]; [unfold boot_time; lia|].
  rewrite Hrun. vm_compute. reflexivity.
Defined.

(** X4 on the concrete platform: the second of five records is deleted. *)
Lemma deletePrompt_removes_witness :
  s_prompts (exec (deletePrompt (js "id-2")) unlocked)
  = [record 1; record 3; record 4; record 5].
Proof.
  destruct (deletePrompt_removes (js "id-2") unlocked unlocked_one_pending
              unlocked_not_nullish) as (Hp & _).
  rewrite Hp. vm_compute. reflexivity.
Defined.

(** X5 on the concrete platform. *)
Lemma toggleFavorite_twice_witness :
  s_prompts (exec (toggleFavorite (js "id-2")) (exec (toggleFavorite (js "id-2")) unlocked))
  = s_prompts unlocked.
Proof.
  exact (proj2 (proj2 (toggleFavorite_twice (js "id-2") unlocked unlocked_shape))).
Defined.

(** X6 on the concrete platform: a new title for the second record. *)
Lemma updatePrompt_fields_witness :
  get_prop (updated (js "id-2") [(js "title", VStr (js "new"))] (clock unlocked) (record 2))
           (js "title")
  = Ret (VStr (js "new"))
  /\ get_prop (updated (js "id-2") [(js "title", VStr (js "new"))] (clock unlocked) (record 2))
              (js "updatedAt")
     = Ret (VNum boot_time).
Proof.
  destruct (updatePrompt_fields (js "id-2") [(js "title", VStr (js "new"))] unlocked
              unlocked_not_nullish) as (_ & _ & Hk).
  split; rewrite Hk by (vm_compute; reflexivity); vm_compute; reflexivity.
Defined.

(** X7 on the concrete platform: the draft of the editor is added to the
    five records of the session. *)
Lemma addPrompt_appends_witness :
  s_prompts (exec (addPrompt (toy_env (Some remote5) true)
                     (VObj (default [] (handleSave draft)))) unlocked)
  = prompts remote5
    ++ [VObj [ (js "title", VStr (js "Title"));
               (js "content", VStr (js "Explain {{topic}}"));
               (js "category", VStr (utf8 "Без категории"));
               (js "tags", VArr [VStr (js "a"); VStr (js "b"); VStr (js "c")]);
               (js "isFavorite", VBool true);
               (js "id", VStr (js "uuid-0"));
               (js "createdAt", VNum boot_time);
               (js "updatedAt", VNum boot_time);
               (js "usageCount", VNum 0) ]]
  /\ uuid_calls (exec (addPrompt (toy_env (Some remote5) true)
                         (VObj (default [] (handleSave draft)))) unlocked)
     = 1%nat.
Proof.
  destruct (addPrompt_appends (toy_env (Some remote5) true) draft
              (default [] (handleSave draft)) unlocked eq_refl unlocked_shape
              unlocked_one_pending) as (Hp & _ & Hu & _).
  split; [rewrite Hp | rewrite Hu]; vm_compute; reflexivity.
Defined.

(** X9 on the concrete platform: the draft of the editor is added. *)
Lemma actions_keep_shape_witness :
  handleSave draft
  = Some [ (js "title", VStr (js "Title")); (js "content", VStr (js "Explain {{topic}}"));
           (js "category", VStr (utf8 "Без категории"));
           (js "tags", VArr [VStr (js "a"); VStr (js "b"); VStr (js "c")]);
           (js "isFavorite", VBool true) ]
  /\ forallb is_Prompt
       (s_prompts (exec (addPrompt (toy_env (Some remote5) true)
                           (VObj (default [] (handleSave draft)))) unlocked)) = true.
Proof.
  split; [vm_compute; reflexivity|].
  exact (proj1 (actions_keep_shape (toy_env (Some remote5) true) draft
                  (default [] (handleSave draft)) (js "id-2") unlocked
                  eq_refl unlocked_shape)).
Defined.

(** X10 on the concrete platform. *)
Lemma actions_throw_on_null_entry_witness :
  deletePrompt (js "id-1") with_null = (with_null, Throw TypeError).
Proof.
  destruct (actions_throw_on_null_entry (js "id-1") [] (js "[1]") [VNum 1] with_null)
    as (_ & Hd & _); [reflexivity | reflexivity | exact Hd].
Defined.

(** X12 on the concrete platform. *)
Lemma forceSync_success_witness :
  exists s',
    forceSync (toy_env (Some remote5) true) the_pin unlocked = (s', Ret tt)
    /\ s_prompts s' = prompts remote5 /\ s_syncStatus s' = synced.
Proof.
  destruct (forceSync_success (toy_env (Some remote5) true) the_pin unlocked
              the_token the_gist remote5)
    as (_ & Haccepted & _);
    try (vm_compute; reflexivity); try apply draws_ok.
  destruct (Haccepted eq_refl) as (s' & Hrun & Hp & _ & Hst & _).
  exists s'. repeat split; assumption.
Defined.

(** X13 on the concrete platform: the export file of two records. *)
Lemma export_import_roundtrip_witness :
  exists text,
    exportData restored = (restored, Ret text)
    /\ s_prompts (exec (importData_onload text) (locked ∅)) = backup.
Proof.
  destruct (export_import_roundtrip restored) as (text & Hx & Hempty & _);
    try (vm_compute; reflexivity).
  exists text. split; [exact Hx|]. now apply Hempty.
Defined.

(** X14 on the concrete platform: the PIN of the setup unlocks, and the
    screen shows no error. *)
Lemma handleSubmit_unlocks_witness :
  exists s' v',
    handleSubmit typed_pin (locked set_up_storage) = (s', Ret v')
    /\ lk_unlocked v' = Some the_pin /\ lk_error v' = [].
Proof.
  destruct (handleSubmit_unlocks typed_pin (locked set_up_storage) eq_refl)
    as (s' & v' & Hrun & _ & Hyes & _).
  exists s', v'. split; [exact Hrun|].
  destruct Hyes as (Hu & _ & He); [|now split].
  split; [vm_compute; lia|]. eexists. split; [reflexivity|].
  split; vm_compute; reflexivity.
Defined.

(** X15 on the concrete platform: a fresh device is set up. *)
Lemma setup_then_unlock_witness :
  exists s1 v1,
    handleTokenStep (toy_env (Some remote5) true) accept_token
      (handlePinStep typed_setup) (locked ∅) = (s1, Ret v1)
    /\ su_step v1 = 3%nat
    /\ initial_screen (localStorage s1) = lock
    /\ tokenRef (exec (init_token the_pin) s1) = Some the_token
    /\ localStorage s1 !! LS_GIST_ID = Some the_gist.
Proof.
  destruct (setup_then_unlock (toy_env (Some remote5) true) accept_token typed_setup
              (locked ∅) (mk_validation true (Some (js "octocat"))) (Some the_gist))
    as (s1 & v1 & Hrun & Hstep & _ & Hscreen & _ & Htok & Hgist);
    try (vm_compute; reflexivity); try apply draws_ok.
  exists s1, v1. repeat split; assumption.
Defined.

(** X17 on the concrete platform: a token that passes validation. *)
Lemma handleUpdateToken_storage_witness :
  exists s' v',
    handleUpdateToken (toy_env (Some remote5) true) accept_token the_pin typed_token unlocked
    = (s', Ret v')
    /\ se_tokenStatus v' = ts_success
    /\ localStorage s' !! LS_GIST_ID = Some the_gist.
Proof.
  destruct (handleUpdateToken_storage (toy_env (Some remote5) true) accept_token the_pin
              typed_token unlocked (mk_validation true (Some (js "octocat"))))
    as (s' & v' & Hrun & _ & Hyes);
    try (vm_compute; reflexivity); try apply draws_ok.
  exists s', v'. split; [exact Hrun|].
  destruct (Hyes eq_refl ltac:(vm_compute; reflexivity)) as (Hst & _ & _ & Hframe).
  split; [exact Hst|]. rewrite Hframe by discriminate. vm_compute. reflexivity.
Defined.

(** X19 on the concrete platform: the vault is the second gist of the
    second page. *)
Lemma findVaultGist_search_witness :
  Gist.findVaultGist toy_fetch the_token = Ret (VStr (js "g3")).
Proof.
  rewrite (findVaultGist_search toy_fetch the_token listed1 listed2 listed3);
    [reflexivity | | | | reflexivity];
    (eexists; split; [vm_compute; reflexivity | split; reflexivity]).
Defined.

(** X22 on the concrete platform. *)
Lemma decrypt_rejects_non_base64_witness :
  decrypt (js "not an envelope!") the_pin = Throw InvalidCharacterError.
Proof.
  exact (proj1 (proj2 (decrypt_rejects_non_base64 (js "not an envelope!") the_pin 33
                         ltac:(vm_compute; tauto) eq_refl))).
Defined.

(** X23 on the concrete platform: a device with nothing stored. *)
Lemma bootstrap_offline_witness :
  exists s,
    mount (toy_env None true) the_pin None (locked ∅) = (s, Ret tt)
    /\ s_syncStatus s = offline
    /\ length (s_prompts s) = 3%nat.
Proof.
  destruct (bootstrap_offline (toy_env None true) the_pin ∅ boot_time)
    as (s & Hrun & Hst & _ & Hlen & _); try reflexivity.
  exists s. repeat split; assumption.
Defined.

(** X24 on the concrete platform: the handle is not stored but the account
    holds the vault. *)
Lemma bootstrap_discovers_gist_witness :
  exists s,
    mount (toy_env (Some remote5) true) the_pin None
      (locked (delete LS_GIST_ID (storage cached4))) = (s, Ret tt)
    /\ s_prompts s = prompts remote5
    /\ localStorage s !! LS_GIST_ID = Some the_gist.
Proof.
  destruct (bootstrap_discovers_gist (toy_env (Some remote5) true) the_pin
              (locked (delete LS_GIST_ID (storage cached4)))
              (envelope 100 the_token) the_token the_gist remote5)
    as (s & Hrun & Hp & _ & Hls & _); try (vm_compute; reflexivity).
  exists s. split; [exact Hrun|]. split; [exact Hp|].
  rewrite Hls. rewrite lookup_insert_ne by discriminate. apply lookup_insert_eq.
Defined.

(** X25 on the concrete platform: a device that holds a credential only,
    and an account with no vault. *)
Lemma bootstrap_creates_gist_witness :
  exists s,
    mount (toy_env None true) the_pin None
      (locked (<[LS_ENCRYPTED_TOKEN := envelope 100 the_token]> ∅)) = (s, Ret tt)
    /\ length (s_prompts s) = 3%nat
    /\ s_syncStatus s = synced
    /\ length (upserts s) = 1%nat
    /\ localStorage s !! LS_GIST_ID = Some (js "gist-2").
Proof.
  destruct (bootstrap_creates_gist (toy_env None true) the_pin
              (locked (<[LS_ENCRYPTED_TOKEN := envelope 100 the_token]> ∅))
              (envelope 100 the_token) the_token (js "gist-2"))
    as (s & Hrun & Hp & Hst & Hup & Hls); try (vm_compute; reflexivity).
  exists s. split; [exact Hrun|]. split; [now rewrite Hp|]. split; [exact Hst|].
  split; [now rewrite Hup|].
  rewrite Hls. rewrite lookup_insert_ne by discriminate. apply lookup_insert_eq.
Defined.

(** X26 on the concrete platform. *)
Lemma saveToCloud_success_witness :
  exists s',
    saveToCloud (toy_env (Some remote5) true) the_pin (prompts remote5) about_to_save
    = (s', Ret tt)
    /\ s_syncStatus s' = synced
    /\ s_prompts (exec (init_cache (toy_env (Some remote5) true) the_pin None)
                    (initial_state (localStorage s') boot_time))
       = prompts remote5.
Proof.
  destruct (saveToCloud_success (toy_env (Some remote5) true) the_pin about_to_save
              the_token (prompts remote5) the_gist
              (localStorage
                 (exec (saveToCloud (toy_env (Some remote5) true) the_pin (prompts remote5))
                    about_to_save))
              boot_time)
    as (s' & envelope & Hrun & Hls & _ & Hst & _ & _ & _ & Hnext);
    try (vm_compute; reflexivity); try apply draws_ok.
  exists s'. split; [exact Hrun|]. split; [exact Hst|].
  unfold exec in Hnext. rewrite Hrun in Hnext. cbn [fst] in Hnext.
  apply Hnext. rewrite Hls. apply lookup_insert_eq.
Defined.

(** X27 on the concrete platform: after two edits one timeout is pending. *)
Lemma session_single_timer_witness :
  (length (timers (run_mutations (toy_env (Some remote5) true) the_pin
                     [edit1; edit2] unlocked)) <= 1)%nat.
Proof.
  destruct (session_single_timer (toy_env (Some remote5) true) the_pin
              (storage cached4) boot_time
              (run_mutations (toy_env (Some remote5) true) the_pin [edit1; edit2] unlocked))
    as [Hlen _].
  { apply reach_mutate, reach_mutate, reach_mount, reach_initial. }
  exact Hlen.
Defined.

(** X28 on the concrete platform: the document uploaded for [remote5] is
    read back. *)
Lemma loadFromGist_reads_upload_witness :
  Gist.loadFromGist (H := vault_json) store_fetch the_token the_gist
  = Ret (VaultData_to_value remote5).
Proof.
  rewrite (loadFromGist_reads_upload (H := vault_json) store_fetch the_token the_gist
             remote5 (gist_body (H := vault_json) remote5)).
  - vm_compute. reflexivity.
  - eexists. split; [reflexivity|]. split; reflexivity.
  - reflexivity.
Defined.

(** X29 on the concrete platform: the envelope of the token under the draws
    number 100. *)
Lemma encrypt_injective_witness :
  entropy_ok (draws 100)
  /\ encrypt (draws 100) the_token the_pin = Ret (envelope 100 the_token)
  /\ (well_formed the_token = true -> starts_with_bom the_token = false ->
      the_token = the_token).
Proof.
  split; [apply draws_ok|]. split; [vm_compute; reflexivity|].
  assert (Hrun : encrypt (draws 100) the_token the_pin = Ret (envelope 100 the_token))
    by (vm_compute; reflexivity).
  destruct (encrypt_injective (draws 100) (draws 100) the_token the_token the_pin the_pin
              (envelope 100 the_token) (draws_ok 100) (draws_ok 100) Hrun Hrun)
    as (_ & _ & _ & Hsame).
  intros Hwf Hbom. now apply Hsame.
Defined.

End OnWalkthrough.
